(** * TONEV-SERVER: the text-to-speech streaming server, embedded in Rocq

    A shallow embedding of the session, registry, streaming and audio
    conversion code of the server:

    - [src/tts/model.py]      [TTSModel.generate_speech_stream]
    - [src/tts/audio.py]      [AudioProcessor]
    - [src/tts/stream.py]     [AudioStream], [StreamManager]
    - [src/api/dependencies.py] [validate_connection_limit], [WebSocketManager]
    - [src/api/websocket.py]  [WSMessageHandler], [websocket_endpoint_handler]
    - [src/api/routes.py]     [generate_audio_chunks]
    - [src/main.py]           the shutdown of [lifespan]

    Python exceptions are values of [exn]; a call that may raise returns a
    [result].  Mutable objects are records threaded through the calls; the
    WebSocket object that a handler and its stream share is stored once in
    the session record, so that a [close] through one alias is seen through
    the other. *)

From Stdlib Require Import ZArith List String Ascii Bool Lia QArith.
From Stdlib Require Import Sorted SpecFloat.
From stdpp Require Import gmap.
Import ListNotations.

Local Open Scope string_scope.
Local Open Scope list_scope.
Local Open Scope Z_scope.

(** ** Python exceptions and results *)

(** The exception classes the code raises or catches.  [CancelledError]
    derives from [BaseException]: an [except Exception] clause does not
    catch it. *)
Inductive exn : Type :=
| WebSocketError (message : string)
| ModelError (message : string)
| AudioError (message : string)
| TypeError (message : string)
| ValueError (message : string)
| AttributeError (message : string)
| RuntimeError (message : string)
| StructError (message : string)
| WaveError (message : string)
| WebSocketDisconnect
| JSONDecodeError
| CancelledError.

Definition is_Exception (e : exn) : bool :=
  match e with
  | CancelledError => false
  | _ => true
  end.

(** [str(e)] *)
Definition str_exn (e : exn) : string :=
  match e with
  | WebSocketError m | ModelError m | AudioError m | TypeError m
  | ValueError m | AttributeError m | RuntimeError m | StructError m
  | WaveError m => m
  | WebSocketDisconnect => "1000"
  | JSONDecodeError => "Expecting value"
  | CancelledError => ""
  end.

Inductive result (A : Type) : Type :=
| Ok (a : A)
| Raise (e : exn).
Arguments Ok {A} a.
Arguments Raise {A} e.

Definition bind_result {A B} (r : result A) (k : A -> result B) : result B :=
  match r with
  | Ok a => k a
  | Raise e => Raise e
  end.

(** [try: r  except Exception as e: h e] *)
Definition except_Exception {A} (r : result A) (h : exn -> result A) : result A :=
  match r with
  | Ok a => Ok a
  | Raise e => if is_Exception e then h e else Raise e
  end.

Declare Scope result_scope.
Delimit Scope result_scope with result.
Notation "'do' x <- r ; k" := (bind_result r (fun x => k))
  (at level 10, x name, r at level 100, k at level 200) : result_scope.

(** ** Configuration: [src/core/config.py] *)

Record Settings : Type := {
  SAMPLE_RATE : Z;
  NUM_CHANNELS : Z;
  CHUNK_SIZE : Z;
  MAX_CONNECTIONS : nat;
}.

(** The defaults of the [Settings] class. *)
Definition default_settings : Settings :=
  {| SAMPLE_RATE := 24000; NUM_CHANNELS := 1; CHUNK_SIZE := 4096;
     MAX_CONNECTIONS := 100 |}.

(** ** Numpy scalars

    The audio code computes on numpy float arrays.  The scalar operations
    it uses are the methods of [NpScalar]; the code is embedded over any
    instance.  [fgt x y] is [x > y] (false when either side is NaN),
    [ftrunc] the conversion of a float to an integer by truncation, as the
    C cast behind [astype] does it, and [to_float32] is
    [astype(np.float32)] on one element. *)
Class NpScalar (T : Type) : Type := {
  of_Z : Z -> T;
  fabs : T -> T;
  fmul : T -> T -> T;
  fdiv : T -> T -> T;
  fgt : T -> T -> bool;
  isnan : T -> bool;
  ftrunc : T -> Z;
  to_float32 : T -> T;
}.

(** IEEE 754 binary32 arithmetic, which is numpy's on [float32] arrays:
    24 bits of precision, rounding to nearest even.  [f32_trunc] is the
    conversion the C cast of [astype] compiles to on x86-64: truncation
    toward zero, and the 32-bit "integer indefinite" value for NaN and
    infinities. *)
Definition f32_trunc (x : spec_float) : Z :=
  match x with
  | S754_zero _ => 0
  | S754_finite s m e =>
      let magnitude := if Z.leb 0 e then Zpos m * 2 ^ e
                       else Z.shiftr (Zpos m) (- e) in
      if s then - magnitude else magnitude
  | _ => -2147483648
  end.

#[export] Instance binary32_scalar : NpScalar spec_float := {|
  of_Z := fun z => binary_normalize 24 128 z 0 false;
  fabs := SFabs;
  fmul := SFmul 24 128;
  fdiv := SFdiv 24 128;
  fgt := fun x y => SFltb y x;
  isnan := fun x => match x with S754_nan => true | _ => false end;
  ftrunc := f32_trunc;
  to_float32 := fun x => x;
|}.

(** ** Machine integers and bytes *)

Definition bytes : Type := list Byte.byte.

Definition byte_of_Z (z : Z) : Byte.byte :=
  match Byte.of_N (Z.to_N (z mod 256)) with
  | Some b => b
  | None => Byte.x00
  end.

Definition Z_of_byte (b : Byte.byte) : Z := Z.of_N (Byte.to_N b).

(** The value an integer takes when stored in a signed 16-bit cell. *)
Definition wrap_int16 (z : Z) : Z := (z + 32768) mod 65536 - 32768.

(** [np.int16(...).tobytes()] and [np.frombuffer(..., dtype=np.int16)] on a
    little-endian host. *)
Definition int16_to_bytes (z : Z) : bytes :=
  [byte_of_Z (z mod 65536); byte_of_Z ((z mod 65536) / 256)].

Definition int16_of_bytes (lo hi : Byte.byte) : Z :=
  wrap_int16 (Z_of_byte lo + 256 * Z_of_byte hi).

Definition tobytes (a : list Z) : bytes := flat_map int16_to_bytes a.

Fixpoint frombuffer (b : bytes) : result (list Z) :=
  match b with
  | [] => Ok []
  | [_] => Raise (ValueError "buffer size must be a multiple of element size")
  | lo :: hi :: rest =>
      match frombuffer rest with
      | Ok a => Ok (int16_of_bytes lo hi :: a)
      | Raise e => Raise e
      end
  end.

(** ** Python values

    The JSON values a frame decodes to, which are also the Python values
    the handlers pass on ([message.get("text")] may be any of them). *)
#[warnings="-register-all"]
Inductive json : Type :=
| JNull
| JBool (b : bool)
| JInt (z : Z)
| JFloat (q : Q)
| JStr (s : string)
| JArr (items : list json)
| JObj (fields : list (string * json)).

(** [v == s] for a string literal [s]. *)
Definition json_eq_str (v : json) (s : string) : bool :=
  match v with
  | JStr s' => String.eqb s' s
  | _ => false
  end.

(** [type(v).__name__] *)
Definition py_type_name (v : json) : string :=
  match v with
  | JNull => "NoneType"
  | JBool _ => "bool"
  | JInt _ => "int"
  | JFloat _ => "float"
  | JStr _ => "str"
  | JArr _ => "list"
  | JObj _ => "dict"
  end.

(** [bool(v)] *)
Definition py_truthy (v : json) : bool :=
  match v with
  | JNull => false
  | JBool b => b
  | JInt z => negb (Z.eqb z 0)
  | JFloat q => negb (Qeq_bool q 0)
  | JStr s => negb (String.eqb s "")
  | JArr items => match items with [] => false | _ => true end
  | JObj fields => match fields with [] => false | _ => true end
  end.

Fixpoint assoc (key : string) (fields : list (string * json)) : option json :=
  match fields with
  | [] => None
  | (k, v) :: rest => if String.eqb k key then Some v else assoc key rest
  end.

(** [message.get(key, default)]: only a dict has the method. *)
Definition dict_get (message : json) (key : string) (default : json)
  : result json :=
  match message with
  | JObj fields =>
      Ok (match assoc key fields with Some v => v | None => default end)
  | _ => Raise (AttributeError
           (String.append "'" (String.append (py_type_name message)
              "' object has no attribute 'get'")))
  end.

(** ** Python sequences *)

(** [range(0, stop, step)], with Python's floor division. *)
Definition py_range0 (stop step : Z) : result (list Z) :=
  if Z.eqb step 0 then Raise (ValueError "range() arg 3 must not be zero")
  else
    let count := if Z.ltb 0 step then (stop + step - 1) / step
                 else (stop + step + 1) / step in
    Ok (map (fun k => Z.of_nat k * step) (seq 0 (Z.to_nat count))).

(** [a[i:j]] for [0 <= i] and [0 <= j]. *)
Definition py_slice {A} (a : list A) (i j : Z) : list A :=
  firstn (Z.to_nat j - Z.to_nat i) (skipn (Z.to_nat i) a).

Definition len {A} (a : list A) : Z := Z.of_nat (length a).

(** [np.pad(chunk, (0, n), mode='constant', constant_values=0)] *)
Definition np_pad_right (chunk : list Z) (n : Z) : list Z :=
  (chunk ++ repeat 0 (Z.to_nat n))%list.

(** ** The synthesis model: [src/tts/model.py] *)

(** One call of the external engine, [self._model.tts(...)], with the
    keyword arguments the code passes. *)
Record tts_call : Type := {
  tts_text : json;
  tts_speaker_wav : option json;
  tts_language : option string;
  tts_speed : Q;
}.

(** [TTSModel]: the fields the streaming path reads.  The engine is the
    function [_model_tts]; it returns the waveform or raises. *)
Record TTSModel (T : Type) : Type := {
  _initialized : bool;
  _stream_chunk_size : Z;
  _model_tts : tts_call -> result (list T);
}.
Arguments _initialized {T} _.
Arguments _stream_chunk_size {T} _.
Arguments _model_tts {T} _ _.

Section Model.
Context {T : Type} {NP : NpScalar T}.

Definition _ensure_initialized (self : TTSModel T) : result unit :=
  if _initialized self then Ok tt
  else Raise (ModelError "TTS model not initialized").

Definition generate_speech (self : TTSModel T)
    (text voice : json) (speed : Q) (language : string) : result (list T) :=
  (do _ <- _ensure_initialized self;
   except_Exception
     (if json_eq_str voice "default"
      then _model_tts self
             {| tts_text := text; tts_speaker_wav := None;
                tts_language := None; tts_speed := speed |}
      else _model_tts self
             {| tts_text := text; tts_speaker_wav := Some voice;
                tts_language := Some language; tts_speed := speed |})
     (fun e => Raise (ModelError "Speech generation failed")))%result.

(** [(wav * 32767).astype(np.int16)] *)
Definition astype_int16 (x : T) : Z := wrap_int16 (ftrunc x).

Definition scale_int16 (wav : list T) : list Z :=
  map (fun x => astype_int16 (fmul x (of_Z 32767))) wav.

(** The body of the [for i in range(0, len(wav), chunk_size)] loop: the
    chunk yielded at index [i]. *)
Definition chunk_at (wav : list Z) (chunk_size i : Z) : bytes :=
  let chunk := py_slice wav i (i + chunk_size) in
  let chunk :=
    if Z.ltb (len chunk) chunk_size
    then np_pad_right chunk (chunk_size - len chunk)
    else chunk in
  tobytes chunk.

(** [chunk_size or self._stream_chunk_size] *)
Definition chunk_size_or (chunk_size : option Z) (default : Z) : Z :=
  match chunk_size with
  | None => default
  | Some c => if Z.eqb c 0 then default else c
  end.

(** The generator, as the list of the chunks it yields.  The waveform is
    generated in full before the first [yield], so the generator either
    raises at its first step or yields every chunk. *)
Definition generate_speech_stream (self : TTSModel T)
    (text voice : json) (speed : Q) (language : string)
    (chunk_size : option Z) : result (list bytes) :=
  (do _ <- _ensure_initialized self;
   let chunk_size := chunk_size_or chunk_size (_stream_chunk_size self) in
   except_Exception
     (do wav <- generate_speech self text voice speed language;
      let wav := scale_int16 wav in
      do indices <- py_range0 (len wav) chunk_size;
      Ok (map (chunk_at wav chunk_size) indices))
     (fun e => Raise (ModelError "Speech streaming failed")))%result.

End Model.

(** ** The [struct] and [wave] modules, as far as the audio code uses them *)

(** [struct.pack('<L', x)] and [struct.pack('<H', x)]: little-endian,
    [struct.error] when [x] does not fit. *)
Definition struct_pack_L (x : Z) : result bytes :=
  if Z.leb 0 x && Z.ltb x 4294967296
  then Ok [byte_of_Z x; byte_of_Z (x / 256);
           byte_of_Z (x / 65536); byte_of_Z (x / 16777216)]
  else Raise (StructError "argument out of range").

Definition struct_pack_H (x : Z) : result bytes :=
  if Z.leb 0 x && Z.ltb x 65536
  then Ok [byte_of_Z x; byte_of_Z (x / 256)]
  else Raise (StructError "ushort format requires 0 <= number <= 65535").

Definition struct_unpack_L (b : bytes) : result Z :=
  match b with
  | [b0; b1; b2; b3] =>
      Ok (Z_of_byte b0 + 256 * Z_of_byte b1
          + 65536 * Z_of_byte b2 + 16777216 * Z_of_byte b3)
  | _ => Raise (StructError "unpack requires a buffer of 4 bytes")
  end.

Definition struct_unpack_H (b : bytes) : result Z :=
  match b with
  | [b0; b1] => Ok (Z_of_byte b0 + 256 * Z_of_byte b1)
  | _ => Raise (StructError "unpack requires a buffer of 2 bytes")
  end.

Definition ascii_bytes (s : string) : bytes := list_byte_of_string s.

Definition bytes_eqb (a b : bytes) : bool :=
  if List.list_eq_dec Byte.byte_eq_dec a b then true else false.

(** What [Wave_write] has written when the [with] block of
    [array_to_wav_bytes] is left: the 44-byte RIFF header and the frames.
    The setters reject a channel count below 1, a sample width outside
    1..4 and a frame rate that is not positive; the header fields are
    packed with [struct.pack], which rejects values that do not fit. *)
Definition wave_write (nchannels sampwidth framerate : Z) (frames : bytes)
  : result bytes :=
  (if Z.ltb nchannels 1 then Raise (WaveError "bad # of channels")
   else if Z.ltb sampwidth 1 || Z.ltb 4 sampwidth
   then Raise (WaveError "bad sample width")
   else if Z.leb framerate 0 then Raise (WaveError "bad frame rate")
   else
     do riff_size <- struct_pack_L (36 + len frames);
     do fmt_size <- struct_pack_L 16;
     do format_tag <- struct_pack_H 1;
     do channels <- struct_pack_H nchannels;
     do rate <- struct_pack_L framerate;
     do byte_rate <- struct_pack_L (nchannels * framerate * sampwidth);
     do block_align <- struct_pack_H (nchannels * sampwidth);
     do bits <- struct_pack_H (sampwidth * 8);
     do data_size <- struct_pack_L (len frames);
     Ok (ascii_bytes "RIFF" ++ riff_size ++ ascii_bytes "WAVE"
         ++ ascii_bytes "fmt " ++ fmt_size ++ format_tag ++ channels
         ++ rate ++ byte_rate ++ block_align ++ bits
         ++ ascii_bytes "data" ++ data_size ++ frames)%list)%result.

(** An opened [Wave_read]. *)
Record Wave_read : Type := {
  _nchannels : Z;
  _sampwidth : Z;
  _framerate : Z;
  _framesize : Z;
  _nframes : Z;
  _data_chunk : bytes;
}.

Definition read (n : nat) (file : bytes) : bytes * bytes :=
  (firstn n file, skipn n file).

(** [wave.open(file, 'rb')] on a file whose [fmt ] chunk has 16 bytes and
    is directly followed by the [data] chunk, which is the layout
    [wave_write] produces.  (The module also skips chunks it does not
    know; a file with such chunks is outside this embedding and is
    rejected here.) *)
Definition wave_open_rb (file : bytes) : result Wave_read :=
  (let '(riff, file) := read 4 file in
   if negb (bytes_eqb riff (ascii_bytes "RIFF"))
   then Raise (WaveError "file does not start with RIFF id") else
   let '(riff_size, file) := read 4 file in
   do riff_size <- struct_unpack_L riff_size;
   let file := firstn (Z.to_nat riff_size) file in
   let '(wave, file) := read 4 file in
   if negb (bytes_eqb wave (ascii_bytes "WAVE"))
   then Raise (WaveError "not a WAVE file") else
   let '(fmt, file) := read 4 file in
   if negb (bytes_eqb fmt (ascii_bytes "fmt "))
   then Raise (WaveError "unknown chunk") else
   let '(fmt_size, file) := read 4 file in
   do fmt_size <- struct_unpack_L fmt_size;
   if negb (Z.eqb fmt_size 16) then Raise (WaveError "unknown format") else
   let '(format_tag, file) := read 2 file in
   do format_tag <- struct_unpack_H format_tag;
   let '(channels, file) := read 2 file in
   do nchannels <- struct_unpack_H channels;
   let '(rate, file) := read 4 file in
   do framerate <- struct_unpack_L rate;
   let '(byte_rate, file) := read 4 file in
   do _ <- struct_unpack_L byte_rate;
   let '(block_align, file) := read 2 file in
   do _ <- struct_unpack_H block_align;
   if negb (Z.eqb format_tag 1) then Raise (WaveError "unknown format") else
   let '(bits, file) := read 2 file in
   do bits <- struct_unpack_H bits;
   let sampwidth := (bits + 7) / 8 in
   if Z.eqb sampwidth 0 then Raise (WaveError "bad sample width") else
   if Z.eqb nchannels 0 then Raise (WaveError "bad # of channels") else
   let framesize := nchannels * sampwidth in
   let '(data, file) := read 4 file in
   if negb (bytes_eqb data (ascii_bytes "data"))
   then Raise (WaveError "unknown chunk") else
   let '(data_size, file) := read 4 file in
   do data_size <- struct_unpack_L data_size;
   Ok {| _nchannels := nchannels; _sampwidth := sampwidth;
         _framerate := framerate; _framesize := framesize;
         _nframes := data_size / framesize;
         _data_chunk := firstn (Z.to_nat data_size) file |})%result.

Definition getframerate (w : Wave_read) : Z := _framerate w.
Definition getnframes (w : Wave_read) : Z := _nframes w.

Definition readframes (w : Wave_read) (nframes : Z) : bytes :=
  if Z.eqb nframes 0 then []
  else firstn (Z.to_nat (nframes * _framesize w)) (_data_chunk w).

(** ** Audio conversion: [src/tts/audio.py] *)

Record AudioConfig : Type := {
  sample_rate : Z;
  num_channels : Z;
  bits_per_sample : Z;
}.

(** [AudioConfig()] under the given settings. *)
Definition AudioConfig_default (settings : Settings) : AudioConfig :=
  {| sample_rate := SAMPLE_RATE settings;
     num_channels := NUM_CHANNELS settings;
     bits_per_sample := 16 |}.

Inductive np_dtype : Type := np_float32 | np_float64.

Record ndarray (T : Type) : Type := {
  dtype : np_dtype;
  data : list T;
}.
Arguments dtype {T} _.
Arguments data {T} _.

Section Audio.
Context {T : Type} {NP : NpScalar T}.

(** [np.maximum], which propagates NaN. *)
Definition np_maximum (x y : T) : T :=
  if isnan x then x
  else if isnan y then y
  else if fgt y x then y else x.

(** [a.max()]: raises on an empty array. *)
Definition np_amax (a : list T) : result T :=
  match a with
  | [] => Raise (ValueError
      "zero-size array to reduction operation maximum which has no identity")
  | x :: rest => Ok (fold_left np_maximum rest x)
  end.

Definition astype_float32 (a : ndarray T) : ndarray T :=
  {| dtype := np_float32; data := map to_float32 (data a) |}.

Definition array_to_wav_bytes (config : AudioConfig) (audio_array : ndarray T)
  : result bytes :=
  except_Exception
    (let audio_array :=
       match dtype audio_array with
       | np_float32 => audio_array
       | _ => astype_float32 audio_array
       end in
     do peak <- np_amax (map fabs (data audio_array));
     do audio_array <-
       (if fgt peak (of_Z 1)
        then
          do peak <- np_amax (map fabs (data audio_array));
          Ok {| dtype := dtype audio_array;
                data := map (fun x => fdiv x peak) (data audio_array) |}
        else Ok audio_array);
     let wav_data := scale_int16 (data audio_array) in
     wave_write (num_channels config) (bits_per_sample config / 8)
                (sample_rate config) (tobytes wav_data))%result
    (fun e => Raise (AudioError "Failed to convert array to WAV")).

Definition wav_bytes_to_array (wav_bytes : bytes) : result (ndarray T * Z) :=
  except_Exception
    (do wav_file <- wave_open_rb wav_bytes;
     let sample_rate := getframerate wav_file in
     let num_frames := getnframes wav_file in
     let wav_data := readframes wav_file num_frames in
     do audio_array <- frombuffer wav_data;
     let audio_array :=
       {| dtype := np_float32;
          data := map (fun z => fdiv (to_float32 (of_Z z)) (of_Z 32767))
                      audio_array |} in
     Ok (audio_array, sample_rate))%result
    (fun e => Raise (AudioError "Failed to convert WAV to array")).

Definition normalize_audio (audio : list T) : result (list T) :=
  except_Exception
    (do max_val <- np_amax (map fabs audio);
     if fgt max_val (of_Z 0)
     then Ok (map (fun x => fdiv x max_val) audio)
     else Ok audio)%result
    (fun e => Raise (AudioError "Audio normalization failed")).

End Audio.





(** ** The transport: Starlette's [WebSocket]

    [application_state] is the state the object keeps; [client_gone] says
    that the peer has gone away, so that the next send fails; [sent] is the
    sequence of frames handed to the peer. *)
Inductive WebSocketState : Type := CONNECTING | CONNECTED | DISCONNECTED.

Inductive frame : Type :=
| Binary (payload : bytes)
| Json (type : string) (message : option string)
| Text (payload : string).

Record WebSocket : Type := {
  application_state : WebSocketState;
  client_gone : bool;
  sent : list frame;
}.

Definition set_application_state (st : WebSocketState) (ws : WebSocket) :=
  {| application_state := st; client_gone := client_gone ws; sent := sent ws |}.

Definition set_client_gone (ws : WebSocket) :=
  {| application_state := application_state ws; client_gone := true;
     sent := sent ws |}.

Definition push_frame (f : frame) (ws : WebSocket) :=
  {| application_state := application_state ws; client_gone := client_gone ws;
     sent := sent ws ++ [f] |}.

Definition ws_accept (ws : WebSocket) : result unit * WebSocket :=
  match application_state ws with
  | CONNECTING =>
      if client_gone ws
      then (Raise WebSocketDisconnect, set_application_state DISCONNECTED ws)
      else (Ok tt, set_application_state CONNECTED ws)
  | CONNECTED => (Raise (RuntimeError "Expected ASGI message websocket.send or websocket.close"), ws)
  | DISCONNECTED => (Raise (RuntimeError "Cannot call send once a close message has been sent."), ws)
  end.

(** [send_bytes], [send_json], [send_text] *)
Definition ws_send (f : frame) (ws : WebSocket) : result unit * WebSocket :=
  match application_state ws with
  | CONNECTING => (Raise (RuntimeError "Expected ASGI message websocket.accept or websocket.close"), ws)
  | CONNECTED =>
      if client_gone ws
      then (Raise WebSocketDisconnect, set_application_state DISCONNECTED ws)
      else (Ok tt, push_frame f ws)
  | DISCONNECTED => (Raise (RuntimeError "Cannot call send once a close message has been sent."), ws)
  end.

Definition ws_close (ws : WebSocket) : result unit * WebSocket :=
  match application_state ws with
  | DISCONNECTED => (Raise (RuntimeError "Cannot call send once a close message has been sent."), ws)
  | _ =>
      if client_gone ws
      then (Raise WebSocketDisconnect, set_application_state DISCONNECTED ws)
      else (Ok tt, set_application_state DISCONNECTED ws)
  end.

(** The control frames of the protocol. *)
Definition end_frame : frame := Json "end" None.
Definition ping_frame : frame := Json "ping" None.
Definition error_frame (message : string) : frame := Json "error" (Some message).
Definition success_frame (message : string) : frame := Json "success" (Some message).

Definition is_audio (f : frame) : bool :=
  match f with Binary _ => true | _ => false end.

(** ** What other tasks do while one task is suspended

    Between two steps of a coroutine the event loop may run other tasks of
    the session.  The ones that touch the state a stream reads are: a task
    that runs [AudioStream.close] (the keepalive tasks do, on failure), and
    the peer going away. *)
Inductive env_event : Type := EnvNone | EnvClose | EnvPeerGone.

Inductive task_state : Type := TaskRunning | TaskCancelled.

(** ** Streams: [src/tts/stream.py] *)
Module Stream.

Record StreamConfig : Type := { chunk_size : Z }.

(** [StreamConfig()] *)
Definition StreamConfig_default (settings : Settings) : StreamConfig :=
  {| chunk_size := CHUNK_SIZE settings |}.

(** [AudioStream]: its own fields.  The WebSocket it refers to is kept in
    [Conn], next to it. *)
Record AudioStream : Type := {
  session_id : nat;
  config : StreamConfig;
  _active : bool;
  _ping_task : option task_state;
  _stream_task : option task_state;
}.

(** A stream with the WebSocket object its [websocket] attribute refers to,
    and what the other tasks will do at its coming suspension points. *)
Record Conn : Type := {
  stream : AudioStream;
  websocket : WebSocket;
  pending : list env_event;
}.

(** [AudioStream(websocket)], with [uuid] the value [uuid.uuid4()] draws. *)
Definition new (settings : Settings) (uuid : nat) : AudioStream :=
  {| session_id := uuid; config := StreamConfig_default settings;
     _active := true; _ping_task := None; _stream_task := None |}.

Definition set_ping_task (t : option task_state) (self : AudioStream) :=
  {| session_id := session_id self; config := config self;
     _active := _active self; _ping_task := t;
     _stream_task := _stream_task self |}.

(** [task.cancel()] followed by [await task], for a task that may be unset *)
Definition cancel (t : option task_state) : option task_state :=
  match t with
  | Some _ => Some TaskCancelled
  | None => None
  end.

Definition initialize (self : AudioStream) (ws : WebSocket)
  : result unit * AudioStream * WebSocket :=
  match ws_accept ws with
  | (Ok _, ws) => (Ok tt, set_ping_task (Some TaskRunning) self, ws)
  | (Raise e, ws) =>
      if is_Exception e
      then (Raise (WebSocketError "Failed to initialize WebSocket connection"),
            self, ws)
      else (Raise e, self, ws)
  end.

(** [close]: the failure of [websocket.close()] is swallowed. *)
Definition close (self : AudioStream) (ws : WebSocket)
  : AudioStream * WebSocket :=
  ({| session_id := session_id self; config := config self;
      _active := false;
      _ping_task := cancel (_ping_task self);
      _stream_task := cancel (_stream_task self) |},
   snd (ws_close ws)).

Definition interfere (ev : env_event) (self : AudioStream) (ws : WebSocket)
  : AudioStream * WebSocket :=
  match ev with
  | EnvNone => (self, ws)
  | EnvClose => close self ws
  | EnvPeerGone => (self, set_client_gone ws)
  end.

(** The task is suspended once: the next scheduled event happens. *)
Definition suspend (c : Conn) : Conn :=
  let '(self, ws) := interfere (hd EnvNone (pending c)) (stream c) (websocket c) in
  {| stream := self; websocket := ws; pending := tl (pending c) |}.

Definition send (f : frame) (c : Conn) : result unit * Conn :=
  let '(r, ws) := ws_send f (websocket c) in
  (r, {| stream := stream c; websocket := ws; pending := pending c |}).

Definition close_conn (c : Conn) : Conn :=
  let '(self, ws) := close (stream c) (websocket c) in
  {| stream := self; websocket := ws; pending := pending c |}.

(** The [async for] loop of [stream_audio] over the chunks the generator
    still has to yield: the flag is tested, the chunk is sent, and the task
    is suspended in the send. *)
Fixpoint send_chunks (chunks : list bytes) (c : Conn) : result unit * Conn :=
  match chunks with
  | [] => (Ok tt, c)
  | chunk :: rest =>
      if negb (_active (stream c)) then (Ok tt, c)
      else
        match send (Binary chunk) c with
        | (Raise e, c) => (Raise e, c)
        | (Ok _, c) => send_chunks rest (suspend c)
        end
  end.

Section WithModel.
Context {T : Type} {NP : NpScalar T}.
Variable tts_model : TTSModel T.

(** The body of the [try] of [stream_audio], under the lock. *)
Definition stream_audio_body (text voice : json) (speed : Q) (c : Conn)
  : result unit * Conn :=
  let generator :=
    generate_speech_stream tts_model text voice speed "en"
      (Some (chunk_size (config (stream c)))) in
  let c := suspend c in
  match generator with
  | Raise e => (Raise e, c)
  | Ok chunks =>
      match send_chunks chunks c with
      | (Raise e, c) => (Raise e, c)
      | (Ok _, c) =>
          if _active (stream c) then send end_frame c else (Ok tt, c)
      end
  end.

Definition stream_audio (text voice : json) (speed : Q) (c : Conn)
  : result unit * Conn :=
  match stream_audio_body text voice speed c with
  | (Ok _, c) => (Ok tt, c)
  | (Raise e, c) =>
      if is_Exception e
      then (Raise (WebSocketError "Audio streaming failed"), close_conn c)
      else (Raise e, c)
  end.

End WithModel.

End Stream.

(** ** The process-wide registries

    [stream_manager] and [ws_manager] are module-level singletons; [uuid]
    stands for the state of [uuid.uuid4()], which is taken never to repeat a
    value.  A registered stream is kept with the WebSocket it refers to. *)
Record Globals : Type := {
  settings : Settings;
  _streams : gmap nat (Stream.AudioStream * WebSocket);
  _active_connections : gmap nat WebSocket;
  uuid : nat;
}.

Definition set_streams (m : gmap nat (Stream.AudioStream * WebSocket))
    (g : Globals) : Globals :=
  {| settings := settings g; _streams := m;
     _active_connections := _active_connections g; uuid := uuid g |}.

Definition set_active_connections (m : gmap nat WebSocket) (g : Globals)
  : Globals :=
  {| settings := settings g; _streams := _streams g;
     _active_connections := m; uuid := uuid g |}.

(** [uuid.uuid4()] *)
Definition uuid4 (g : Globals) : nat * Globals :=
  (uuid g,
   {| settings := settings g; _streams := _streams g;
      _active_connections := _active_connections g; uuid := S (uuid g) |}).

Definition initial_globals (settings : Settings) : Globals :=
  {| settings := settings; _streams := ∅; _active_connections := ∅;
     uuid := 0%nat |}.

Module StreamManager.

Definition create_stream (websocket : WebSocket) (g : Globals)
  : result Stream.AudioStream * WebSocket * Globals :=
  let '(id, g) := uuid4 g in
  let stream := Stream.new (settings g) id in
  match Stream.initialize stream websocket with
  | (Raise e, _, websocket) => (Raise e, websocket, g)
  | (Ok _, stream, websocket) =>
      (Ok stream, websocket,
       set_streams (<[Stream.session_id stream := (stream, websocket)]>
                      (_streams g)) g)
  end.

Definition remove_stream (session_id : nat) (g : Globals) : Globals :=
  match _streams g !! session_id with
  | Some (stream, websocket) =>
      let closed := Stream.close stream websocket in
      set_streams (delete session_id (_streams g)) g
  | None => g
  end.

Definition get_stream (session_id : nat) (g : Globals)
  : option Stream.AudioStream :=
  fst <$> (_streams g !! session_id).

Definition active_streams (g : Globals) : nat := size (_streams g).

End StreamManager.

(** ** Admission: [src/api/dependencies.py] *)

(** [WebSocketError(message, details=None)]: the constructor has no
    [status_code] parameter, so a call that passes one raises [TypeError]
    instead of building the exception. *)
Definition WebSocketError_init (message : string) (status_code : option Z)
  : exn :=
  match status_code with
  | None => WebSocketError message
  | Some _ => TypeError "__init__() got an unexpected keyword argument 'status_code'"
  end.

Definition validate_connection_limit (g : Globals) : result bool :=
  if Nat.leb (MAX_CONNECTIONS (settings g)) (StreamManager.active_streams g)
  then Raise (WebSocketError_init "Maximum connection limit reached" (Some 503))
  else Ok true.

Module WebSocketManager.

Definition connect (websocket : WebSocket) (g : Globals)
  : result nat * WebSocket * Globals :=
  match validate_connection_limit g with
  | Raise e =>
      if is_Exception e
      then (Raise (WebSocketError "Failed to establish WebSocket connection"),
            websocket, g)
      else (Raise e, websocket, g)
  | Ok _ =>
      match StreamManager.create_stream websocket g with
      | (Raise e, websocket, g) =>
          if is_Exception e
          then (Raise (WebSocketError "Failed to establish WebSocket connection"),
                websocket, g)
          else (Raise e, websocket, g)
      | (Ok stream, websocket, g) =>
          (Ok (Stream.session_id stream), websocket,
           set_active_connections
             (<[Stream.session_id stream := websocket]> (_active_connections g))
             g)
      end
  end.

(** [connect] as the event loop runs it.  The call is suspended once before
    it registers anything: in [await self.websocket.accept()], inside
    [stream.initialize()], which [create_stream] awaits.  [connect_begin]
    is the part run before the suspension: the capacity check, and the
    construction of the stream, which draws its identifier.
    [connect_resume] is the part run when the handshake completes: the
    stream is initialised and registered in both registries.  Other tasks
    run in between; [connect] above is the call with nothing in
    between. *)
Definition connect_begin (websocket : WebSocket) (g : Globals)
  : result Stream.AudioStream * Globals :=
  match validate_connection_limit g with
  | Raise e =>
      if is_Exception e
      then (Raise (WebSocketError "Failed to establish WebSocket connection"),
            g)
      else (Raise e, g)
  | Ok _ =>
      let '(id, g) := uuid4 g in
      (Ok (Stream.new (settings g) id), g)
  end.

Definition connect_resume (stream : Stream.AudioStream) (websocket : WebSocket)
    (g : Globals) : result nat * WebSocket * Globals :=
  match Stream.initialize stream websocket with
  | (Raise e, _, websocket) =>
      if is_Exception e
      then (Raise (WebSocketError "Failed to establish WebSocket connection"),
            websocket, g)
      else (Raise e, websocket, g)
  | (Ok _, stream, websocket) =>
      let g :=
        set_streams (<[Stream.session_id stream := (stream, websocket)]>
                       (_streams g)) g in
      (Ok (Stream.session_id stream), websocket,
       set_active_connections
         (<[Stream.session_id stream := websocket]> (_active_connections g))
         g)
  end.

Definition disconnect (session_id : nat) (g : Globals) : Globals :=
  match _active_connections g !! session_id with
  | Some _ =>
      let g := StreamManager.remove_stream session_id g in
      set_active_connections (delete session_id (_active_connections g)) g
  | None => g
  end.

Definition active_connections (g : Globals) : nat :=
  size (_active_connections g).

End WebSocketManager.

(** ** The session handler: [src/api/websocket.py] *)
Module Handler.

Inductive task : Type :=
| ProcessMessages
| Keepalive
| Synthesis (text voice : json) (speed : Q).

(** [WSMessageHandler].  [websocket] is the object the handler was built
    with; [initialize] hands the same object to the stream it creates, so
    the stream's [websocket] attribute and the handler's are one object,
    stored here once.  [pending] is the schedule of the other tasks' actions
    at the suspension points of a streaming operation. *)
Record WSMessageHandler : Type := {
  websocket : WebSocket;
  pending : list env_event;
  stream : option Stream.AudioStream;
  session_id : nat;
  _active : bool;
  _message_queue : list json;
  _tasks : list task;
}.

Definition set_websocket (ws : WebSocket) (h : WSMessageHandler) :=
  {| websocket := ws; pending := pending h; stream := stream h;
     session_id := session_id h; _active := _active h;
     _message_queue := _message_queue h; _tasks := _tasks h |}.

Definition set_conn (c : Stream.Conn) (h : WSMessageHandler) :=
  {| websocket := Stream.websocket c; pending := Stream.pending c;
     stream := Some (Stream.stream c);
     session_id := session_id h; _active := _active h;
     _message_queue := _message_queue h; _tasks := _tasks h |}.

Definition set_active (b : bool) (h : WSMessageHandler) :=
  {| websocket := websocket h; pending := pending h; stream := stream h;
     session_id := session_id h; _active := b;
     _message_queue := _message_queue h; _tasks := _tasks h |}.

Definition set_message_queue (q : list json) (h : WSMessageHandler) :=
  {| websocket := websocket h; pending := pending h; stream := stream h;
     session_id := session_id h; _active := _active h;
     _message_queue := q; _tasks := _tasks h |}.

Definition set_tasks (t : list task) (h : WSMessageHandler) :=
  {| websocket := websocket h; pending := pending h; stream := stream h;
     session_id := session_id h; _active := _active h;
     _message_queue := _message_queue h; _tasks := t |}.

(** The stream of the handler with its WebSocket. *)
Definition conn_of (self : Stream.AudioStream) (h : WSMessageHandler)
  : Stream.Conn :=
  {| Stream.stream := self; Stream.websocket := websocket h;
     Stream.pending := pending h |}.

(** Coroutines of the handler: they change the handler and return or
    raise. *)
Definition M (A : Type) : Type := WSMessageHandler -> result A * WSMessageHandler.

Definition ret {A} (a : A) : M A := fun h => (Ok a, h).

Definition raise {A} (e : exn) : M A := fun h => (Raise e, h).

Definition bind {A B} (m : M A) (k : A -> M B) : M B :=
  fun h =>
    match m h with
    | (Ok a, h) => k a h
    | (Raise e, h) => (Raise e, h)
    end.

(** [try: m  except Exception as e: handler e] *)
Definition try_except {A} (m : M A) (handler : exn -> M A) : M A :=
  fun h =>
    match m h with
    | (Ok a, h) => (Ok a, h)
    | (Raise e, h) => if is_Exception e then handler e h else (Raise e, h)
    end.

Definition lift {A} (r : result A) : M A := fun h => (r, h).

Notation "'do!' x <- m ; k" := (bind m (fun x => k))
  (at level 10, x name, m at level 100, k at level 200).
Notation "m ;; k" := (bind m (fun _ => k))
  (at level 100, right associativity).

(** [WSMessageHandler(websocket)] *)
Definition new (websocket : WebSocket) (schedule : list env_event)
    (g : Globals) : WSMessageHandler * Globals :=
  let '(id, g) := uuid4 g in
  ({| websocket := websocket; pending := schedule; stream := None;
      session_id := id; _active := true; _message_queue := [];
      _tasks := [] |}, g).

Definition initialize (g : Globals) (h : WSMessageHandler)
  : result unit * Globals * WSMessageHandler :=
  match StreamManager.create_stream (websocket h) g with
  | (Ok stream, ws, g) =>
      (Ok tt, g,
       set_tasks (_tasks h ++ [ProcessMessages; Keepalive])
         (set_conn (conn_of stream (set_websocket ws h)) h))
  | (Raise e, ws, g) =>
      if is_Exception e
      then (Raise (WebSocketError "WebSocket initialization failed"), g,
            set_websocket ws h)
      else (Raise e, g, set_websocket ws h)
  end.

Definition send_json (f : frame) : M unit :=
  fun h =>
    let '(r, ws) := ws_send f (websocket h) in
    (r, set_websocket ws h).

Definition _send_error (message : string) : M unit :=
  try_except (send_json (error_frame message)) (fun e => ret tt).

Definition _send_success (message : string) : M unit :=
  try_except (send_json (success_frame message)) (fun e => ret tt).

(** [await self.stream.close()] *)
Definition close_stream (self : Stream.AudioStream) : M unit :=
  fun h => (Ok tt, set_conn (Stream.close_conn (conn_of self h)) h).

Definition _handle_stop : M unit :=
  try_except
    (do! stream <- (fun h => (Ok (stream h), h));
     match stream with
     | Some self => close_stream self
     | None => ret tt
     end ;;
     _send_success "Streaming stopped")
    (fun e => _send_error "Failed to stop streaming").

Definition _handle_configure (message : json) : M unit :=
  try_except
    (_send_success "Configuration updated")
    (fun e => _send_error "Failed to update configuration").

Section WithModel.
Context {T : Type} {NP : NpScalar T}.
Variable tts_model : TTSModel T.
(** [float(s)] on a string, the part of [float] that parses text. *)
Variable float_of_string : string -> option Q.

(** [float(v)] *)
Definition py_float (v : json) : result Q :=
  match v with
  | JInt z => Ok (inject_Z z)
  | JFloat q => Ok q
  | JBool b => Ok (if b then 1%Q else 0%Q)
  | JStr s =>
      match float_of_string s with
      | Some q => Ok q
      | None => Raise (ValueError "could not convert string to float")
      end
  | _ => Raise (TypeError "float() argument must be a string or a real number")
  end.

(** [asyncio.create_task(self.stream.stream_audio(...))], the task appended
    to [_tasks], and [await synthesis_task]: the consumer is suspended until
    the task has ended, and gets its exception if it raised. *)
Definition run_synthesis_task (self : Stream.AudioStream)
    (text voice : json) (speed : Q) : M unit :=
  fun h =>
    let h := set_tasks (_tasks h ++ [Synthesis text voice speed]) h in
    let '(r, c) := Stream.stream_audio tts_model text voice speed (conn_of self h) in
    (r, set_conn c h).

(** [_handle_synthesis] up to [asyncio.create_task]: the arguments of the
    streaming call, or [None] when the handler has returned early. *)
Definition synthesis_arguments (message : json)
  : M (option (Stream.AudioStream * json * json * Q)) :=
  do! stream <- (fun h => (Ok (stream h), h));
  match stream with
  | None => raise (WebSocketError "Stream not initialized")
  | Some self =>
      do! text <- lift (dict_get message "text" JNull);
      if negb (py_truthy text)
      then (_send_error "No text provided" ;; ret None)
      else
        do! voice <- lift (dict_get message "voice" (JStr "default"));
        do! speed <- lift (dict_get message "speed" (JFloat 1));
        do! speed <- lift (py_float speed);
        ret (Some (self, text, voice, speed))
  end.

(** A message that makes [_handle_message] create a synthesis task: the
    handler as [_handle_synthesis] has left it before [create_task], and the
    arguments of the streaming call. *)
Definition synthesis_request (message : json) (h : WSMessageHandler)
  : option (WSMessageHandler * (json * json * Q)) :=
  match dict_get message "type" JNull with
  | Ok message_type =>
      if json_eq_str message_type "synthesize"
      then
        match synthesis_arguments message h with
        | (Ok (Some (_, text, voice, speed)), h) => Some (h, (text, voice, speed))
        | _ => None
        end
      else None
  | Raise _ => None
  end.

Definition _handle_synthesis (message : json) : M unit :=
  try_except
    (do! arguments <- synthesis_arguments message;
     match arguments with
     | None => ret tt
     | Some (self, text, voice, speed) =>
         run_synthesis_task self text voice speed
     end)
    (fun e => _send_error "Synthesis failed").

Definition _handle_message (message : json) : M unit :=
  try_except
    (do! message_type <- lift (dict_get message "type" JNull);
     if json_eq_str message_type "synthesize" then _handle_synthesis message
     else if json_eq_str message_type "pong" then ret tt
     else if json_eq_str message_type "stop" then _handle_stop
     else if json_eq_str message_type "configure" then _handle_configure message
     else _send_error "Unknown message type")
    (fun e => _send_error (str_exn e)).

(** [_process_messages] on the messages that are in the queue: each one is
    taken and handled in turn while the handler is active; an exception of
    the handling is logged and the loop goes on.  With the queue empty the
    task waits in [get]. *)
Fixpoint drain (queue : list json) (h : WSMessageHandler) : WSMessageHandler :=
  if negb (_active h) then h
  else
    match queue with
    | [] => h
    | message :: rest =>
        match _handle_message message (set_message_queue rest h) with
        | (Raise CancelledError, h) => h
        | (_, h) => drain rest h
        end
    end.

Definition _process_messages (h : WSMessageHandler) : WSMessageHandler :=
  drain (_message_queue h) h.

End WithModel.

Definition handle_incoming_message (message : json) : M unit :=
  fun h => (Ok tt, set_message_queue (_message_queue h ++ [message]) h).

(** The part of [cleanup] that concerns the handler itself: the flag is
    cleared, the tasks are cancelled and the stream is closed. *)
Definition cleanup_session (h : WSMessageHandler) : WSMessageHandler :=
  let h := set_active false h in
  match stream h with
  | Some self => snd (close_stream self h)
  | None => h
  end.

(** [cleanup]: after the above, the handler is removed from [ws_manager]
    under its own [session_id]. *)
Definition cleanup (g : Globals) (h : WSMessageHandler)
  : Globals * WSMessageHandler :=
  let h := cleanup_session h in
  (WebSocketManager.disconnect (session_id h) g, h).

(** What [websocket.receive_json()] gives in one turn of the endpoint's
    loop: a decoded frame, or the exception it raises, in the three classes
    the loop's [except] clauses tell apart.  [ReceivedInvalidJSON] is
    [json.JSONDecodeError] and nothing else: the text of the frame is not
    JSON.  [ReceivedDisconnect] is [WebSocketDisconnect].  [ReceivedError e]
    is every other exception [e].  Among these are the other failures of
    the decoding: [json.loads] raises [RecursionError] (a [RuntimeError])
    on a frame nested too deeply and [ValueError] on an integer literal of
    more digits than the interpreter converts, and a frame of bytes where
    text is expected raises as well; none of them is a
    [JSONDecodeError]. *)
Inductive received : Type :=
| Received (message : json)
| ReceivedInvalidJSON
| ReceivedDisconnect
| ReceivedError (e : exn).

(** One turn of the [while True] loop of [websocket_endpoint_handler];
    [None] when the loop is left by [break]. *)
Definition receive_turn (fr : received) (h : WSMessageHandler)
  : option WSMessageHandler :=
  match fr with
  | Received message => Some (snd (handle_incoming_message message h))
  | ReceivedInvalidJSON => Some (snd (_send_error "Invalid JSON message" h))
  | ReceivedDisconnect => None
  | ReceivedError _ => None
  end.

(** The loop over the frames the client sends.  With no frame left the loop
    waits in [receive_json]. *)
Fixpoint receive_loop (frames : list received) (h : WSMessageHandler)
  : WSMessageHandler :=
  match frames with
  | [] => h
  | fr :: rest =>
      match receive_turn fr h with
      | Some h => receive_loop rest h
      | None => h
      end
  end.


(** The first statements of [websocket_endpoint_handler], up to its receive
    loop: the handler is built and initialised.  An exception of
    [initialize] is logged and the endpoint goes to its [finally]. *)
Definition websocket_endpoint_open (websocket : WebSocket)
    (schedule : list env_event) (g : Globals)
  : result unit * Globals * WSMessageHandler :=
  let '(h, g) := new websocket schedule g in
  initialize g h.

End Handler.

(** ** The tasks of one session, interleaved

    The event loop runs one task at a time and switches between tasks only
    where a task is suspended.  A step of [step] is what one task does
    between two suspensions.  The tasks are: the endpoint's receive loop,
    the consumer [_process_messages], the keepalive, and the synthesis tasks
    the consumer creates, which are kept in creation order. *)
Module Sched.
Import Handler.

Inductive consumer_pc : Type :=
| Waiting
| Awaiting (task : nat)
| Stopped.

(** Where a synthesis task stands in [stream_audio]: before the lock, under
    the lock before the generator's first step, in the loop with the chunks
    still to come, or ended with its result. *)
Inductive synth_pc : Type :=
| AtLock (text voice : json) (speed : Q)
| AtGenerator (text voice : json) (speed : Q)
| InLoop (chunks : list bytes)
| Ended (r : result unit).

(** [trace] lists the frames sent with the task that sent each one:
    [Some i] is the synthesis task created [i]-th. *)
Record state : Type := {
  handler : WSMessageHandler;
  consumer : consumer_pc;
  synth : list synth_pc;
  _lock : option nat;
  trace : list (option nat * frame);
}.

Definition initial (h : WSMessageHandler) : state :=
  {| handler := h; consumer := Waiting; synth := []; _lock := None;
     trace := map (pair None) (sent (websocket h)) |}.

Definition emitted (h h' : WSMessageHandler) : list frame :=
  skipn (length (sent (websocket h))) (sent (websocket h')).

(** The handler becomes [h'] by an action of [who]. *)
Definition by_ (who : option nat) (h' : WSMessageHandler) (s : state) : state :=
  {| handler := h'; consumer := consumer s; synth := synth s;
     _lock := _lock s;
     trace := trace s ++ map (pair who) (emitted (handler s) h') |}.

Definition set_consumer (c : consumer_pc) (s : state) : state :=
  {| handler := handler s; consumer := c; synth := synth s;
     _lock := _lock s; trace := trace s |}.

Definition set_synth (l : list synth_pc) (s : state) : state :=
  {| handler := handler s; consumer := consumer s; synth := l;
     _lock := _lock s; trace := trace s |}.

Definition set_lock (l : option nat) (s : state) : state :=
  {| handler := handler s; consumer := consumer s; synth := synth s;
     _lock := l; trace := trace s |}.

(** Task [i] leaves [stream_audio] with [r]; the lock is released. *)
Definition finish (i : nat) (r : result unit) (s : state) : state :=
  set_lock None (set_synth (<[i := Ended r]> (synth s)) s).

(** The [except] clause of [stream_audio]. *)
Definition fail (i : nat) (e : exn) (self : Stream.AudioStream) (s : state)
  : state :=
  if is_Exception e
  then finish i (Raise (WebSocketError "Audio streaming failed"))
         (by_ (Some i) (snd (close_stream self (handler s))) s)
  else finish i (Raise e) s.

Definition task_send (f : frame) (self : Stream.AudioStream)
    (h : WSMessageHandler) : result unit * WSMessageHandler :=
  let '(r, c) := Stream.send f (conn_of self h) in
  (r, set_conn c h).

Definition cancel_task (pc : synth_pc) : synth_pc :=
  match pc with
  | Ended r => Ended r
  | _ => Ended (Raise CancelledError)
  end.

Definition cleanup_step (s : state) : state :=
  set_consumer Stopped
    (set_lock None
       (set_synth (map cancel_task (synth s))
          (by_ None (cleanup_session (handler s)) s))).

Section WithModel.
Context {T : Type} {NP : NpScalar T}.
Variable tts_model : TTSModel T.
Variable float_of_string : string -> option Q.

(** The next step of synthesis task [i], which stands at [pc]; [None] when
    the task cannot run (it waits for the lock, or it has ended). *)
Definition task_step (i : nat) (pc : synth_pc) (s : state) : option state :=
  match stream (handler s) with
  | None => None
  | Some self =>
      match pc with
      | AtLock text voice speed =>
          match _lock s with
          | None =>
              Some (set_lock (Some i)
                      (set_synth (<[i := AtGenerator text voice speed]> (synth s)) s))
          | Some _ => None
          end
      | AtGenerator text voice speed =>
          match generate_speech_stream tts_model text voice speed "en"
                  (Some (Stream.chunk_size (Stream.config self))) with
          | Ok chunks => Some (set_synth (<[i := InLoop chunks]> (synth s)) s)
          | Raise e => Some (fail i e self s)
          end
      | InLoop (chunk :: rest) =>
          if negb (Stream._active self) then Some (finish i (Ok tt) s)
          else
            match task_send (Binary chunk) self (handler s) with
            | (Ok _, h) =>
                Some (set_synth (<[i := InLoop rest]> (synth s)) (by_ (Some i) h s))
            | (Raise e, h) =>
                match stream h with
                | Some self => Some (fail i e self (by_ (Some i) h s))
                | None => None
                end
            end
      | InLoop [] =>
          if Stream._active self
          then
            match task_send end_frame self (handler s) with
            | (Ok _, h) => Some (finish i (Ok tt) (by_ (Some i) h s))
            | (Raise e, h) =>
                match stream h with
                | Some self => Some (fail i e self (by_ (Some i) h s))
                | None => None
                end
            end
          else Some (finish i (Ok tt) s)
      | Ended _ => None
      end
  end.

(** The next step of the consumer: it takes a message and handles it up to
    the next suspension, or it resumes after [await synthesis_task]. *)
Definition consumer_step (s : state) : option state :=
  let h := handler s in
  match consumer s with
  | Stopped => None
  | Waiting =>
      if negb (_active h) then Some (set_consumer Stopped s)
      else
        match _message_queue h with
        | [] => None
        | message :: rest =>
            let h := set_message_queue rest h in
            match synthesis_request float_of_string message h with
            | Some (h, (text, voice, speed)) =>
                let h := set_tasks (_tasks h ++ [Synthesis text voice speed]) h in
                Some (set_consumer (Awaiting (length (synth s)))
                        (set_synth (synth s ++ [AtLock text voice speed])
                           (by_ None h s)))
            | None =>
                match _handle_message tts_model float_of_string message h with
                | (Raise CancelledError, h) => Some (set_consumer Stopped (by_ None h s))
                | (_, h) => Some (by_ None h s)
                end
            end
        end
  | Awaiting i =>
      match synth s !! i with
      | Some (Ended (Ok _)) => Some (set_consumer Waiting s)
      | Some (Ended (Raise e)) =>
          if is_Exception e
          then Some (set_consumer Waiting
                       (by_ None (snd (_send_error "Synthesis failed" h)) s))
          else Some (set_consumer Stopped s)
      | _ => None
      end
  end.

(** One turn of the endpoint's receive loop; when the loop is left the
    endpoint runs [cleanup]. *)
Definition receive_step (fr : received) (s : state) : state :=
  match receive_turn fr (handler s) with
  | Some h => by_ None h s
  | None => cleanup_step s
  end.

(** One turn of [_handle_keepalive]. *)
Definition keepalive_step (s : state) : state :=
  if _active (handler s)
  then
    match send_json ping_frame (handler s) with
    | (Ok _, h) => by_ None h s
    | (Raise _, h) => cleanup_step (by_ None h s)
    end
  else s.

(** The stream's own keepalive closes the stream, or the peer goes away. *)
Definition env_step (ev : env_event) (s : state) : state :=
  match stream (handler s) with
  | Some self =>
      let '(self, ws) := Stream.interfere ev self (websocket (handler s)) in
      by_ None (set_conn {| Stream.stream := self; Stream.websocket := ws;
                            Stream.pending := pending (handler s) |} (handler s)) s
  | None => s
  end.

(** What the event loop may run next: a synthesis task, the consumer, one
    turn of the receive loop on the frame that has arrived, one turn of the
    keepalive, something outside the handler, or the endpoint's
    [cleanup]. *)
Inductive action : Type :=
| RunTask (i : nat)
| RunConsumer
| Receive (fr : received)
| RunKeepalive
| Outside (ev : env_event)
| Cleanup.

(** The state after the action, or [None] when the task cannot run. *)
Definition perform (a : action) (s : state) : option state :=
  match a with
  | RunTask i =>
      match synth s !! i with
      | Some pc => task_step i pc s
      | None => None
      end
  | RunConsumer => consumer_step s
  | Receive fr => Some (receive_step fr s)
  | RunKeepalive => Some (keepalive_step s)
  | Outside ev => Some (env_step ev s)
  | Cleanup => Some (cleanup_step s)
  end.

(** The actions of a schedule in turn; an action that cannot run is
    skipped. *)
Fixpoint run (schedule : list action) (s : state) : state :=
  match schedule with
  | [] => s
  | a :: rest =>
      match perform a s with
      | Some s' => run rest s'
      | None => run rest s
      end
  end.

Inductive reachable (h0 : WSMessageHandler) : state -> Prop :=
| reachable_initial : reachable h0 (initial h0)
| reachable_step a s s' :
    reachable h0 s -> perform a s = Some s' -> reachable h0 s'.

End WithModel.

(** The synthesis calls that sent the audio frames, in the order of the
    frames on the transport. *)
Definition audio_calls (s : state) : list nat :=
  flat_map (fun p => if is_audio (snd p)
                     then match fst p with Some i => [i] | None => [] end
                     else [])
           (trace s).

Definition ended (pc : synth_pc) : Prop :=
  match pc with
  | Ended _ => True
  | _ => False
  end.

End Sched.

(** ** Definitions used to state the properties *)

(** A window of [n] samples at offset [i], padded with zeros to [n]. *)
Definition window (n : nat) (wav : list Z) (i : nat) : list Z :=
  let chunk := firstn n (skipn i wav) in
  chunk ++ repeat 0 (n - length chunk).

(** ** Sample inputs *)

(** Settings with two samples per chunk and room for two connections. *)
Definition sample_settings : Settings :=
  {| SAMPLE_RATE := 24000; NUM_CHANNELS := 1; CHUNK_SIZE := 2;
     MAX_CONNECTIONS := 2 |}.

(** An initialised model whose engine returns the three float32 samples
    0.5, -0.5 and 0.25 for every request, and one whose engine fails. *)
Definition f32_half : spec_float := S754_finite false 8388608 (-24).
Definition f32_quarter : spec_float := S754_finite false 8388608 (-25).

Definition sample_wav : list spec_float :=
  [f32_half; SFopp f32_half; f32_quarter].

Definition sample_model : TTSModel spec_float :=
  {| _initialized := true; _stream_chunk_size := 4096;
     _model_tts := fun _ => Ok sample_wav |}.

Definition failing_model : TTSModel spec_float :=
  {| _initialized := true; _stream_chunk_size := 4096;
     _model_tts := fun _ => Raise (RuntimeError "CUDA out of memory") |}.

Section AudioSpec.
Context {T : Type} {NP : NpScalar T}.

(** The array as [array_to_wav_bytes] sees it after its dtype test. *)
Definition float32_samples (a : ndarray T) : list T :=
  match dtype a with
  | np_float32 => data a
  | _ => map to_float32 (data a)
  end.

(** The 16-bit quantisation of a sample, and the sample a 16-bit value is
    read back as. *)
Definition quantise (x : T) : Z := astype_int16 (fmul x (of_Z 32767)).

Definition dequantise (z : Z) : T := fdiv (to_float32 (of_Z z)) (of_Z 32767).

End AudioSpec.

(** The configuration of the module-level [audio_processor] under the
    default settings, and a one-sample array. *)
Definition sample_config : AudioConfig := AudioConfig_default default_settings.

Definition sample_array : ndarray spec_float :=
  {| dtype := np_float32; data := sample_wav |}.

Definition empty_array : ndarray spec_float :=
  {| dtype := np_float32; data := [] |}.

(** ** Laws of the scalars

    What the bound on [normalize_audio] uses of the arithmetic.  [finite]
    are the values that are neither NaN nor infinite.  On them [fgt] is the
    strict part of a total order, and dividing a value by a positive value
    of at least its magnitude gives a finite value of magnitude at most 1
    (a quotient in [-1, 1] stays there when it is rounded).  The binary32
    arithmetic of [binary32_scalar] satisfies the laws, with [f32_finite]
    as its finite values. *)
Class NpLaws (T : Type) {NP : NpScalar T} : Type := {
  finite : T -> Prop;
  finite_not_nan : forall x, finite x -> isnan x = false;
  finite_fabs : forall x, finite x -> finite (fabs x);
  fgt_irrefl : forall x, fgt x x = false;
  fgt_asym : forall x y, fgt x y = true -> fgt y x = false;
  fle_trans : forall x y z,
    finite y -> fgt x y = false -> fgt y z = false -> fgt x z = false;
  fdiv_unit_bound : forall x m,
    finite x -> finite m -> fgt m (of_Z 0) = true ->
    fgt (fabs x) m = false ->
    finite (fdiv x m) /\ fgt (fabs (fdiv x m)) (of_Z 1) = false;
}.

(** The binary32 values that are neither NaN nor infinite, as the
    operations return them: a zero, or a mantissa of at most 24 bits at its
    canonical exponent, which is at least -149 and at most 104. *)
Definition f32_finite (x : spec_float) : Prop :=
  match x with
  | S754_zero _ => True
  | S754_finite _ m e => bounded 24 128 m e = true
  | _ => False
  end.

(** 1.0 and 32767.0 in binary32. *)
Definition f32_one : spec_float := S754_finite false 8388608 (-23).

Definition f32_32767 : spec_float := S754_finite false 16776704 (-9).

(** The float32 value nearest to -32768/32767, about -1.0000305, which is
    what the most negative 16-bit sample is read back as. *)
Definition f32_lowest : spec_float := S754_finite true 8388864 (-23).

(** [f32_finite] as a test, and the test that a value is finite and lies
    between [f32_lowest] and 1. *)
Definition f32_finiteb (x : spec_float) : bool :=
  match x with
  | S754_zero _ => true
  | S754_finite _ m e => bounded 24 128 m e
  | _ => false
  end.

Definition read_back_range (x : spec_float) : bool :=
  f32_finiteb x && negb (SFltb f32_one x) && negb (SFltb x f32_lowest).

(** The [n] integers from [z] on. *)
Fixpoint consecutive (n : nat) (z : Z) : list Z :=
  match n with
  | O => []
  | S n => z :: consecutive n (z + 1)
  end.

(** *** IEEE rounding

    What the proofs read off the rounding of [SpecFloat]: [shr_1] drops one
    bit of the mantissa and remembers in [shr_r] and [shr_s] whether a
    nonzero bit was dropped ([sticky]); [b] is [a] [shifted] by [n] bits;
    [shift_count m e] is the number of bits [shr_fexp] drops from the
    mantissa [m] at exponent [e]; and [m] at [e] is [canonical] when no
    bit has to be dropped or added. *)
Definition sticky (mrs : shr_record) : bool := shr_r mrs || shr_s mrs.

Definition shifted (a b : shr_record) (n : Z) : Prop :=
  shr_m b = shr_m a / 2 ^ n
  /\ sticky b = negb (shr_m a mod 2 ^ n =? 0) || sticky a.

Definition inexact (l : location) : bool :=
  match l with
  | loc_Exact => false
  | loc_Inexact _ => true
  end.

Definition shift_count (m e : Z) : Z :=
  Z.max 0 (fexp 24 128 (Zdigits2 m + e) - e).

Definition canonical (m e : Z) : Prop := fexp 24 128 (Zdigits2 m + e) = e.

(** No other task closes the stream and the peer stays during the next [n]
    suspensions. *)
Definition calm (n : nat) (schedule : list env_event) : Prop :=
  Forall (fun ev => ev = EnvNone) (firstn n schedule).

(** A connection as [StreamManager.create_stream] leaves it: accepted, the stream
    active, nothing sent, and no other task interfering. *)
Definition open_conn : Stream.Conn :=
  {| Stream.stream :=
       Stream.set_ping_task (Some TaskRunning) (Stream.new sample_settings 0);
     Stream.websocket :=
       {| application_state := CONNECTED; client_gone := false; sent := [] |};
     Stream.pending := [] |}.

(** The chunks the sample model yields under the sample settings. *)
Definition sample_chunks : list bytes :=
  [tobytes [16383; -16383]; tobytes [8191; 0]].

(** The handler after frame [f] has gone out to the client, nothing else
    changed. *)
Definition reply (f : frame) (h : Handler.WSMessageHandler)
  : Handler.WSMessageHandler :=
  Handler.set_websocket (push_frame f (Handler.websocket h)) h.

(** [message.get("type")] of a decoded object, and whether
    [_handle_message] has a branch for it. *)
Definition message_type (fields : list (string * json)) : json :=
  match assoc "type" fields with
  | Some v => v
  | None => JNull
  end.




(** A WebSocket as the server hands it to the endpoint. *)
Definition fresh_websocket : WebSocket :=
  {| application_state := CONNECTING; client_gone := false; sent := [] |}.

(** [n] clients connect to the endpoint one after the other, each on a
    fresh WebSocket. *)
Fixpoint open_endpoints (n : nat) (g : Globals) : Globals :=
  match n with
  | O => g
  | S n =>
      let g := open_endpoints n g in
      snd (fst (Handler.websocket_endpoint_open fresh_websocket [] g))
  end.

(** Admissions and removals through [ws_manager]. *)
Inductive registry_call : Type :=
| Connect (websocket : WebSocket)
| Disconnect (session_id : nat).

Definition registry_step (g : Globals) (call : registry_call) : Globals :=
  match call with
  | Connect websocket => snd (WebSocketManager.connect websocket g)
  | Disconnect session_id => WebSocketManager.disconnect session_id g
  end.

(** Calls of [connect] that overlap.  The event loop starts a call, which
    runs up to its suspension in the handshake, or it resumes the [k]-th of
    the suspended calls, which then runs to its end. *)
Inductive connect_event : Type :=
| ConnectBegins (websocket : WebSocket)
| ConnectResumes (k : nat).

Record connecting : Type := {
  registry : Globals;
  suspended : list (Stream.AudioStream * WebSocket);
}.

Definition connect_step (s : connecting) (ev : connect_event) : connecting :=
  match ev with
  | ConnectBegins websocket =>
      match WebSocketManager.connect_begin websocket (registry s) with
      | (Ok stream, g) =>
          {| registry := g; suspended := suspended s ++ [(stream, websocket)] |}
      | (Raise _, g) => {| registry := g; suspended := suspended s |}
      end
  | ConnectResumes k =>
      match suspended s !! k with
      | Some (stream, websocket) =>
          {| registry :=
               snd (WebSocketManager.connect_resume stream websocket
                      (registry s));
             suspended := delete k (suspended s) |}
      | None => s
      end
  end.

(** No call of [connect] is under way. *)
Definition quiescent (g : Globals) : connecting :=
  {| registry := g; suspended := [] |}.

(** [n] clients connect at the same time: every call starts before any of
    them resumes. *)
Definition overlapping_connects (n : nat) : list connect_event :=
  repeat (ConnectBegins fresh_websocket) n ++ repeat (ConnectResumes 0) n.

(** Every registered stream was created with an identifier drawn earlier. *)
Definition ids_drawn (g : Globals) : Prop :=
  forall k : nat, is_Some (_streams g !! k) -> (k < uuid g)%nat.

(** The handler of the sample session: initialised on an accepted
    transport, with nothing queued. *)
Definition sample_handler : Handler.WSMessageHandler :=
  {| Handler.websocket := Stream.websocket open_conn;
     Handler.pending := [];
     Handler.stream := Some (Stream.stream open_conn);
     Handler.session_id := 1%nat;
     Handler._active := true;
     Handler._message_queue := [];
     Handler._tasks := [Handler.ProcessMessages; Handler.Keepalive] |}.

Definition synthesize_hello : json :=
  JObj [("type", JStr "synthesize"); ("text", JStr "hello");
        ("voice", JStr "default"); ("speed", JFloat 1)].

Definition stop_message : json := JObj [("type", JStr "stop")].




(** A [float] that parses no string. *)
Definition no_float_of_string : string -> option Q := fun _ => None.

(** ** The invariant of the interleaved session *)

Definition no_audio (fs : list frame) : Prop :=
  Forall (fun f => is_audio f = false) fs.

(** [h'] has sent what [h] had sent, and after it frames that are not
    audio. *)
Definition extends_quietly (h h' : Handler.WSMessageHandler) : Prop :=
  exists fs,
    sent (Handler.websocket h') = sent (Handler.websocket h) ++ fs
    /\ no_audio fs.

(** A coroutine of the handler that sends no audio. *)
Definition quietM {A} (m : Handler.M A) : Prop :=
  forall h r h', m h = (r, h') -> extends_quietly h h'.

(** The trace is what the transport has sent; every audio frame was sent by
    a synthesis task; the tasks named in the trace exist; the calls of the
    audio frames are in creation order; and a synthesis task that has not
    ended is the last one created and the one the consumer awaits. *)
Record session_invariant (s : Sched.state) : Prop := {
  inv_trace :
    map snd (Sched.trace s) = sent (Handler.websocket (Sched.handler s));
  inv_audio :
    Forall (fun p => is_audio (snd p) = true -> is_Some (fst p)) (Sched.trace s);
  inv_calls :
    Forall (fun p => forall i, fst p = Some i -> (i < length (Sched.synth s))%nat)
           (Sched.trace s);
  inv_sorted : StronglySorted le (Sched.audio_calls s);
  inv_running :
    forall i pc, Sched.synth s !! i = Some pc -> ~ Sched.ended pc ->
      Sched.consumer s = Sched.Awaiting i /\ S i = length (Sched.synth s);
}.

(** A session with two synthesis requests queued, and a schedule that lets
    every task run. *)
Definition two_requests : Handler.WSMessageHandler :=
  Handler.set_message_queue [synthesize_hello; synthesize_hello] sample_handler.

Definition sample_schedule : list Sched.action :=
  [Sched.RunConsumer; Sched.RunTask 0; Sched.RunTask 0; Sched.RunTask 0;
   Sched.RunConsumer; Sched.RunTask 1; Sched.RunKeepalive; Sched.RunTask 0;
   Sched.RunTask 0; Sched.RunConsumer; Sched.RunConsumer; Sched.RunTask 1;
   Sched.RunTask 1; Sched.RunTask 1; Sched.RunTask 1; Sched.RunTask 1;
   Sched.RunConsumer]%nat.

(** ** Failures of the conversions *)

(** A computation that raises nothing outside [Exception]: whatever it
    raises, an [except Exception] clause catches. *)
Definition raises_Exception {A} (r : result A) : Prop :=
  forall e : exn, r = Raise e -> is_Exception e = true.

(** A float32 array with the samples 1.5 and -0.5, and a mono 16-bit file
    that holds the two extreme 16-bit values. *)
Definition loud_array : ndarray spec_float :=
  {| dtype := np_float32;
     data := [S754_finite false 12582912 (-23); SFopp f32_half] |}.

Definition extreme_wav_file : bytes :=
  match wave_write 1 2 24000 (tobytes [-32768; 32767]) with
  | Ok file => file
  | Raise _ => []
  end.

(** The array that file is read back as: the float32 values nearest to
    -32768/32767 and 1. *)
Definition extreme_array : ndarray spec_float :=
  {| dtype := np_float32;
     data := [S754_finite true 8388864 (-23); S754_finite false 8388608 (-23)] |}.

(** The files the module-level [audio_processor] writes for the sample
    array and for the loud one. *)
Definition sample_wav_bytes : bytes :=
  match array_to_wav_bytes sample_config sample_array with
  | Ok wav_bytes => wav_bytes
  | Raise _ => []
  end.

Definition loud_wav_bytes : bytes :=
  match array_to_wav_bytes sample_config loud_array with
  | Ok wav_bytes => wav_bytes
  | Raise _ => []
  end.

(** A model whose own chunk size is 0. *)
Definition unsized_model : TTSModel spec_float :=
  {| _initialized := true; _stream_chunk_size := 0;
     _model_tts := fun _ => Ok sample_wav |}.

(** ** The registries *)

(** Every identifier under which a stream or a connection is registered was
    drawn earlier, so the next identifier drawn is in neither registry. *)
Definition registry_ids_drawn (g : Globals) : Prop :=
  ids_drawn g
  /\ forall k : nat, is_Some (_active_connections g !! k) -> (k < uuid g)%nat.

(** [n] clients connect to the endpoint and leave again, one after the
    other: each session is opened on a fresh WebSocket and ended by the
    endpoint's [cleanup]. *)
Fixpoint ended_sessions (n : nat) (g : Globals) : Globals :=
  match n with
  | O => g
  | S n =>
      let g := ended_sessions n g in
      let '(_, g, h) := Handler.websocket_endpoint_open fresh_websocket [] g in
      fst (Handler.cleanup g h)
  end.

(** A WebSocket whose client has gone away before the handshake. *)
Definition abandoned_websocket : WebSocket :=
  {| application_state := CONNECTING; client_gone := true; sent := [] |}.

(** ** Messages and sessions *)

(** [message.get(key, default)] of a decoded object. *)
Definition get_field (fields : list (string * json)) (key : string)
    (default : json) : json :=
  match assoc key fields with
  | Some v => v
  | None => default
  end.

(** A session after its teardown: the handler's flag is cleared, the
    transport is disconnected, the consumer has stopped and every synthesis
    task has ended. *)
Definition torn_down (s : Sched.state) : Prop :=
  Handler._active (Sched.handler s) = false
  /\ application_state (Handler.websocket (Sched.handler s)) = DISCONNECTED
  /\ Sched.consumer s = Sched.Stopped
  /\ Forall Sched.ended (Sched.synth s).

(** Requests without a text, and with a speed that is no number. *)
Definition synthesize_nothing : json :=
  JObj [("type", JStr "synthesize"); ("text", JStr "")].

Definition synthesize_fast : json :=
  JObj [("type", JStr "synthesize"); ("text", JStr "hello");
        ("speed", JStr "fast")].

(** The sample session after its peer has gone away. *)
Definition deserted_handler : Handler.WSMessageHandler :=
  Handler.set_websocket (set_client_gone (Handler.websocket sample_handler))
    sample_handler.

(** A schedule that keeps every task of a session busy after its
    teardown. *)
Definition late_schedule : list Sched.action :=
  [Sched.Receive Handler.ReceivedInvalidJSON; Sched.RunKeepalive;
   Sched.Receive (Handler.Received synthesize_hello); Sched.RunConsumer;
   Sched.RunTask 0; Sched.Outside EnvPeerGone; Sched.Cleanup]%nat.

(** ** The HTTP route: [src/api/routes.py] *)

(** [raise TTSError("Audio streaming failed", details=...)].  The base
    class takes [code] and [message] as its first two parameters, both
    required; the call gives one positional argument, so building the
    exception raises [TypeError], and that is what the statement raises. *)
Definition TTSError_without_message : exn :=
  TypeError "__init__() missing 1 required positional argument: 'message'".

Section Routes.
Context {T : Type} {NP : NpScalar T}.

(** [np.array(audio_array)], where [engine_dtype] is the dtype of the
    waveform the engine has returned. *)
Definition np_array (engine_dtype : np_dtype) (audio_array : list T)
  : ndarray T :=
  {| dtype := engine_dtype; data := audio_array |}.

(** The generator behind the [/synthesize] route, as the list of the chunks
    it yields; [config] is the configuration of the module-level
    [audio_processor].  The file is built in full before the first
    [yield], so the generator either raises at its first step or yields
    every chunk. *)
Definition generate_audio_chunks (config : AudioConfig)
    (engine_dtype : np_dtype) (tts : TTSModel T)
    (text voice : json) (speed : Q) (chunk_size : Z) : result (list bytes) :=
  except_Exception
    (do audio_array <- generate_speech tts text voice speed "en";
     do wav_bytes <-
       array_to_wav_bytes config (np_array engine_dtype audio_array);
     do indices <- py_range0 (len wav_bytes) chunk_size;
     Ok (map (fun i => py_slice wav_bytes i (i + chunk_size)) indices))%result
    (fun e => Raise TTSError_without_message).

End Routes.

(** A model whose engine returns an empty waveform. *)
Definition silent_model : TTSModel spec_float :=
  {| _initialized := true; _stream_chunk_size := 4096;
     _model_tts := fun _ => Ok [] |}.

(** ** [WebSocketManager.broadcast] and the shutdown of [lifespan] *)

(** The WebSocket registered under [session_id] is one object, to which its
    stream refers as well: what a send does to it shows in both
    registries. *)
Definition store_websocket (session_id : nat) (ws : WebSocket) (g : Globals)
  : Globals :=
  set_streams
    (match _streams g !! session_id with
     | Some (stream, _) => <[session_id := (stream, ws)]> (_streams g)
     | None => _streams g
     end)
    (set_active_connections (<[session_id := ws]> (_active_connections g)) g).

(** The first loop of [broadcast] over the items of [_active_connections];
    [disconnected] is the list it builds.  Both [except] clauses append the
    session; an exception outside [Exception] ends the loop.  (The
    dictionary is visited in insertion order, the map below in the order of
    its keys; every item is another WebSocket, so the order does not show
    in the result.) *)
Fixpoint broadcast_sends (message : string) (items : list (nat * WebSocket))
    (disconnected : list nat) (g : Globals) : result (list nat) * Globals :=
  match items with
  | [] => (Ok disconnected, g)
  | (session_id, connection) :: rest =>
      let '(r, connection) := ws_send (Text message) connection in
      let g := store_websocket session_id connection g in
      match r with
      | Ok _ => broadcast_sends message rest disconnected g
      | Raise e =>
          if is_Exception e
          then broadcast_sends message rest (disconnected ++ [session_id]) g
          else (Raise e, g)
      end
  end.

(** [for session_id in ids: await ws_manager.disconnect(session_id)] *)
Definition disconnect_all (ids : list nat) (g : Globals) : Globals :=
  fold_left (fun g session_id => WebSocketManager.disconnect session_id g)
            ids g.

Definition broadcast (message : string) (g : Globals) : result unit * Globals :=
  match broadcast_sends message (map_to_list (_active_connections g)) [] g with
  | (Ok disconnected, g) => (Ok tt, disconnect_all disconnected g)
  | (Raise e, g) => (Raise e, g)
  end.

(** The shutdown part of [lifespan] of [src/main.py], on a server without
    a tunnel ([ENABLE_NGROK] is off by default, and then [app.state] has no
    [ngrok_manager]): every session of [ws_manager] is disconnected. *)
Definition lifespan_shutdown (g : Globals) : Globals :=
  let active_streams := map fst (map_to_list (_active_connections g)) in
  disconnect_all active_streams g.

(** The WebSocket after [message] was sent on it, when the send
    succeeds. *)
Definition delivered (message : string) (ws : WebSocket) : option WebSocket :=
  match ws_send (Text message) ws with
  | (Ok _, ws) => Some ws
  | (Raise _, _) => None
  end.

(** Three sessions admitted through [ws_manager] with room for more, the
    second of which has lost its peer; and two sessions of [ws_manager]
    beside one of the endpoint. *)
Definition roomy_settings : Settings :=
  {| SAMPLE_RATE := 24000; NUM_CHANNELS := 1; CHUNK_SIZE := 2;
     MAX_CONNECTIONS := 5 |}.

Definition three_connections : Globals :=
  let g := initial_globals roomy_settings in
  let g := snd (WebSocketManager.connect fresh_websocket g) in
  let g := snd (WebSocketManager.connect fresh_websocket g) in
  let g := snd (WebSocketManager.connect fresh_websocket g) in
  store_websocket 1
    {| application_state := CONNECTED; client_gone := true; sent := [] |} g.

Definition mixed_sessions : Globals :=
  let g := initial_globals roomy_settings in
  let g := snd (WebSocketManager.connect fresh_websocket g) in
  let g := snd (fst (Handler.websocket_endpoint_open fresh_websocket [] g)) in
  snd (WebSocketManager.connect fresh_websocket g).

(** ** The stream's own message loop: [AudioStream.handle_messages] *)
Module StreamMessages.

(** How the body of the [while] loop is left. *)
Inductive loop_exit : Type := Continue | Break.

(** How the coroutine stands: it waits in [receive_json] for the next
    message, it has returned, or it has raised. *)
Inductive outcome : Type := Waiting | Returned | Raised (e : exn).

Section WithModel.
Context {T : Type} {NP : NpScalar T}.
Variable tts_model : TTSModel T.
Variable float_of_string : string -> option Q.

(** The body of the inner [try] for a message that [receive_json] has
    returned. *)
Definition message_body (message : json) (c : Stream.Conn)
  : result loop_exit * Stream.Conn :=
  match dict_get message "type" JNull with
  | Raise e => (Raise e, c)
  | Ok message_type =>
      if json_eq_str message_type "synthesize"
      then
        match
          (do text <- dict_get message "text" (JStr "");
           do voice <- dict_get message "voice" (JStr "default");
           do speed <- dict_get message "speed" (JFloat 1);
           do speed <- Handler.py_float float_of_string speed;
           Ok (text, voice, speed))%result
        with
        | Raise e => (Raise e, c)
        | Ok (text, voice, speed) =>
            if negb (py_truthy text)
            then
              match Stream.send (error_frame "Text is required") c with
              | (Ok _, c) => (Ok Continue, c)
              | (Raise e, c) => (Raise e, c)
              end
            else
              match Stream.stream_audio tts_model text voice speed c with
              | (Ok _, c) => (Ok Continue, c)
              | (Raise e, c) => (Raise e, c)
              end
        end
      else if json_eq_str message_type "stop"
      then (Ok Break, Stream.close_conn c)
      else (Ok Continue, c)
  end.

(** The inner [try] with its [except] clause, which reports the exception
    to the client; when that send raises, the exception leaves the loop. *)
Definition handle_received (message : json) (c : Stream.Conn)
  : result loop_exit * Stream.Conn :=
  match message_body message c with
  | (Ok how, c) => (Ok how, c)
  | (Raise e, c) =>
      if is_Exception e
      then
        match Stream.send (error_frame (str_exn e)) c with
        | (Ok _, c) => (Ok Continue, c)
        | (Raise e, c) => (Raise e, c)
        end
      else (Raise e, c)
  end.

(** [handle_messages] on the messages [receive_json] returns, in turn; an
    exception that leaves the loop makes the outer [except] clause close
    the stream. *)
Fixpoint handle_messages (messages : list json) (c : Stream.Conn)
  : outcome * Stream.Conn :=
  if negb (Stream._active (Stream.stream c)) then (Returned, c)
  else
    match messages with
    | [] => (Waiting, c)
    | message :: rest =>
        match handle_received message c with
        | (Ok Continue, c) => handle_messages rest c
        | (Ok Break, c) => (Returned, c)
        | (Raise e, c) =>
            if is_Exception e then (Returned, Stream.close_conn c)
            else (Raised e, c)
        end
    end.

End WithModel.

End StreamMessages.

(** A connection with a client that has sent [f] more. *)
Definition conn_reply (f : frame) (c : Stream.Conn) : Stream.Conn :=
  {| Stream.stream := Stream.stream c;
     Stream.websocket := push_frame f (Stream.websocket c);
     Stream.pending := Stream.pending c |}.

(** A message of a type neither loop knows. *)
Definition hello_message : json := JObj [("type", JStr "hello")].

(** ** Tactics *)

(** Case analysis on the comparisons inside [SFcompare]. *)
Ltac sf_compare :=
  unfold SFltb, SFcompare in *;
  repeat match goal with
  | H : context [Pos.compare_cont Eq ?a ?b] |- _ =>
      change (Pos.compare_cont Eq a b) with (Pos.compare a b) in H
  | |- context [Pos.compare_cont Eq ?a ?b] =>
      change (Pos.compare_cont Eq a b) with (Pos.compare a b)
  end;
  repeat match goal with
  | H : context [Z.compare ?a ?b] |- _ => destruct (Z.compare_spec a b)
  | |- context [Z.compare ?a ?b] => destruct (Z.compare_spec a b)
  | H : context [Pos.compare ?a ?b] |- _ => destruct (Pos.compare_spec a b)
  | |- context [Pos.compare ?a ?b] => destruct (Pos.compare_spec a b)
  end;
  cbn in *; try discriminate; try reflexivity; try lia.

(** Compute the bytes of the ASCII tags of the container. *)
Ltac ascii_literals :=
  repeat match goal with
  | |- context [ascii_bytes ?s] =>
      let v := eval vm_compute in (ascii_bytes s) in
      change (ascii_bytes s) with v
  end.

(** Reduce the projections of an updated scheduler state. *)
Ltac sched_simpl :=
  cbn [Sched.trace Sched.handler Sched.synth Sched.consumer Sched._lock
       Sched.set_consumer Sched.set_synth Sched.set_lock Sched.by_
       Sched.finish] in *.

(** * Properties *)

(** ** Chunking: [generate_speech_stream] *)

Lemma length_tobytes (a : list Z) : length (tobytes a) = (2 * length a)%nat.
Proof.
  unfold tobytes. induction a as [|z a IH]; simpl; [reflexivity|].
  rewrite IH. lia.
Qed.

Lemma tobytes_app (a b : list Z) : tobytes (a ++ b) = tobytes a ++ tobytes b.
Proof. unfold tobytes. apply flat_map_app. Qed.

Lemma length_window n wav i : length (window n wav i) = n.
Proof.
  unfold window. rewrite length_app, repeat_length, length_firstn. lia.
Qed.

Lemma windows_concat (n : nat) :
  forall (k : nat) (wav : list Z),
    (length wav <= k * n)%nat ->
    concat (map (fun j => window n wav (j * n)) (seq 0 k))
    = wav ++ repeat 0 (k * n - length wav).
Proof.
  induction k as [|k IH]; intros wav Hlen.
  - simpl in *. destruct wav; [reflexivity | simpl in Hlen; lia].
  - rewrite <- cons_seq, <- seq_shift, map_cons, map_map. simpl concat.
    rewrite (map_ext (fun j => window n wav (S j * n))
                     (fun j => window n (skipn n wav) (j * n))).
    2:{ intros j. unfold window. rewrite skipn_skipn.
        replace (j * n + n)%nat with (S j * n)%nat by lia. reflexivity. }
    rewrite IH by (rewrite length_skipn; lia).
    unfold window. rewrite skipn_O.
    rewrite length_skipn, length_firstn.
    destruct (le_lt_dec n (length wav)) as [Hge|Hlt].
    + replace (n - Nat.min n (length wav))%nat with 0%nat by lia.
      simpl repeat. rewrite app_nil_r, app_assoc, firstn_skipn.
      f_equal. f_equal. lia.
    + rewrite firstn_all2 by lia. rewrite skipn_all2 by lia. simpl app.
      rewrite <- app_assoc. f_equal. rewrite <- repeat_app. f_equal. lia.
Qed.

Lemma ceil_div_padding (n cs : Z) :
  0 <= n -> 0 < cs ->
  let k := (n + cs - 1) / cs in
  0 <= k /\ n <= k * cs /\ k * cs - n = (- n) mod cs.
Proof.
  intros Hn Hcs k.
  assert (Hk : cs * k <= n + cs - 1 < cs * (k + 1)).
  { unfold k. split.
    - apply Z.mul_div_le; lia.
    - pose proof (Z.mul_succ_div_gt (n + cs - 1) cs Hcs). lia. }
  assert (0 <= k) by (unfold k; apply Z.div_pos; lia).
  split; [assumption|]. split; [nia|].
  apply (Z.mod_unique_pos _ _ (- k)); nia.
Qed.

Lemma tobytes_concat (l : list (list Z)) :
  tobytes (concat l) = concat (map tobytes l).
Proof.
  induction l as [|a l IH]; simpl; [reflexivity|].
  rewrite tobytes_app, IH. reflexivity.
Qed.

Lemma chunk_at_window (wav : list Z) (cs : Z) (j : nat) :
  0 < cs ->
  chunk_at wav cs (Z.of_nat j * cs)
  = tobytes (window (Z.to_nat cs) wav (j * Z.to_nat cs)).
Proof.
  intros Hcs. unfold chunk_at, py_slice, window, np_pad_right, len.
  replace (Z.to_nat (Z.of_nat j * cs + cs) - Z.to_nat (Z.of_nat j * cs))%nat
    with (Z.to_nat cs) by nia.
  replace (Z.to_nat (Z.of_nat j * cs)) with (j * Z.to_nat cs)%nat by nia.
  set (chunk := firstn (Z.to_nat cs) (skipn (j * Z.to_nat cs) wav)).
  destruct (Z.ltb_spec (Z.of_nat (length chunk)) cs) as [Hlt|Hge].
  - do 3 f_equal. lia.
  - replace (Z.to_nat cs - length chunk)%nat with 0%nat by lia.
    simpl. rewrite app_nil_r. reflexivity.
Qed.

Section ChunkingProperties.
Context {T : Type} {NP : NpScalar T}.

Lemma generate_speech_initialized (self : TTSModel T) text voice speed language wav :
  generate_speech self text voice speed language = Ok wav ->
  _initialized self = true.
Proof.
  unfold generate_speech, _ensure_initialized.
  destruct (_initialized self); [reflexivity | discriminate].
Qed.

(** C6.  For every generated waveform and every [chunk_size > 0], the
    generator yields chunks of exactly [chunk_size] int16 samples
    ([2 * chunk_size] bytes) each, and the chunks concatenated are the
    int16-converted waveform followed by zeros up to the next multiple of
    [chunk_size]. *)
Theorem C6_chunks_fixed_size_zero_padded
    (self : TTSModel T) (text voice : json) (speed : Q) (language : string)
    (chunk_size : Z) (wav : list T) :
  0 < chunk_size ->
  generate_speech self text voice speed language = Ok wav ->
  exists chunks : list bytes,
    generate_speech_stream self text voice speed language (Some chunk_size)
      = Ok chunks
    /\ Forall (fun chunk => exists samples : list Z,
                 chunk = tobytes samples /\ len samples = chunk_size
                 /\ len chunk = 2 * chunk_size) chunks
    /\ concat chunks
       = tobytes (scale_int16 wav
                  ++ repeat 0 (Z.to_nat ((- len wav) mod chunk_size))).
Proof.
  intros Hcs Hwav.
  pose proof (generate_speech_initialized _ _ _ _ _ _ Hwav) as Hinit.
  unfold generate_speech_stream, _ensure_initialized. rewrite Hinit.
  cbn [bind_result]. unfold chunk_size_or.
  destruct (Z.eqb_spec chunk_size 0) as [->|_]; [lia|].
  rewrite Hwav. cbn [bind_result]. unfold py_range0.
  destruct (Z.eqb_spec chunk_size 0) as [->|_]; [lia|].
  destruct (Z.ltb_spec 0 chunk_size) as [_|?]; [|lia].
  cbn [bind_result except_Exception].
  set (n := Z.to_nat chunk_size).
  set (samples := scale_int16 wav).
  assert (Hsamples : len samples = len wav).
  { unfold len, samples, scale_int16. rewrite length_map. reflexivity. }
  destruct (ceil_div_padding (len samples) chunk_size) as (Hk0 & Hk1 & Hk2);
    [unfold len; lia | lia |].
  set (k := Z.to_nat ((len samples + chunk_size - 1) / chunk_size)) in *.
  eexists. split; [reflexivity|].
  rewrite map_map.
  rewrite (map_ext _ (fun j => tobytes (window n samples (j * n))))
    by (intros j; apply chunk_at_window; exact Hcs).
  split.
  - apply List.Forall_forall. intros chunk Hin.
    apply in_map_iff in Hin as (j & <- & _).
    exists (window n samples (j * n)). split; [reflexivity|].
    unfold len. rewrite length_tobytes, length_window. lia.
  - rewrite <- (map_map (fun j => window n samples (j * n)) tobytes).
    rewrite <- tobytes_concat. f_equal.
    rewrite windows_concat by (unfold len in *; lia).
    f_equal. f_equal. rewrite <- Hsamples, <- Hk2. unfold len in *. lia.
Qed.

End ChunkingProperties.

(** The theorem above at the sample model, with two samples per chunk: the
    three samples come as two chunks of four bytes, the second one padded. *)
Lemma C6_chunks_sample :
  0 < 2 /\
  generate_speech sample_model (JStr "hello") (JStr "default") 1 "en"
    = Ok sample_wav /\
  exists chunks : list bytes,
    generate_speech_stream sample_model (JStr "hello") (JStr "default") 1 "en"
      (Some 2) = Ok chunks
    /\ Forall (fun chunk => exists samples : list Z,
                 chunk = tobytes samples /\ len samples = 2
                 /\ len chunk = 2 * 2) chunks
    /\ concat chunks
       = tobytes (scale_int16 sample_wav
                  ++ repeat 0 (Z.to_nat ((- len sample_wav) mod 2))).
Proof.
  split; [lia|]. split; [reflexivity|].
  apply (C6_chunks_fixed_size_zero_padded sample_model
           (JStr "hello") (JStr "default") 1 "en" 2 sample_wav);
    [lia | reflexivity].
Defined.

(** ** Bytes and the WAV container *)

Lemma Z_of_byte_of_Z (z : Z) : Z_of_byte (byte_of_Z z) = z mod 256.
Proof.
  unfold Z_of_byte, byte_of_Z.
  pose proof (Z.mod_pos_bound z 256 ltac:(lia)) as Hb.
  destruct (Byte.of_N (Z.to_N (z mod 256))) as [b|] eqn:E.
  - apply Byte.to_of_N in E. rewrite E. lia.
  - apply Byte.of_N_None_iff in E. lia.
Qed.

Lemma wrap_int16_range (z : Z) : -32768 <= wrap_int16 z < 32768.
Proof.
  unfold wrap_int16.
  pose proof (Z.mod_pos_bound (z + 32768) 65536 ltac:(lia)). lia.
Qed.

Lemma wrap_int16_small (z : Z) : -32768 <= z < 32768 -> wrap_int16 z = z.
Proof.
  intros H. unfold wrap_int16. rewrite Z.mod_small by lia. lia.
Qed.

Lemma int16_bytes_round_trip (z : Z) :
  -32768 <= z < 32768 ->
  int16_of_bytes (byte_of_Z (z mod 65536)) (byte_of_Z ((z mod 65536) / 256)) = z.
Proof.
  intros Hz. unfold int16_of_bytes. rewrite !Z_of_byte_of_Z.
  set (u := z mod 65536).
  assert (Hu : 0 <= u < 65536) by (apply Z.mod_pos_bound; lia).
  rewrite (Z.mod_small (u / 256) 256)
    by (split; [apply Z.div_pos; lia | apply Z.div_lt_upper_bound; lia]).
  replace (u mod 256 + 256 * (u / 256)) with u
    by (rewrite (Z.div_mod u 256) at 1; lia).
  unfold wrap_int16, u.
  destruct (Z_lt_le_dec z 0) as [Hneg|Hpos].
  - replace (z mod 65536) with (z + 65536)
      by (apply (Z.mod_unique_pos _ _ (-1)); lia).
    replace ((z + 65536 + 32768) mod 65536) with (z + 32768)
      by (apply (Z.mod_unique_pos _ _ 1); lia).
    lia.
  - rewrite (Z.mod_small z) by lia. rewrite Z.mod_small by lia. lia.
Qed.

Lemma frombuffer_tobytes (a : list Z) :
  Forall (fun z => -32768 <= z < 32768) a ->
  frombuffer (tobytes a) = Ok a.
Proof.
  induction 1 as [|z a Hz _ IH]; [reflexivity|].
  unfold tobytes in *. cbn [flat_map int16_to_bytes app frombuffer].
  rewrite IH, int16_bytes_round_trip by exact Hz. reflexivity.
Qed.

Lemma struct_L_round_trip (x : Z) (b : bytes) :
  struct_pack_L x = Ok b -> struct_unpack_L b = Ok x /\ length b = 4%nat.
Proof.
  unfold struct_pack_L.
  destruct (Z.leb_spec 0 x); [|discriminate].
  destruct (Z.ltb_spec x 4294967296); [|discriminate].
  cbn [andb]. intros [= <-]. split; [|reflexivity].
  unfold struct_unpack_L. rewrite !Z_of_byte_of_Z. f_equal.
  Z.div_mod_to_equations. lia.
Qed.

Lemma struct_H_round_trip (x : Z) (b : bytes) :
  struct_pack_H x = Ok b -> struct_unpack_H b = Ok x /\ length b = 2%nat.
Proof.
  unfold struct_pack_H.
  destruct (Z.leb_spec 0 x); [|discriminate].
  destruct (Z.ltb_spec x 65536); [|discriminate].
  cbn [andb]. intros [= <-]. split; [|reflexivity].
  unfold struct_unpack_H. rewrite !Z_of_byte_of_Z. f_equal.
  Z.div_mod_to_equations. lia.
Qed.

Lemma bytes_eqb_refl (a : bytes) : bytes_eqb a a = true.
Proof. unfold bytes_eqb. destruct (List.list_eq_dec _ a a); congruence. Qed.

Lemma pack_L_shape x b : struct_pack_L x = Ok b ->
  exists b0 b1 b2 b3, b = [b0; b1; b2; b3] /\ struct_unpack_L [b0; b1; b2; b3] = Ok x.
Proof.
  intros H. destruct (struct_L_round_trip _ _ H) as [Hu Hl].
  destruct b as [|b0 [|b1 [|b2 [|b3 [|? ?]]]]]; try discriminate.
  eauto 6.
Qed.

Lemma pack_H_shape x b : struct_pack_H x = Ok b ->
  exists b0 b1, b = [b0; b1] /\ struct_unpack_H [b0; b1] = Ok x.
Proof.
  intros H. destruct (struct_H_round_trip _ _ H) as [Hu Hl].
  destruct b as [|b0 [|b1 [|? ?]]]; try discriminate.
  eauto 6.
Qed.

Lemma wave_round_trip nch sw rate frames file :
  wave_write nch sw rate frames = Ok file ->
  wave_open_rb file
  = Ok {| _nchannels := nch; _sampwidth := sw; _framerate := rate;
          _framesize := nch * sw; _nframes := len frames / (nch * sw);
          _data_chunk := frames |}.
Proof.
  unfold wave_write.
  destruct (Z.ltb_spec nch 1); [discriminate|].
  destruct (Z.ltb_spec sw 1); [discriminate|].
  destruct (Z.ltb_spec 4 sw); [discriminate|]. cbn [orb].
  destruct (Z.leb_spec rate 0); [discriminate|].
  repeat match goal with
  | |- context [bind_result (struct_pack_L ?x) _] =>
      let E := fresh "E" in
      destruct (struct_pack_L x) as [?|?] eqn:E; cbn [bind_result]; [|discriminate];
      apply pack_L_shape in E as (? & ? & ? & ? & -> & E)
  | |- context [bind_result (struct_pack_H ?x) _] =>
      let E := fresh "E" in
      destruct (struct_pack_H x) as [?|?] eqn:E; cbn [bind_result]; [|discriminate];
      apply pack_H_shape in E as (? & ? & -> & E)
  end.
  ascii_literals. cbn [app].
  intros [= <-].
  unfold wave_open_rb, read. ascii_literals.
  cbn [firstn skipn]. rewrite bytes_eqb_refl. cbn [negb].
  match goal with H : struct_unpack_L _ = Ok (36 + _) |- _ => rewrite H end.
  cbn [bind_result].
  replace (Z.to_nat (36 + len frames)) with (36 + length frames)%nat
    by (unfold len; lia).
  cbn [Nat.add firstn skipn]. rewrite !firstn_all.
  rewrite !bytes_eqb_refl. cbn [negb].
  repeat match goal with
  | H : struct_unpack_L ?b = Ok _ |- context [struct_unpack_L ?b] => rewrite H; cbn [bind_result]
  | H : struct_unpack_H ?b = Ok _ |- context [struct_unpack_H ?b] => rewrite H; cbn [bind_result]
  end.
  cbn [firstn skipn negb Z.eqb Pos.eqb].
  replace ((sw * 8 + 7) / 8) with sw by (Z.div_mod_to_equations; lia).
  destruct (Z.eqb_spec sw 0); [lia|].
  destruct (Z.eqb_spec nch 0); [lia|].
  rewrite firstn_O, skipn_O.
  match goal with H : struct_unpack_L _ = Ok (len frames) |- _ => rewrite H end.
  cbn [bind_result]. unfold len at 2. rewrite Nat2Z.id, firstn_all.
  reflexivity.
Qed.

Lemma struct_pack_L_ok (x : Z) :
  0 <= x < 4294967296 -> exists b, struct_pack_L x = Ok b.
Proof.
  intros H. unfold struct_pack_L.
  destruct (Z.leb_spec 0 x); [|lia].
  destruct (Z.ltb_spec x 4294967296); [|lia].
  cbn [andb]. eauto.
Qed.

Lemma struct_pack_H_ok (x : Z) :
  0 <= x < 65536 -> exists b, struct_pack_H x = Ok b.
Proof.
  intros H. unfold struct_pack_H.
  destruct (Z.leb_spec 0 x); [|lia].
  destruct (Z.ltb_spec x 65536); [|lia].
  cbn [andb]. eauto.
Qed.

(** A mono 16-bit file is written whenever the rate and the size fit the
    header. *)
Lemma wave_write_mono16_ok (rate : Z) (frames : bytes) :
  0 < rate < 2147483648 ->
  36 + len frames < 4294967296 ->
  exists file, wave_write 1 2 rate frames = Ok file.
Proof.
  intros Hrate Hlen. unfold wave_write.
  destruct (Z.leb_spec rate 0); [lia|]. cbn [Z.ltb Z.compare Pos.compare
    Pos.compare_cont orb].
  assert (0 <= len frames) by (unfold len; lia).
  repeat match goal with
  | |- context [bind_result (struct_pack_L ?x) _] =>
      let b := fresh "b" in let E := fresh "E" in
      destruct (struct_pack_L_ok x) as [b E]; [lia|];
      rewrite E; cbn [bind_result]
  | |- context [bind_result (struct_pack_H ?x) _] =>
      let b := fresh "b" in let E := fresh "E" in
      destruct (struct_pack_H_ok x) as [b E]; [lia|];
      rewrite E; cbn [bind_result]
  end.
  eauto.
Qed.

Section AudioProperties.
Context {T : Type} {NP : NpScalar T}.

Lemma np_maximum_cases (x y : T) : np_maximum x y = x \/ np_maximum x y = y.
Proof.
  unfold np_maximum.
  destruct (isnan x); [auto|]. destruct (isnan y); [auto|].
  destruct (fgt y x); auto.
Qed.

Lemma fold_maximum_In (rest : list T) (x : T) :
  In (fold_left np_maximum rest x) (x :: rest).
Proof.
  revert x. induction rest as [|y rest IH]; intros x; [left; reflexivity|].
  cbn [fold_left]. specialize (IH (np_maximum x y)).
  destruct IH as [IH|IH].
  - destruct (np_maximum_cases x y) as [E|E].
    + left. congruence.
    + right. left. congruence.
  - right. right. exact IH.
Qed.

Lemma np_amax_In (a : list T) (m : T) : np_amax a = Ok m -> In m a.
Proof.
  destruct a as [|x rest]; [discriminate|].
  cbn [np_amax]. intros [= <-]. apply fold_maximum_In.
Qed.

Lemma np_amax_nonempty (a : list T) :
  a <> [] -> exists m, np_amax a = Ok m.
Proof. destruct a; [congruence | cbn; eauto]. Qed.

Lemma scale_int16_range (a : list T) :
  Forall (fun z => -32768 <= z < 32768) (scale_int16 a).
Proof.
  unfold scale_int16. apply List.Forall_forall. intros z Hz.
  apply in_map_iff in Hz as (x & <- & _). apply wrap_int16_range.
Qed.

(** C8, amended.  Under a mono 16-bit configuration whose sample rate fits
    the header, for every array that is not empty, has fewer than
    [2^31 - 18] samples and no sample of absolute value above 1,
    [array_to_wav_bytes] succeeds and [wav_bytes_to_array] on its result
    returns the configured sample rate and an array of the same length in
    which each sample is the 16-bit quantisation of the input sample
    divided by 32767. *)
Theorem C8_wav_round_trip (config : AudioConfig) (a : ndarray T) :
  num_channels config = 1 ->
  bits_per_sample config = 16 ->
  0 < sample_rate config < 2147483648 ->
  data a <> [] ->
  len (data a) < 2147483630 ->
  Forall (fun x => fgt (fabs x) (of_Z 1) = false) (float32_samples a) ->
  exists wav_bytes : bytes,
    array_to_wav_bytes config a = Ok wav_bytes
    /\ wav_bytes_to_array wav_bytes
       = Ok ({| dtype := np_float32;
                data := map (fun x => dequantise (quantise x))
                            (float32_samples a) |},
             sample_rate config)
    /\ length (map (fun x => dequantise (quantise x)) (float32_samples a))
       = length (data a).
Proof.
  intros Hch Hbits Hrate Hne Hlen Hle.
  set (a32 := float32_samples a) in *.
  assert (Hlen32 : length a32 = length (data a)).
  { unfold a32, float32_samples. destruct (dtype a); [reflexivity|].
    apply length_map. }
  assert (Hne32 : map fabs a32 <> []).
  { destruct a32; [|discriminate]. destruct (data a); [congruence|discriminate]. }
  destruct (np_amax_nonempty _ Hne32) as [peak Hpeak].
  assert (Hpeak1 : fgt peak (of_Z 1) = false).
  { apply np_amax_In, in_map_iff in Hpeak as (x & <- & Hx).
    rewrite List.Forall_forall in Hle. apply Hle, Hx. }
  set (frames := tobytes (scale_int16 a32)).
  assert (Hframes : len frames = 2 * len (data a)).
  { unfold frames, len, scale_int16.
    rewrite length_tobytes, length_map, Hlen32. lia. }
  destruct (wave_write_mono16_ok (sample_rate config) frames Hrate)
    as [file Hfile]; [lia|].
  assert (Hwrite : array_to_wav_bytes config a = Ok file).
  { unfold array_to_wav_bytes.
    replace (data (match dtype a with
                   | np_float32 => a
                   | np_float64 => astype_float32 a
                   end)) with a32
      by (unfold a32, float32_samples; destruct (dtype a); reflexivity).
    rewrite Hpeak. cbn [bind_result]. rewrite Hpeak1. cbn [bind_result].
    replace (data (match dtype a with
                   | np_float32 => a
                   | np_float64 => astype_float32 a
                   end)) with a32
      by (unfold a32, float32_samples; destruct (dtype a); reflexivity).
    rewrite Hch, Hbits. change (16 / 8) with 2. fold frames.
    rewrite Hfile. reflexivity. }
  exists file. split; [exact Hwrite|]. split; [|rewrite length_map; exact Hlen32].
  unfold wav_bytes_to_array.
  rewrite (wave_round_trip _ _ _ _ _ Hfile). cbn [bind_result].
  unfold getnframes, getframerate, readframes.
  cbn [_nframes _framesize _data_chunk _framerate].
  assert (Hpos : 0 < len (data a)).
  { unfold len. destruct (data a); [congruence | cbn; lia]. }
  replace (len frames / (1 * 2)) with (len (data a))
    by (rewrite Hframes; Z.div_mod_to_equations; lia).
  destruct (Z.eqb_spec (len (data a)) 0); [lia|].
  rewrite firstn_all2 by (unfold len in *; lia).
  unfold frames. rewrite frombuffer_tobytes by apply scale_int16_range.
  cbn [bind_result except_Exception]. unfold scale_int16.
  rewrite map_map. reflexivity.
Qed.

End AudioProperties.

(** The round trip at the sample array under the default configuration. *)
Lemma C8_wav_round_trip_sample :
  exists wav_bytes : bytes,
    array_to_wav_bytes sample_config sample_array = Ok wav_bytes
    /\ wav_bytes_to_array wav_bytes
       = Ok ({| dtype := np_float32;
                data := map (fun x => dequantise (quantise x))
                            (float32_samples sample_array) |},
             sample_rate sample_config)
    /\ length (map (fun x => dequantise (quantise x))
                   (float32_samples sample_array))
       = length (data sample_array).
Proof.
  apply (C8_wav_round_trip sample_config sample_array);
    [reflexivity | reflexivity | split; reflexivity | discriminate
    | reflexivity |].
  repeat constructor.
Defined.

(** C8 as stated fails on the empty array, whose absolute values are all at
    most 1: the maximum of no values does not exist, and the conversion
    raises. *)
Lemma C8_empty_array_raises :
  Forall (fun x => fgt (fabs x) (of_Z 1) = false) (float32_samples empty_array)
  /\ array_to_wav_bytes sample_config empty_array
     = Raise (AudioError "Failed to convert array to WAV").
Proof. split; [constructor | reflexivity]. Qed.

(** ** Normalisation *)

(** *** Rounding in binary32 *)

Lemma digits2_pos_bounds (p : positive) :
  2 ^ (Zpos (digits2_pos p) - 1) <= Zpos p < 2 ^ Zpos (digits2_pos p).
Proof.
  induction p as [p IH|p IH|]; cbn [digits2_pos].
  - rewrite Pos2Z.inj_succ.
    replace (Z.succ (Zpos (digits2_pos p)) - 1)
      with (Z.succ (Zpos (digits2_pos p) - 1)) by lia.
    rewrite !Z.pow_succ_r by lia. lia.
  - rewrite Pos2Z.inj_succ.
    replace (Z.succ (Zpos (digits2_pos p)) - 1)
      with (Z.succ (Zpos (digits2_pos p) - 1)) by lia.
    rewrite !Z.pow_succ_r by lia. lia.
  - cbn. lia.
Qed.

Lemma Zdigits2_bounds (m : Z) :
  0 < m -> 0 < Zdigits2 m /\ 2 ^ (Zdigits2 m - 1) <= m < 2 ^ Zdigits2 m.
Proof.
  destruct m as [|p|p]; try lia. intros _. cbn [Zdigits2].
  split; [lia | apply digits2_pos_bounds].
Qed.

Lemma Zdigits2_unique (m k : Z) :
  2 ^ (k - 1) <= m < 2 ^ k -> 0 < k -> Zdigits2 m = k.
Proof.
  intros Hm Hk.
  assert (Hpos : 0 < m).
  { assert (0 < 2 ^ (k - 1)) by (apply Z.pow_pos_nonneg; lia). lia. }
  destruct (Zdigits2_bounds m Hpos) as (Hd & Hlo & Hhi).
  destruct (Z.lt_trichotomy (Zdigits2 m) k) as [Hlt|[Heq|Hgt]]; [|exact Heq|].
  - assert (2 ^ Zdigits2 m <= 2 ^ (k - 1)) by (apply Z.pow_le_mono_r; lia). lia.
  - assert (2 ^ k <= 2 ^ (Zdigits2 m - 1)) by (apply Z.pow_le_mono_r; lia). lia.
Qed.

Lemma Zdigits2_le (m k : Z) : 0 <= k -> 0 <= m < 2 ^ k -> Zdigits2 m <= k.
Proof.
  intros Hk Hm. destruct (Z.eq_dec m 0) as [->|Hne]; [cbn; lia|].
  destruct (Zdigits2_bounds m) as (Hd & Hlo & Hhi); [lia|].
  destruct (Z_le_gt_dec (Zdigits2 m) k) as [|Hgt]; [assumption|].
  assert (2 ^ k <= 2 ^ (Zdigits2 m - 1)) by (apply Z.pow_le_mono_r; lia). lia.
Qed.

Lemma Zdigits2_gt (m k : Z) : 0 <= k -> 2 ^ k <= m -> k < Zdigits2 m.
Proof.
  intros Hk Hm.
  assert (Hpos : 0 < m).
  { assert (0 < 2 ^ k) by (apply Z.pow_pos_nonneg; lia). lia. }
  destruct (Zdigits2_bounds m Hpos) as (Hd & Hlo & Hhi).
  destruct (Z_lt_le_dec k (Zdigits2 m)) as [|Hle]; [assumption|].
  assert (2 ^ Zdigits2 m <= 2 ^ k) by (apply Z.pow_le_mono_r; lia). lia.
Qed.

Lemma Zdigits2_nonneg (m : Z) : 0 <= Zdigits2 m.
Proof. destruct m; cbn; lia. Qed.


Lemma shr_1_shifted (mrs : shr_record) :
  0 <= shr_m mrs -> shifted mrs (shr_1 mrs) 1.
Proof.
  destruct mrs as [m r s]. cbn [shr_m]. intros Hm. unfold shifted, sticky.
  change (2 ^ 1) with 2.
  destruct m as [|[p|p|]|]; try lia; cbn [shr_1 shr_m shr_r shr_s].
  - split; [reflexivity|]. reflexivity.
  - split.
    + apply Z.div_unique with (r := 1); lia.
    + replace (Z.pos p~1 mod 2) with 1
        by (apply Z.mod_unique with (q := Z.pos p); lia).
      reflexivity.
  - split.
    + apply Z.div_unique with (r := 0); lia.
    + replace (Z.pos p~0 mod 2) with 0
        by (apply Z.mod_unique with (q := Z.pos p); lia).
      reflexivity.
  - split; reflexivity.
Qed.

Lemma shifted_trans (a b c : shr_record) (n1 n2 : Z) :
  0 <= shr_m a -> 0 < n1 -> 0 < n2 ->
  shifted a b n1 -> shifted b c n2 -> shifted a c (n1 + n2).
Proof.
  intros Ha H1 H2 [Hm1 Hs1] [Hm2 Hs2]. unfold shifted.
  rewrite Z.pow_add_r by lia.
  assert (Hp1 : 0 < 2 ^ n1) by (apply Z.pow_pos_nonneg; lia).
  assert (Hp2 : 0 < 2 ^ n2) by (apply Z.pow_pos_nonneg; lia).
  split.
  - rewrite Hm2, Hm1. apply Z.div_div; lia.
  - rewrite Hs2, Hs1, Hm1.
    rewrite Z.rem_mul_r by lia.
    pose proof (Z.mod_pos_bound (shr_m a) (2 ^ n1) Hp1).
    pose proof (Z.mod_pos_bound (shr_m a / 2 ^ n1) (2 ^ n2) Hp2).
    destruct (Z.eqb_spec (shr_m a mod 2 ^ n1) 0),
             (Z.eqb_spec ((shr_m a / 2 ^ n1) mod 2 ^ n2) 0),
             (Z.eqb_spec (shr_m a mod 2 ^ n1
                          + 2 ^ n1 * ((shr_m a / 2 ^ n1) mod 2 ^ n2)) 0);
      cbn; try reflexivity; try nia; destruct (sticky a); reflexivity.
Qed.

Lemma shifted_nonneg (a b : shr_record) (n : Z) :
  0 <= shr_m a -> 0 <= n -> shifted a b n -> 0 <= shr_m b.
Proof.
  intros Ha Hn [Hm _]. rewrite Hm. apply Z.div_pos; [assumption|].
  apply Z.pow_pos_nonneg; lia.
Qed.

Lemma iter_pos_shr_1 (p : positive) :
  forall mrs, 0 <= shr_m mrs -> shifted mrs (SpecFloat.iter_pos shr_1 p mrs) (Zpos p).
Proof.
  induction p as [p IH|p IH|]; intros mrs Hm; cbn [SpecFloat.iter_pos].
  - pose proof (shr_1_shifted mrs Hm) as H1.
    assert (Hm1 : 0 <= shr_m (shr_1 mrs)) by (eapply shifted_nonneg; [exact Hm | | exact H1]; lia).
    pose proof (IH _ Hm1) as H2.
    assert (Hm2 : 0 <= shr_m (SpecFloat.iter_pos shr_1 p (shr_1 mrs))) by (eapply shifted_nonneg; [exact Hm1 | | exact H2]; lia).
    pose proof (IH _ Hm2) as H3.
    replace (Z.pos p~1) with (1 + Z.pos p + Z.pos p) by lia.
    eapply shifted_trans; [assumption | lia | lia | | exact H3].
    eapply shifted_trans; [assumption | lia | lia | exact H1 | exact H2].
  - pose proof (IH _ Hm) as H2.
    assert (Hm2 : 0 <= shr_m (SpecFloat.iter_pos shr_1 p mrs)) by (eapply shifted_nonneg; [exact Hm | | exact H2]; lia).
    pose proof (IH _ Hm2) as H3.
    replace (Z.pos p~0) with (Z.pos p + Z.pos p) by lia.
    eapply shifted_trans; [assumption | lia | lia | exact H2 | exact H3].
  - apply shr_1_shifted, Hm.
Qed.


Lemma sticky_of_loc (m : Z) (l : location) :
  sticky (shr_record_of_loc m l) = inexact l /\ shr_m (shr_record_of_loc m l) = m.
Proof. destruct l as [|[]]; split; reflexivity. Qed.

Lemma inexact_of_shr_record (mrs : shr_record) :
  inexact (loc_of_shr_record mrs) = sticky mrs.
Proof. destruct mrs as [m [] []]; reflexivity. Qed.


Lemma shr_fexp_spec (m e : Z) (l : location) :
  0 <= m ->
  let n := shift_count m e in
  let '(mrs, e1) := shr_fexp 24 128 m e l in
  e1 = e + n
  /\ shr_m mrs = m / 2 ^ n
  /\ sticky mrs = negb (m mod 2 ^ n =? 0) || inexact l.
Proof.
  intros Hm n. unfold shr_fexp, shr. subst n. unfold shift_count.
  destruct (sticky_of_loc m l) as [Hs Hm'].
  destruct (fexp 24 128 (Zdigits2 m + e) - e) as [|p|p] eqn:E.
  - cbn [Z.max]. change (Z.max 0 0) with 0. change (2 ^ 0) with 1.
    rewrite Z.div_1_r, Z.mod_1_r, Hs, Hm'. cbn. split; [lia|]. split; reflexivity.
  - replace (Z.max 0 (Z.pos p)) with (Z.pos p) by lia.
    destruct (iter_pos_shr_1 p (shr_record_of_loc m l)) as [H1 H2];
      [rewrite Hm'; exact Hm|].
    rewrite Hm' in H1, H2. rewrite Hs in H2.
    split; [reflexivity|]. split; assumption.
  - replace (Z.max 0 (Z.neg p)) with 0 by lia. change (2 ^ 0) with 1.
    rewrite Z.div_1_r, Z.mod_1_r, Hs, Hm'. cbn. split; [lia|]. split; reflexivity.
Qed.

Lemma round_nearest_even_spec (m : Z) (l : location) :
  m <= round_nearest_even m l <= m + 1
  /\ (inexact l = false -> round_nearest_even m l = m).
Proof.
  destruct l as [|[]]; cbn [round_nearest_even inexact].
  - split; [lia | reflexivity].
  - destruct (Z.even m); split; try lia; discriminate.
  - split; [lia | discriminate].
  - split; [lia | discriminate].
Qed.

Lemma pow2_pos (k : Z) : 0 <= k -> 0 < 2 ^ k.
Proof. intros. apply Z.pow_pos_nonneg; lia. Qed.

Lemma shift_capped (nb m e : Z) :
  0 < nb < 2 ^ 24 -> 0 <= m -> e <= 0 -> m <= nb * 2 ^ (- e) ->
  let n := shift_count m e in
  0 <= n /\ e + n <= 0
  /\ m / 2 ^ n <= nb * 2 ^ (- (e + n))
  /\ 2 ^ (- e) = 2 ^ (- (e + n)) * 2 ^ n.
Proof.
  intros Hnb Hm He Hcap n.
  assert (Hn : 0 <= n) by (unfold n, shift_count; lia).
  assert (Hd : Zdigits2 m <= 24 - e).
  { apply Zdigits2_le; [lia|]. split; [exact Hm|].
    replace (24 - e) with (24 + - e) by lia. rewrite Z.pow_add_r by lia.
    pose proof (pow2_pos (- e) ltac:(lia)). nia. }
  assert (Hen : e + n <= 0).
  { unfold n, shift_count, fexp, emin. lia. }
  assert (Hsplit : 2 ^ (- e) = 2 ^ (- (e + n)) * 2 ^ n).
  { rewrite <- Z.pow_add_r by lia. f_equal. lia. }
  repeat split; try assumption.
  pose proof (pow2_pos n Hn).
  apply Z.div_le_upper_bound; [assumption|].
  rewrite Hsplit in Hcap. nia.
Qed.

(** Rounding a value that is at most the integer [nb], and is marked exact
    when it equals [nb], gives a value that is at most [nb]. *)
Lemma binary_round_aux_capped (nb : Z) (s : bool) (m e : Z) (l : location) :
  0 < nb < 2 ^ 24 -> 0 <= m -> e <= 0 -> m <= nb * 2 ^ (- e) ->
  (m = nb * 2 ^ (- e) -> l = loc_Exact) ->
  match binary_round_aux 24 128 s m e l with
  | S754_zero s' => s' = s
  | S754_finite s' m' e' => s' = s /\ e' <= 0 /\ Zpos m' <= nb * 2 ^ (- e')
  | _ => False
  end.
Proof.
  intros Hnb Hm He Hcap Hexact. unfold binary_round_aux.
  pose proof (shr_fexp_spec m e l Hm) as H1. cbv zeta in H1.
  destruct (shr_fexp 24 128 m e l) as [mrs e1].
  destruct H1 as (He1 & Hm1 & Hs1).
  destruct (shift_capped nb m e Hnb Hm He Hcap) as (Hn & Hen & Hdiv & Hsplit).
  set (n := shift_count m e) in *.
  rewrite <- He1 in Hen, Hdiv, Hsplit.
  pose proof (pow2_pos n Hn) as Hpn.
  assert (Hm1' : 0 <= shr_m mrs) by (rewrite Hm1; apply Z.div_pos; lia).
  destruct (round_nearest_even_spec (shr_m mrs) (loc_of_shr_record mrs))
    as [Hr Hr'].
  rewrite inexact_of_shr_record in Hr'.
  set (m2 := round_nearest_even (shr_m mrs) (loc_of_shr_record mrs)) in *.
  assert (Hcap2 : m2 <= nb * 2 ^ (- e1)).
  { destruct (Z.eq_dec (shr_m mrs) (nb * 2 ^ (- e1))) as [Heq|Hne]; [|lia].
    assert (Hfull : m = nb * 2 ^ (- e)).
    { rewrite Hm1 in Heq.
      pose proof (Z.mul_div_le m (2 ^ n) Hpn). rewrite Hsplit in Hcap |- *. nia. }
    rewrite Hr'; [lia|]. rewrite Hs1, (Hexact Hfull).
    rewrite Hfull, Hsplit, Z.mul_assoc, Z.mod_mul by lia. reflexivity. }
  assert (Hm2 : 0 <= m2) by lia.
  pose proof (shr_fexp_spec m2 e1 loc_Exact Hm2) as H2. cbv zeta in H2.
  destruct (shr_fexp 24 128 m2 e1 loc_Exact) as [mrs2 e2].
  destruct H2 as (He2 & Hm3 & _).
  destruct (shift_capped nb m2 e1 Hnb Hm2 Hen Hcap2) as (Hn2 & Hen2 & Hdiv2 & _).
  rewrite <- He2 in Hen2, Hdiv2. rewrite <- Hm3 in Hdiv2.
  assert (Hm3' : 0 <= shr_m mrs2).
  { rewrite Hm3. apply Z.div_pos; [lia | apply pow2_pos, Hn2]. }
  destruct (shr_m mrs2) as [|p|p]; [reflexivity | | lia].
  destruct (Z.leb_spec e2 (128 - 24)); [|lia].
  repeat split; assumption.
Qed.

Lemma Zdigits2_shift (m n : Z) :
  0 < m -> 0 <= n ->
  (n < Zdigits2 m -> Zdigits2 (m / 2 ^ n) = Zdigits2 m - n)
  /\ (Zdigits2 m <= n -> m / 2 ^ n = 0).
Proof.
  intros Hm Hn. destruct (Zdigits2_bounds m Hm) as (Hd & Hlo & Hhi).
  pose proof (pow2_pos n Hn) as Hpn.
  split; intros H.
  - apply Zdigits2_unique; [|lia]. split.
    + apply Z.div_le_lower_bound; [assumption|].
      rewrite Z.mul_comm, <- Z.pow_add_r by lia.
      replace (Zdigits2 m - n - 1 + n) with (Zdigits2 m - 1) by lia. exact Hlo.
    + apply Z.div_lt_upper_bound; [assumption|].
      rewrite <- Z.pow_add_r by lia.
      replace (n + (Zdigits2 m - n)) with (Zdigits2 m) by lia. exact Hhi.
  - apply Z.div_small. split; [lia|].
    assert (2 ^ Zdigits2 m <= 2 ^ n) by (apply Z.pow_le_mono_r; lia). lia.
Qed.


Lemma binary_round_aux_valid (s : bool) (m e : Z) (l : location) :
  0 <= m -> e <= fexp 24 128 (Zdigits2 m + e) ->
  valid_binary 24 128 (binary_round_aux 24 128 s m e l) = true.
Proof.
  intros Hm Hpre. unfold binary_round_aux.
  pose proof (shr_fexp_spec m e l Hm) as H1. cbv zeta in H1.
  destruct (shr_fexp 24 128 m e l) as [mrs e1].
  destruct H1 as (He1 & Hm1 & _).
  assert (Hn : shift_count m e = fexp 24 128 (Zdigits2 m + e) - e)
    by (unfold shift_count; lia).
  rewrite Hn in He1, Hm1.
  set (n := fexp 24 128 (Zdigits2 m + e) - e) in *.
  assert (Hn0 : 0 <= n) by (unfold n; lia).
  assert (He1' : e1 = fexp 24 128 (Zdigits2 m + e)) by (unfold n in He1; lia).
  assert (Hm1' : 0 <= shr_m mrs).
  { rewrite Hm1. apply Z.div_pos; [lia | apply pow2_pos, Hn0]. }
  (* after the first shift *)
  assert (Hinv : (0 < shr_m mrs -> canonical (shr_m mrs) e1)
                 /\ (shr_m mrs = 0 -> e1 = -149)).
  { destruct (Z.eq_dec m 0) as [->|Hne].
    - cbn [Zdigits2] in *. rewrite Zdiv_0_l in Hm1.
      split; [lia|]. intros _. unfold fexp, emin in *. lia.
    - destruct (Zdigits2_shift m n ltac:(lia) Hn0) as [Hlt Hge].
      destruct (Z_lt_le_dec n (Zdigits2 m)) as [Hc|Hc].
      + split.
        * intros _. unfold canonical. rewrite Hm1, (Hlt Hc).
          replace (Zdigits2 m - n + e1) with (Zdigits2 m + e) by lia.
          symmetry. exact He1'.
        * intros Hz. rewrite Hm1 in Hz.
          specialize (Hlt Hc). rewrite Hz in Hlt. cbn in Hlt. lia.
      + split.
        * intros Hpos. rewrite Hm1, (Hge Hc) in Hpos. lia.
        * intros _. unfold fexp, emin, n in *. lia. }
  destruct Hinv as [Hcan Hzero].
  destruct (round_nearest_even_spec (shr_m mrs) (loc_of_shr_record mrs))
    as [Hr _].
  set (m2 := round_nearest_even (shr_m mrs) (loc_of_shr_record mrs)) in *.
  assert (Hm2 : 0 <= m2) by lia.
  pose proof (shr_fexp_spec m2 e1 loc_Exact Hm2) as H2. cbv zeta in H2.
  destruct (shr_fexp 24 128 m2 e1 loc_Exact) as [mrs2 e2].
  destruct H2 as (He2 & Hm3 & _).
  assert (Hfinal : 0 < shr_m mrs2 -> canonical (shr_m mrs2) e2).
  { intros Hpos.
    destruct (Z.eq_dec (shr_m mrs) 0) as [Hz|Hnz].
    - (* rounding up from nothing: the least subnormal *)
      specialize (Hzero Hz).
      assert (m2 = 0 \/ m2 = 1) as [->| ->] by lia.
      + rewrite Zdiv_0_l in Hm3. lia.
      + rewrite Hzero in Hm3, He2.
        change (shift_count 1 (-149)) with 0 in Hm3, He2.
        change (1 / 2 ^ 0) with 1 in Hm3. rewrite Hm3, He2. reflexivity.
    - assert (Hp1 : 0 < shr_m mrs) by lia. specialize (Hcan Hp1).
      destruct (Zdigits2_bounds _ Hp1) as (Hd1 & Hlo1 & Hhi1).
      set (d1 := Zdigits2 (shr_m mrs)) in *.
      destruct (Z.eq_dec m2 (2 ^ d1)) as [Hpow|Hnpow].
      + (* the mantissa gained a digit *)
        assert (Hd2 : Zdigits2 m2 = d1 + 1).
        { apply Zdigits2_unique; [|lia]. rewrite Hpow.
          replace (d1 + 1 - 1) with d1 by lia. split; [lia|].
          apply Z.pow_lt_mono_r; lia. }
        unfold shift_count in He2, Hm3. rewrite Hd2 in He2, Hm3.
        unfold canonical in Hcan. fold d1 in Hcan.
        destruct (Z.eq_dec (fexp 24 128 (d1 + 1 + e1)) e1) as [Hsame|Hdiff].
        * rewrite Hsame in He2, Hm3.
          replace (Z.max 0 (e1 - e1)) with 0 in * by lia.
          change (2 ^ 0) with 1 in Hm3. rewrite Z.div_1_r in Hm3.
          unfold canonical. rewrite Hm3, Hd2.
          replace e2 with e1 by lia. exact Hsame.
        * assert (Hone : fexp 24 128 (d1 + 1 + e1) = e1 + 1)
            by (unfold fexp, emin in *; lia).
          rewrite Hone in He2, Hm3.
          replace (Z.max 0 (e1 + 1 - e1)) with 1 in * by lia.
          assert (Hm3' : shr_m mrs2 = 2 ^ (d1 - 1)).
          { rewrite Hm3, Hpow. change (2 ^ 1) with 2.
            replace d1 with (Z.succ (d1 - 1)) at 1 by lia.
            rewrite Z.pow_succ_r by lia.
            rewrite Z.mul_comm, Z.div_mul by lia. reflexivity. }
          unfold canonical.
          replace (Zdigits2 (shr_m mrs2)) with d1.
          -- replace (d1 + e2) with (d1 + 1 + e1) by lia. lia.
          -- symmetry. apply Zdigits2_unique; [|lia]. rewrite Hm3'.
             split; [lia|]. apply Z.pow_lt_mono_r; lia.
      + (* the same number of digits *)
        assert (Hd2 : Zdigits2 m2 = d1).
        { apply Zdigits2_unique; [|lia]. lia. }
        unfold shift_count in He2, Hm3. rewrite Hd2 in He2, Hm3.
        unfold canonical in Hcan. fold d1 in Hcan. rewrite Hcan in He2, Hm3.
        replace (Z.max 0 (e1 - e1)) with 0 in * by lia.
        change (2 ^ 0) with 1 in Hm3. rewrite Z.div_1_r in Hm3.
        unfold canonical. rewrite Hm3, Hd2.
        replace e2 with e1 by lia. exact Hcan. }
  destruct (shr_m mrs2) as [|p|p] eqn:Ep; [reflexivity | | reflexivity].
  destruct (Z.leb_spec e2 (128 - 24)) as [Hle|Hgt]; [|reflexivity].
  cbn [valid_binary]. unfold bounded, canonical_mantissa.
  specialize (Hfinal ltac:(lia)). unfold canonical in Hfinal.
  cbn [Zdigits2] in Hfinal. rewrite Hfinal, Z.eqb_refl.
  apply Z.leb_le in Hle. rewrite Hle. reflexivity.
Qed.




Lemma bounded_digits (m : positive) (e : Z) :
  bounded 24 128 m e = true ->
  canonical (Zpos m) e /\ -149 <= e <= 104
  /\ Zdigits2 (Zpos m) <= 24 /\ (-149 < e -> Zdigits2 (Zpos m) = 24).
Proof.
  unfold bounded, canonical_mantissa. intros H.
  apply andb_prop in H as [H1 H2].
  apply Z.eqb_eq in H1. apply Z.leb_le in H2.
  unfold canonical. cbn [Zdigits2]. unfold fexp, emin in *. lia.
Qed.

Lemma SFltb_irrefl (x : spec_float) : SFltb x x = false.
Proof. destruct x as [[]|[]| |[] m e]; sf_compare. Qed.

Lemma SFltb_asym (x y : spec_float) : SFltb y x = true -> SFltb x y = false.
Proof.
  destruct x as [[]|[]| |[] mx ex], y as [[]|[]| |[] my ey]; intros H;
    sf_compare.
Qed.

Lemma SFltb_le_trans (x y z : spec_float) :
  f32_finite y -> SFltb y x = false -> SFltb z y = false -> SFltb z x = false.
Proof.
  destruct y as [[]|[]| |[] my ey]; cbn [f32_finite]; try contradiction;
    intros _;
    destruct x as [[]|[]| |[] mx ex], z as [[]|[]| |[] mz ez]; intros H1 H2;
    sf_compare.
Qed.

Lemma new_location_exact (nb_steps : Z) : new_location nb_steps 0 = loc_Exact.
Proof.
  unfold new_location, new_location_even, new_location_odd.
  destruct (Z.even nb_steps); reflexivity.
Qed.

(** The quotient [SFdiv] rounds, when the dividend is at most the divisor:
    it is at most 1, exact when it is 1, and precise enough. *)
Lemma SFdiv_core_unit (mx my : positive) (ex ey : Z) :
  bounded 24 128 mx ex = true -> bounded 24 128 my ey = true ->
  ex < ey \/ (ex = ey /\ Zpos mx <= Zpos my) ->
  let '(q, e, l) := SFdiv_core_binary 24 128 (Zpos mx) ex (Zpos my) ey in
  0 <= q /\ e <= 0 /\ q <= 1 * 2 ^ (- e)
  /\ (q = 1 * 2 ^ (- e) -> l = loc_Exact)
  /\ e <= fexp 24 128 (Zdigits2 q + e).
Proof.
  intros Hx Hy Hle.
  destruct (bounded_digits _ _ Hx) as (_ & Hex & Hdx & Hnx).
  destruct (bounded_digits _ _ Hy) as (_ & Hey & Hdy & Hny).
  destruct (Zdigits2_bounds (Zpos mx) ltac:(lia)) as (Hdx0 & Hxlo & Hxhi).
  destruct (Zdigits2_bounds (Zpos my) ltac:(lia)) as (Hdy0 & Hylo & Hyhi).
  unfold SFdiv_core_binary.
  set (dx := Zdigits2 (Zpos mx)) in *. set (dy := Zdigits2 (Zpos my)) in *.
  set (d := dx + ex - (dy + ey)).
  set (e := Z.min (fexp 24 128 d) (ex - ey)).
  set (s := ex - ey - e).
  assert (Hd : d <= 0).
  { unfold d. destruct Hle as [Hlt|[Heq Hm]].
    - rewrite Hny by lia. lia.
    - assert (dx <= dy); [|lia].
      apply Zdigits2_le; lia. }
  assert (He : e <= -24) by (unfold e, fexp, emin; lia).
  assert (Hs : 0 <= s) by (unfold s, e; lia).
  set (m' := match s with
             | 0 => Z.pos mx
             | Z.pos _ => Z.shiftl (Z.pos mx) s
             | Z.neg _ => 0
             end).
  assert (Hm' : m' = Zpos mx * 2 ^ s).
  { unfold m'. destruct s as [|p|p] eqn:Es; [cbn; lia | | lia].
    apply Z.shiftl_mul_pow2. lia. }
  clearbody m'.
  pose proof (Z_div_mod m' (Zpos my) ltac:(lia)) as Hdiv.
  destruct (Z.div_eucl m' (Zpos my)) as [q r]. destruct Hdiv as [Hqr Hr].
  pose proof (pow2_pos s Hs) as Hps.
  pose proof (pow2_pos (- e) ltac:(lia)) as Hpe.
  assert (Hq : 0 <= q) by nia.
  (* the dividend is at most the divisor *)
  assert (Hcap : m' <= Zpos my * 2 ^ (- e)).
  { replace (- e) with (s + (ey - ex)) by (unfold s; lia).
    rewrite Z.pow_add_r by lia.
    assert (Zpos mx <= Zpos my * 2 ^ (ey - ex)); [|nia].
    destruct Hle as [Hlt|[Heq Hm]].
    - assert (2 ^ 1 <= 2 ^ (ey - ex)) by (apply Z.pow_le_mono_r; lia).
      assert (2 ^ dx <= 2 ^ 24) by (apply Z.pow_le_mono_r; lia).
      rewrite Hny in Hylo by lia. change (2 ^ (24 - 1)) with 8388608 in Hylo.
      change (2 ^ 24) with 16777216 in *. change (2 ^ 1) with 2 in *. nia.
    - replace (ey - ex) with 0 by lia. change (2 ^ 0) with 1. lia. }
  split; [exact Hq|]. split; [lia|]. rewrite Z.mul_1_l.
  split; [nia|]. split.
  - intros Hfull. assert (r = 0) by nia. subst r. apply new_location_exact.
  - (* the quotient has enough digits *)
    assert (Hdig : d <= Zdigits2 q + e).
    { pose proof (Zdigits2_nonneg q).
      destruct (Z_lt_le_dec (d - 1 - e) 0) as [Hneg|Ht]; [lia|].
      assert (Hqt : 2 ^ (d - 1 - e) <= q).
      { destruct (Z_le_gt_dec (2 ^ (d - 1 - e)) q) as [|Hgt]; [assumption|].
        exfalso.
        assert (H1 : m' < Zpos my * 2 ^ (d - 1 - e)) by nia.
        assert (H2 : 2 ^ (dx - 1) * 2 ^ s <= m') by nia.
        assert (H3 : Zpos my * 2 ^ (d - 1 - e) < 2 ^ dy * 2 ^ (d - 1 - e)).
        { apply Z.mul_lt_mono_pos_r; [apply pow2_pos; lia | lia]. }
        rewrite <- !Z.pow_add_r in * by lia.
        replace (dy + (d - 1 - e)) with (dx - 1 + s) in H3
          by (unfold d, s; lia).
        lia. }
      apply Zdigits2_gt in Hqt; lia. }
    unfold fexp, emin in *. unfold e in *. lia.
Qed.

(** Dividing a finite value by a finite positive value of at least its
    magnitude gives a finite value of magnitude at most 1. *)
Lemma SFdiv_unit_bound (x m : spec_float) :
  f32_finite x -> f32_finite m ->
  SFltb (S754_zero false) m = true -> SFltb m (SFabs x) = false ->
  f32_finite (SFdiv 24 128 x m)
  /\ SFltb f32_one (SFabs (SFdiv 24 128 x m)) = false.
Proof.
  intros Hx Hm Hpos Hle.
  destruct m as [sm|sm| |sm my ey]; cbn [f32_finite] in Hm; try contradiction;
    [destruct sm; discriminate|].
  destruct sm; [discriminate|].
  destruct x as [sx|sx| |sx mx ex]; cbn [f32_finite] in Hx; try contradiction.
  - cbn. split; [exact I | reflexivity].
  - assert (Hord : ex < ey \/ (ex = ey /\ Zpos mx <= Zpos my)).
    { cbn [SFabs] in Hle. sf_compare. }
    pose proof (SFdiv_core_unit mx my ex ey Hx Hm Hord) as Hcore.
    cbn [SFdiv].
    destruct (SFdiv_core_binary 24 128 (Z.pos mx) ex (Z.pos my) ey)
      as [[q e] l].
    destruct Hcore as (Hq & He & Hcap & Hexact & Hpre).
    pose proof (binary_round_aux_capped 1 (xorb sx false) q e l
                  ltac:(cbn; lia) Hq He Hcap Hexact) as Hc.
    pose proof (binary_round_aux_valid (xorb sx false) q e l Hq Hpre) as Hv.
    destruct (binary_round_aux 24 128 (xorb sx false) q e l)
      as [s'|s'| |s' m' e']; try contradiction.
    + split; [exact I | reflexivity].
    + cbn [valid_binary] in Hv. split; [exact Hv|].
      destruct Hc as (_ & He' & Hm').
      destruct (bounded_digits _ _ Hv) as (Hcan & _).
      unfold canonical in Hcan.
      assert (Hd : Zdigits2 (Zpos m') <= - e' + 1).
      { apply Zdigits2_le; [lia|]. split; [lia|].
        rewrite Z.pow_add_r by lia. change (2 ^ 1) with 2.
        pose proof (pow2_pos (- e') ltac:(lia)). lia. }
      assert (He23 : e' <= -23) by (unfold fexp, emin in Hcan; lia).
      cbn [SFabs]. unfold f32_one.
      assert (e' = -23 -> Zpos m' <= 8388608).
      { intros ->. change (1 * 2 ^ (- -23)) with 8388608 in Hm'. exact Hm'. }
      sf_compare.
Qed.

Lemma f32_finite_not_nan (x : spec_float) : f32_finite x -> isnan x = false.
Proof. destruct x; cbn; intros H; [reflexivity | contradiction.. | reflexivity]. Qed.

Lemma f32_finite_fabs (x : spec_float) : f32_finite x -> f32_finite (fabs x).
Proof. destruct x; cbn; auto. Qed.

(** Binary32 arithmetic satisfies the laws. *)
Lemma binary32_laws : NpLaws spec_float.
Proof.
  exact {| finite := f32_finite;
           finite_not_nan := f32_finite_not_nan;
           finite_fabs := f32_finite_fabs;
           fgt_irrefl := SFltb_irrefl;
           fgt_asym := SFltb_asym;
           fle_trans := SFltb_le_trans;
           fdiv_unit_bound := SFdiv_unit_bound |}.
Defined.

#[export] Existing Instance binary32_laws.

Section NormalizeProperties.
Context {T : Type} {NP : NpScalar T} {L : NpLaws T}.

Lemma np_maximum_finite (x y : T) :
  finite x -> finite y ->
  finite (np_maximum x y)
  /\ fgt x (np_maximum x y) = false /\ fgt y (np_maximum x y) = false.
Proof.
  intros Hx Hy. unfold np_maximum.
  rewrite (finite_not_nan x Hx), (finite_not_nan y Hy).
  destruct (fgt y x) eqn:E.
  - split; [exact Hy|]. split; [apply fgt_asym, E | apply fgt_irrefl].
  - split; [exact Hx|]. split; [apply fgt_irrefl | exact E].
Qed.

Lemma fold_maximum_upper (rest : list T) :
  forall x : T,
    finite x -> Forall finite rest ->
    finite (fold_left np_maximum rest x)
    /\ Forall (fun y => fgt y (fold_left np_maximum rest x) = false) (x :: rest).
Proof.
  induction rest as [|y rest IH]; intros x Hx Hrest.
  - cbn. split; [exact Hx|]. constructor; [apply fgt_irrefl | constructor].
  - inversion Hrest as [|? ? Hy Hrest']; subst.
    destruct (np_maximum_finite x y Hx Hy) as (Hm & Hxm & Hym).
    destruct (IH (np_maximum x y) Hm Hrest') as (Hfin & Hall).
    cbn [fold_left]. split; [exact Hfin|].
    inversion Hall as [|? ? Hm' Hall']; subst.
    constructor; [|constructor; [|exact Hall']].
    + exact (fle_trans _ _ _ Hm Hxm Hm').
    + exact (fle_trans _ _ _ Hm Hym Hm').
Qed.

Lemma np_amax_upper (a : list T) (m : T) :
  Forall finite a -> np_amax a = Ok m ->
  finite m /\ Forall (fun y => fgt y m = false) a.
Proof.
  destruct a as [|x rest]; [discriminate|].
  intros Hfin [= <-]. inversion Hfin; subst.
  apply fold_maximum_upper; assumption.
Qed.

End NormalizeProperties.




(** ** Streaming: [AudioStream.stream_audio] *)

Lemma calm_S (n : nat) (ev : env_event) (rest : list env_event) :
  calm (S n) (ev :: rest) -> ev = EnvNone /\ calm n rest.
Proof. unfold calm. cbn [firstn]. intros H. inversion H; auto. Qed.

Lemma calm_hd_tl (n : nat) (schedule : list env_event) :
  calm (S n) schedule -> hd EnvNone schedule = EnvNone /\ calm n (tl schedule).
Proof.
  destruct schedule as [|ev rest].
  - intros _. split; [reflexivity|]. unfold calm. destruct n; constructor.
  - apply calm_S.
Qed.

Lemma suspend_calm (n : nat) (c : Stream.Conn) :
  calm (S n) (Stream.pending c) ->
  Stream.suspend c
  = {| Stream.stream := Stream.stream c; Stream.websocket := Stream.websocket c;
       Stream.pending := tl (Stream.pending c) |}
  /\ calm n (tl (Stream.pending c)).
Proof.
  intros H. apply calm_hd_tl in H as [Hhd Htl]. unfold Stream.suspend.
  rewrite Hhd. split; [reflexivity | exact Htl].
Qed.

Lemma send_connected (f : frame) (c : Stream.Conn) :
  application_state (Stream.websocket c) = CONNECTED ->
  client_gone (Stream.websocket c) = false ->
  Stream.send f c
  = (Ok tt, {| Stream.stream := Stream.stream c;
               Stream.websocket := push_frame f (Stream.websocket c);
               Stream.pending := Stream.pending c |}).
Proof.
  intros Hst Hgone. unfold Stream.send, ws_send. rewrite Hst, Hgone.
  reflexivity.
Qed.

Lemma send_chunks_calm (chunks : list bytes) :
  forall c : Stream.Conn,
    Stream._active (Stream.stream c) = true ->
    application_state (Stream.websocket c) = CONNECTED ->
    client_gone (Stream.websocket c) = false ->
    calm (length chunks) (Stream.pending c) ->
    exists c',
      Stream.send_chunks chunks c = (Ok tt, c')
      /\ Stream.stream c' = Stream.stream c
      /\ application_state (Stream.websocket c') = CONNECTED
      /\ client_gone (Stream.websocket c') = false
      /\ sent (Stream.websocket c')
         = sent (Stream.websocket c) ++ map Binary chunks.
Proof.
  induction chunks as [|chunk rest IH]; intros c Hact Hst Hgone Hcalm.
  - exists c. cbn. rewrite app_nil_r. auto.
  - cbn [Stream.send_chunks]. rewrite Hact. cbn [negb].
    rewrite (send_connected _ _ Hst Hgone).
    cbn [length] in Hcalm.
    match goal with |- context [Stream.suspend ?c1] =>
      destruct (suspend_calm (length rest) c1 Hcalm) as [Hs Hcalm'];
      rewrite Hs; clear Hs
    end.
    cbn [Stream.stream Stream.websocket Stream.pending] in *.
    match goal with |- context [Stream.send_chunks rest ?c2] =>
      destruct (IH c2) as (c' & Hrun & Hstream & Hst' & Hgone' & Hsent);
        [exact Hact | exact Hst | exact Hgone | exact Hcalm' |]
    end.
    exists c'. rewrite Hrun. repeat split; try assumption.
    rewrite Hsent. cbn. rewrite <- app_assoc. reflexivity.
Qed.

Section StreamProperties.
Context {T : Type} {NP : NpScalar T}.
Variable tts_model : TTSModel T.

(** When the stream is active, the transport is connected, the generator
    yields [chunks], and during the operation no other task closes the
    stream and the peer stays, [stream_audio] returns normally and has sent
    the chunks and the [end] frame. *)
Lemma stream_audio_calm
    (text voice : json) (speed : Q) (c : Stream.Conn) (chunks : list bytes) :
  Stream._active (Stream.stream c) = true ->
  application_state (Stream.websocket c) = CONNECTED ->
  client_gone (Stream.websocket c) = false ->
  calm (S (length chunks)) (Stream.pending c) ->
  generate_speech_stream tts_model text voice speed "en"
    (Some (Stream.chunk_size (Stream.config (Stream.stream c)))) = Ok chunks ->
  exists c',
    Stream.stream_audio tts_model text voice speed c = (Ok tt, c')
    /\ sent (Stream.websocket c')
       = sent (Stream.websocket c) ++ map Binary chunks ++ [end_frame]
    /\ Stream._active (Stream.stream c') = true
    /\ application_state (Stream.websocket c') = CONNECTED.
Proof.
  intros Hact Hst Hgone Hcalm Hgen.
  unfold Stream.stream_audio, Stream.stream_audio_body. rewrite Hgen.
  destruct (suspend_calm _ _ Hcalm) as [Hs Hcalm']. rewrite Hs. clear Hs.
  match goal with |- context [Stream.send_chunks chunks ?c1] =>
    destruct (send_chunks_calm chunks c1)
      as (c2 & Hrun & Hstream & Hst2 & Hgone2 & Hsent);
      [exact Hact | exact Hst | exact Hgone | exact Hcalm' |]
  end.
  rewrite Hrun. cbn [Stream.stream Stream.websocket] in *.
  rewrite Hstream, Hact. rewrite (send_connected _ _ Hst2 Hgone2).
  eexists. split; [reflexivity|].
  cbn [Stream.stream Stream.websocket push_frame sent application_state].
  rewrite Hsent, Hstream, <- app_assoc. auto.
Qed.

Lemma close_inactive (self : Stream.AudioStream) (ws : WebSocket) :
  Stream._active (fst (Stream.close self ws)) = false
  /\ sent (snd (Stream.close self ws)) = sent ws.
Proof.
  unfold Stream.close, ws_close. cbn [fst snd Stream._active].
  split; [reflexivity|].
  destruct (application_state ws); destruct (client_gone ws); reflexivity.
Qed.

Lemma suspend_inactive (c : Stream.Conn) :
  Stream._active (Stream.stream c) = false ->
  Stream._active (Stream.stream (Stream.suspend c)) = false
  /\ sent (Stream.websocket (Stream.suspend c)) = sent (Stream.websocket c).
Proof.
  intros Hact. unfold Stream.suspend, Stream.interfere.
  destruct (hd EnvNone (Stream.pending c)).
  - cbn. auto.
  - pose proof (close_inactive (Stream.stream c) (Stream.websocket c)) as H.
    destruct (Stream.close (Stream.stream c) (Stream.websocket c)). exact H.
  - cbn. auto.
Qed.

Lemma close_conn_inactive (c : Stream.Conn) :
  Stream._active (Stream.stream (Stream.close_conn c)) = false
  /\ sent (Stream.websocket (Stream.close_conn c)) = sent (Stream.websocket c).
Proof.
  unfold Stream.close_conn.
  pose proof (close_inactive (Stream.stream c) (Stream.websocket c)) as H.
  destruct (Stream.close (Stream.stream c) (Stream.websocket c)). exact H.
Qed.

Lemma send_chunks_inactive (chunks : list bytes) (c : Stream.Conn) :
  Stream._active (Stream.stream c) = false ->
  Stream.send_chunks chunks c = (Ok tt, c).
Proof.
  intros Hact. destruct chunks; cbn [Stream.send_chunks]; [reflexivity|].
  rewrite Hact. reflexivity.
Qed.

Lemma send_ok (f : frame) (c c' : Stream.Conn) :
  Stream.send f c = (Ok tt, c') ->
  sent (Stream.websocket c') = sent (Stream.websocket c) ++ [f]
  /\ Stream.stream c' = Stream.stream c.
Proof.
  unfold Stream.send, ws_send.
  destruct (application_state (Stream.websocket c));
    [|destruct (client_gone (Stream.websocket c))|];
    intros [= <-]; split; reflexivity.
Qed.

Lemma suspend_sent (c : Stream.Conn) :
  sent (Stream.websocket (Stream.suspend c)) = sent (Stream.websocket c).
Proof.
  unfold Stream.suspend, Stream.interfere.
  destruct (hd EnvNone (Stream.pending c)); try reflexivity.
  pose proof (close_inactive (Stream.stream c) (Stream.websocket c)) as [_ H].
  destruct (Stream.close (Stream.stream c) (Stream.websocket c)). exact H.
Qed.

(** A loop that ends with the stream active has sent every chunk. *)
Lemma send_chunks_active (chunks : list bytes) :
  forall c c' : Stream.Conn,
    Stream.send_chunks chunks c = (Ok tt, c') ->
    Stream._active (Stream.stream c') = true ->
    sent (Stream.websocket c')
    = sent (Stream.websocket c) ++ map Binary chunks.
Proof.
  induction chunks as [|chunk rest IH]; intros c c' Hrun Hact.
  - injection Hrun as <-. cbn. rewrite app_nil_r. reflexivity.
  - cbn [Stream.send_chunks] in Hrun.
    destruct (Stream._active (Stream.stream c)) eqn:Hc; cbn [negb] in Hrun;
      [|injection Hrun as <-; congruence].
    destruct (Stream.send (Binary chunk) c) as [[[]|e] c1] eqn:Hsend;
      [|discriminate].
    apply send_ok in Hsend as [Hsent _].
    rewrite (IH _ _ Hrun Hact), suspend_sent, Hsent. cbn.
    rewrite <- app_assoc. reflexivity.
Qed.

Lemma stream_audio_inactive (text voice : json) (speed : Q) (c : Stream.Conn) :
  Stream._active (Stream.stream c) = false ->
  Stream._active
    (Stream.stream (snd (Stream.stream_audio tts_model text voice speed c)))
  = false
  /\ sent (Stream.websocket
             (snd (Stream.stream_audio tts_model text voice speed c)))
     = sent (Stream.websocket c).
Proof.
  intros Hact. destruct (suspend_inactive c Hact) as [Hact1 Hsent1].
  unfold Stream.stream_audio, Stream.stream_audio_body.
  destruct (generate_speech_stream _ _ _ _ _ _) as [chunks|e].
  - rewrite (send_chunks_inactive _ _ Hact1), Hact1. cbn [snd]. auto.
  - destruct (is_Exception e); cbn [snd]; [|auto].
    destruct (close_conn_inactive (Stream.suspend c)) as [H1 H2].
    rewrite H1, H2. auto.
Qed.

(** C5.  Every [stream_audio] call that returns normally with the stream
    still active has sent, after what was sent before, exactly the chunks the
    generator yielded as binary frames in the generator's order, followed by
    the one [end] frame.  And such calls exist: when the stream is active,
    the transport is connected, the generator yields [chunks], and during
    the operation no other task closes the stream and the peer stays, the
    call returns normally with the stream still active. *)
Theorem C5_chunks_in_order_then_end
    (text voice : json) (speed : Q) (c : Stream.Conn) :
  (forall c' : Stream.Conn,
      Stream.stream_audio tts_model text voice speed c = (Ok tt, c') ->
      Stream._active (Stream.stream c') = true ->
      exists chunks : list bytes,
        generate_speech_stream tts_model text voice speed "en"
          (Some (Stream.chunk_size (Stream.config (Stream.stream c))))
          = Ok chunks
        /\ sent (Stream.websocket c')
           = sent (Stream.websocket c) ++ map Binary chunks ++ [end_frame])
  /\ (forall chunks : list bytes,
        Stream._active (Stream.stream c) = true ->
        application_state (Stream.websocket c) = CONNECTED ->
        client_gone (Stream.websocket c) = false ->
        calm (S (length chunks)) (Stream.pending c) ->
        generate_speech_stream tts_model text voice speed "en"
          (Some (Stream.chunk_size (Stream.config (Stream.stream c))))
          = Ok chunks ->
        exists c' : Stream.Conn,
          Stream.stream_audio tts_model text voice speed c = (Ok tt, c')
          /\ sent (Stream.websocket c')
             = sent (Stream.websocket c) ++ map Binary chunks ++ [end_frame]
          /\ Stream._active (Stream.stream c') = true
          /\ application_state (Stream.websocket c') = CONNECTED).
Proof.
  split; [|intros chunks; apply stream_audio_calm].
  intros c' Hrun Hact.
  unfold Stream.stream_audio, Stream.stream_audio_body in Hrun.
  destruct (generate_speech_stream _ _ _ _ _ _) as [chunks|e].
  2:{ destruct (is_Exception e); discriminate. }
  exists chunks. split; [reflexivity|].
  destruct (Stream.send_chunks chunks (Stream.suspend c)) as [[[]|e] c2] eqn:Hloop.
  2:{ destruct (is_Exception e); discriminate. }
  destruct (Stream._active (Stream.stream c2)) eqn:Hc2.
  - destruct (Stream.send end_frame c2) as [[[]|e] c3] eqn:Hend.
    2:{ destruct (is_Exception e); discriminate. }
    injection Hrun as <-. apply send_ok in Hend as [Hsent _].
    rewrite Hsent, (send_chunks_active _ _ _ Hloop Hc2), suspend_sent.
    rewrite <- app_assoc. reflexivity.
  - injection Hrun as <-. congruence.
Qed.

(** The streaming calls made one after the other on a connection. *)
Lemma stream_audio_calls_inactive (calls : list (json * json * Q)) :
  forall c : Stream.Conn,
    Stream._active (Stream.stream c) = false ->
    sent (Stream.websocket
            (fold_left
               (fun c '(text, voice, speed) =>
                  snd (Stream.stream_audio tts_model text voice speed c))
               calls c))
    = sent (Stream.websocket c).
Proof.
  induction calls as [|[[text voice] speed] calls IH]; intros c Hact;
    [reflexivity|].
  cbn [fold_left].
  destruct (stream_audio_inactive text voice speed c Hact) as [H1 H2].
  rewrite IH by exact H1. exact H2.
Qed.

(** C9.  Once [close] has run on a stream, whatever state the stream and
    its transport were in, every later [stream_audio] call on it, whatever
    the engine yields or raises and whatever the other tasks do, leaves the
    frames sent on the transport as they were: neither an audio frame nor
    the [end] frame is added. *)
Theorem C9_closed_stream_sends_nothing
    (c : Stream.Conn) (calls : list (json * json * Q)) :
  sent (Stream.websocket
          (fold_left
             (fun c '(text, voice, speed) =>
                snd (Stream.stream_audio tts_model text voice speed c))
             calls (Stream.close_conn c)))
  = sent (Stream.websocket c).
Proof.
  destruct (close_conn_inactive c) as [Hact Hsent].
  rewrite stream_audio_calls_inactive by exact Hact. exact Hsent.
Qed.

End StreamProperties.

(** The sample model streams its two chunks over the open connection. *)
Lemma C5_sample_stream :
  exists c',
    Stream.stream_audio sample_model (JStr "hello") (JStr "default") 1 open_conn
      = (Ok tt, c')
    /\ sent (Stream.websocket c')
       = sent (Stream.websocket open_conn)
         ++ map Binary sample_chunks ++ [end_frame]
    /\ Stream._active (Stream.stream c') = true
    /\ application_state (Stream.websocket c') = CONNECTED.
Proof.
  apply (proj2 (C5_chunks_in_order_then_end sample_model
                  (JStr "hello") (JStr "default") 1 open_conn) sample_chunks);
    [reflexivity | reflexivity | reflexivity | constructor | reflexivity].
Defined.

(** ** The handler: replies *)

Lemma set_websocket_same (h : Handler.WSMessageHandler) :
  Handler.set_websocket (Handler.websocket h) h = h.
Proof. destruct h. reflexivity. Qed.

Lemma send_json_connected (f : frame) (h : Handler.WSMessageHandler) :
  application_state (Handler.websocket h) = CONNECTED ->
  client_gone (Handler.websocket h) = false ->
  Handler.send_json f h = (Ok tt, reply f h).
Proof.
  intros Hst Hgone. unfold Handler.send_json, ws_send, reply.
  rewrite Hst, Hgone. reflexivity.
Qed.

Lemma send_json_disconnected (f : frame) (h : Handler.WSMessageHandler) :
  application_state (Handler.websocket h) = DISCONNECTED ->
  exists e, Handler.send_json f h = (Raise e, h) /\ is_Exception e = true.
Proof.
  intros Hst. unfold Handler.send_json, ws_send. rewrite Hst.
  rewrite set_websocket_same. eexists. split; reflexivity.
Qed.

Lemma send_error_connected (message : string) (h : Handler.WSMessageHandler) :
  application_state (Handler.websocket h) = CONNECTED ->
  client_gone (Handler.websocket h) = false ->
  Handler._send_error message h = (Ok tt, reply (error_frame message) h).
Proof.
  intros Hst Hgone. unfold Handler._send_error, Handler.try_except.
  rewrite send_json_connected by assumption. reflexivity.
Qed.

Lemma send_success_connected (message : string) (h : Handler.WSMessageHandler) :
  application_state (Handler.websocket h) = CONNECTED ->
  client_gone (Handler.websocket h) = false ->
  Handler._send_success message h = (Ok tt, reply (success_frame message) h).
Proof.
  intros Hst Hgone. unfold Handler._send_success, Handler.try_except.
  rewrite send_json_connected by assumption. reflexivity.
Qed.

Lemma send_error_disconnected (message : string) (h : Handler.WSMessageHandler) :
  application_state (Handler.websocket h) = DISCONNECTED ->
  Handler._send_error message h = (Ok tt, h).
Proof.
  intros Hst. unfold Handler._send_error, Handler.try_except.
  destruct (send_json_disconnected (error_frame message) h Hst) as (e & -> & ->).
  reflexivity.
Qed.

Lemma send_success_disconnected (message : string) (h : Handler.WSMessageHandler) :
  application_state (Handler.websocket h) = DISCONNECTED ->
  Handler._send_success message h = (Ok tt, h).
Proof.
  intros Hst. unfold Handler._send_success, Handler.try_except.
  destruct (send_json_disconnected (success_frame message) h Hst) as (e & -> & ->).
  reflexivity.
Qed.

Lemma ws_send_raises_Exception (f : frame) (ws : WebSocket) (e : exn) (ws' : WebSocket) :
  ws_send f ws = (Raise e, ws') -> is_Exception e = true.
Proof.
  unfold ws_send.
  destruct (application_state ws); [|destruct (client_gone ws)|];
    intros [= <- _]; reflexivity.
Qed.

Lemma send_error_returns (message : string) (h : Handler.WSMessageHandler) :
  exists h', Handler._send_error message h = (Ok tt, h').
Proof.
  unfold Handler._send_error, Handler.try_except, Handler.send_json.
  destruct (ws_send _ _) as [[[]|e] ws'] eqn:E; [eauto|].
  rewrite (ws_send_raises_Exception _ _ _ _ E). cbn. eauto.
Qed.

Lemma send_success_returns (message : string) (h : Handler.WSMessageHandler) :
  exists h', Handler._send_success message h = (Ok tt, h').
Proof.
  unfold Handler._send_success, Handler.try_except, Handler.send_json.
  destruct (ws_send _ _) as [[[]|e] ws'] eqn:E; [eauto|].
  rewrite (ws_send_raises_Exception _ _ _ _ E). cbn. eauto.
Qed.


Section HandlerProperties.
Context {T : Type} {NP : NpScalar T}.
Variable tts_model : TTSModel T.
Variable float_of_string : string -> option Q.




End HandlerProperties.



(** ** The handler: synthesis requests *)

Lemma ws_close_disconnected (ws : WebSocket) :
  application_state (snd (ws_close ws)) = DISCONNECTED.
Proof.
  unfold ws_close.
  destruct (application_state ws) eqn:E; destruct (client_gone ws);
    cbn; auto.
Qed.

Lemma close_conn_disconnected (c : Stream.Conn) :
  application_state (Stream.websocket (Stream.close_conn c)) = DISCONNECTED.
Proof.
  unfold Stream.close_conn, Stream.close. cbn. apply ws_close_disconnected.
Qed.

Section SynthesisProperties.
Context {T : Type} {NP : NpScalar T}.
Variable tts_model : TTSModel T.
Variable float_of_string : string -> option Q.

(** How [_handle_message] goes on a message that creates a synthesis
    task. *)
Lemma handle_synthesis_request (message : json)
    (h h1 : Handler.WSMessageHandler) (text voice : json) (speed : Q) :
  Handler.synthesis_request float_of_string message h
    = Some (h1, (text, voice, speed)) ->
  exists self,
    Handler.stream h = Some self /\ h1 = h
    /\ Handler._handle_message tts_model float_of_string message h
       = match Handler.run_synthesis_task tts_model self text voice speed h with
         | (Ok _, h') => (Ok tt, h')
         | (Raise e, h') =>
             if is_Exception e
             then Handler._send_error "Synthesis failed" h'
             else (Raise e, h')
         end.
Proof.
  unfold Handler.synthesis_request, Handler._handle_message,
    Handler._handle_synthesis, Handler.synthesis_arguments,
    Handler.try_except, Handler.bind, Handler.lift, Handler.raise, Handler.ret.
  destruct (dict_get message "type" JNull) as [ty|]; [|discriminate].
  destruct (json_eq_str ty "synthesize"); [|discriminate].
  destruct (Handler.stream h) as [self|]; [|discriminate].
  destruct (dict_get message "text" JNull) as [txt|]; [|discriminate].
  destruct (py_truthy txt); cbn [negb].
  2:{ destruct (Handler._send_error "No text provided" h) as [[|] ?];
      discriminate. }
  destruct (dict_get message "voice" (JStr "default")) as [v|]; [|discriminate].
  destruct (dict_get message "speed" (JFloat 1)) as [sv|]; [|discriminate].
  destruct (Handler.py_float float_of_string sv) as [sp|]; [|discriminate].
  intros [= <- <- <- <-]. exists self. split; [reflexivity|].
  split; [reflexivity|].
  destruct (Handler.run_synthesis_task tts_model self txt v sp h)
    as [[[]|e] h']; [reflexivity|].
  destruct (is_Exception e) eqn:E; [|rewrite E; reflexivity].
  destruct (send_error_returns "Synthesis failed" h') as [h'' ->].
  reflexivity.
Qed.

(** C2, amended.  When the generator of a synthesis request raises, the
    stream is closed: its flag is cleared and the transport is
    disconnected.  [_handle_message] returns normally, the handler's own
    flag is as it was, and the consumer goes on with the rest of the
    queue. *)
Theorem C2_engine_failure_closes_stream
    (message : json) (h h1 : Handler.WSMessageHandler)
    (text voice : json) (speed : Q) (self : Stream.AudioStream) (e : exn) :
  Handler.synthesis_request float_of_string message h
    = Some (h1, (text, voice, speed)) ->
  Handler.stream h = Some self ->
  generate_speech_stream tts_model text voice speed "en"
    (Some (Stream.chunk_size (Stream.config self))) = Raise e ->
  is_Exception e = true ->
  exists (h' : Handler.WSMessageHandler) (self' : Stream.AudioStream),
    Handler._handle_message tts_model float_of_string message h = (Ok tt, h')
    /\ Handler.stream h' = Some self'
    /\ Stream._active self' = false
    /\ application_state (Handler.websocket h') = DISCONNECTED
    /\ Handler._active h' = Handler._active h
    /\ (forall (h0 : Handler.WSMessageHandler) (queue : list json),
          h = Handler.set_message_queue queue h0 ->
          Handler._active h0 = true ->
          Handler.drain tts_model float_of_string (message :: queue) h0
          = Handler.drain tts_model float_of_string queue h').
Proof.
  intros Hreq Hstream Hgen He.
  destruct (handle_synthesis_request _ _ _ _ _ _ Hreq)
    as (self0 & Hstream0 & _ & Hrun).
  rewrite Hstream in Hstream0. injection Hstream0 as <-.
  unfold Handler.run_synthesis_task, Stream.stream_audio,
    Stream.stream_audio_body in Hrun.
  cbn [Handler.conn_of Stream.stream] in Hrun.
  rewrite Hgen, He in Hrun. cbn [is_Exception] in Hrun.
  match type of Hrun with
  | _ = Handler._send_error _ ?h3 =>
      set (h' := h3) in *;
      assert (Hst : application_state (Handler.websocket h') = DISCONNECTED)
        by apply close_conn_disconnected
  end.
  rewrite (send_error_disconnected _ _ Hst) in Hrun.
  exists h'. eexists. split; [exact Hrun|].
  split; [reflexivity|]. split; [|split; [exact Hst|split; [reflexivity|]]].
  - apply close_conn_inactive.
  - intros h0 queue -> Hact. cbn [Handler.drain]. rewrite Hact. cbn [negb].
    rewrite Hrun. reflexivity.
Qed.

End SynthesisProperties.

(** The failing model on the sample session. *)
Lemma C2_sample_engine_failure :
  exists (h' : Handler.WSMessageHandler) (self' : Stream.AudioStream),
    Handler._handle_message failing_model no_float_of_string
      synthesize_hello sample_handler = (Ok tt, h')
    /\ Handler.stream h' = Some self'
    /\ Stream._active self' = false
    /\ application_state (Handler.websocket h') = DISCONNECTED
    /\ Handler._active h' = Handler._active sample_handler
    /\ (forall (h0 : Handler.WSMessageHandler) (queue : list json),
          sample_handler = Handler.set_message_queue queue h0 ->
          Handler._active h0 = true ->
          Handler.drain failing_model no_float_of_string
            (synthesize_hello :: queue) h0
          = Handler.drain failing_model no_float_of_string queue h').
Proof.
  apply (C2_engine_failure_closes_stream failing_model no_float_of_string
           synthesize_hello sample_handler sample_handler
           (JStr "hello") (JStr "default") 1%Q
           (Stream.stream open_conn)
           (ModelError "Speech streaming failed"));
    reflexivity.
Defined.

(** C2 as stated fails: on the open sample session, whose engine raises,
    handling the request leaves the transport disconnected and the stream's
    flag cleared, and no frame has been sent to the client. *)
Lemma C2_engine_failure_closes_session :
  _model_tts failing_model
    {| tts_text := JStr "hello"; tts_speaker_wav := None;
       tts_language := None; tts_speed := 1 |}
  = Raise (RuntimeError "CUDA out of memory")
  /\ application_state (Handler.websocket sample_handler) = CONNECTED
  /\ (let h' := snd (Handler._handle_message failing_model no_float_of_string
                       synthesize_hello sample_handler) in
      application_state (Handler.websocket h') = DISCONNECTED
      /\ option_map Stream._active (Handler.stream h') = Some false
      /\ sent (Handler.websocket h') = []).
Proof. repeat split. Qed.

(** ** Admission *)

Lemma create_stream_fresh (g : Globals) :
  exists stream ws,
    StreamManager.create_stream fresh_websocket g
    = (Ok stream, ws,
       {| settings := settings g;
          _streams := <[uuid g := (stream, ws)]> (_streams g);
          _active_connections := _active_connections g;
          uuid := S (uuid g) |})
    /\ Stream.session_id stream = uuid g
    /\ application_state ws = CONNECTED.
Proof.
  unfold StreamManager.create_stream. cbn. eexists. eexists.
  split; [reflexivity|]. split; reflexivity.
Qed.

Lemma endpoint_open_fresh (g : Globals) :
  exists stream ws h,
    Handler.websocket_endpoint_open fresh_websocket [] g
    = (Ok tt,
       {| settings := settings g;
          _streams := <[S (uuid g) := (stream, ws)]> (_streams g);
          _active_connections := _active_connections g;
          uuid := S (S (uuid g)) |},
       h).
Proof.
  unfold Handler.websocket_endpoint_open, Handler.new, Handler.initialize.
  cbn. eexists. eexists. eexists. reflexivity.
Qed.

Lemma endpoint_open_grows (g : Globals) :
  ids_drawn g ->
  let g' := snd (fst (Handler.websocket_endpoint_open fresh_websocket [] g)) in
  ids_drawn g'
  /\ settings g' = settings g
  /\ StreamManager.active_streams g' = S (StreamManager.active_streams g).
Proof.
  intros Hids. destruct (endpoint_open_fresh g) as (stream & ws & h & ->).
  cbn [fst snd]. unfold StreamManager.active_streams, ids_drawn in *.
  cbn [_streams uuid settings]. split; [|split; [reflexivity|]].
  - intros k Hk. destruct (decide (k = S (uuid g))) as [->|Hne]; [lia|].
    rewrite lookup_insert_ne in Hk by congruence.
    specialize (Hids k Hk). lia.
  - apply map_size_insert_None.
    destruct (_streams g !! S (uuid g)) eqn:E; [|reflexivity].
    assert (S (uuid g) < uuid g)%nat by (apply Hids; eauto). lia.
Qed.

Lemma open_endpoints_count (settings0 : Settings) (n : nat) :
  let g := open_endpoints n (initial_globals settings0) in
  ids_drawn g /\ settings g = settings0 /\ StreamManager.active_streams g = n.
Proof.
  induction n as [|n IH].
  - cbn. split; [|split; reflexivity].
    intros k [v Hk]. cbn in Hk. rewrite lookup_empty in Hk. discriminate.
  - cbn [open_endpoints]. cbv zeta in IH. destruct IH as (Hids & Hset & Hsize).
    destruct (endpoint_open_grows _ Hids) as (Hids' & Hset' & Hsize').
    split; [exact Hids'|]. split; congruence.
Qed.

(** C1 fails on the code.  After as many clients as the capacity allows
    have connected to the endpoint, the registry is at capacity and
    [validate_connection_limit] refuses; one more client connecting to the
    endpoint is admitted all the same, and the registry then holds one
    stream more than [MAX_CONNECTIONS]. *)
Theorem C1_endpoint_admission_ignores_capacity (settings0 : Settings) :
  let g := open_endpoints (MAX_CONNECTIONS settings0) (initial_globals settings0) in
  StreamManager.active_streams g = MAX_CONNECTIONS settings0
  /\ (exists e, validate_connection_limit g = Raise e)
  /\ exists h g',
       Handler.websocket_endpoint_open fresh_websocket [] g = (Ok tt, g', h)
       /\ StreamManager.active_streams g' = S (MAX_CONNECTIONS settings0).
Proof.
  cbv zeta.
  destruct (open_endpoints_count settings0 (MAX_CONNECTIONS settings0))
    as (Hids & Hset & Hsize).
  split; [exact Hsize|]. split.
  - unfold validate_connection_limit. rewrite Hset, Hsize, Nat.leb_refl. eauto.
  - pose proof (endpoint_open_grows _ Hids) as (_ & _ & Hgrow).
    destruct (endpoint_open_fresh
                (open_endpoints (MAX_CONNECTIONS settings0)
                   (initial_globals settings0))) as (stream & ws & h & E).
    rewrite E in Hgrow |- *. cbn [fst snd] in Hgrow.
    eexists. eexists. split; [reflexivity|]. rewrite Hgrow, Hsize. reflexivity.
Qed.

Lemma connect_at_capacity (websocket : WebSocket) (g : Globals) :
  (MAX_CONNECTIONS (settings g) <= StreamManager.active_streams g)%nat ->
  WebSocketManager.connect websocket g
  = (Raise (WebSocketError "Failed to establish WebSocket connection"),
     websocket, g).
Proof.
  intros Hcap. unfold WebSocketManager.connect, validate_connection_limit.
  destruct (Nat.leb_spec (MAX_CONNECTIONS (settings g))
              (StreamManager.active_streams g)); [reflexivity | lia].
Qed.

Lemma create_stream_size (websocket : WebSocket) (g : Globals) :
  let g' := snd (StreamManager.create_stream websocket g) in
  settings g' = settings g
  /\ (StreamManager.active_streams g' <= S (StreamManager.active_streams g))%nat.
Proof.
  unfold StreamManager.create_stream, StreamManager.active_streams.
  cbn [uuid4]. destruct (Stream.initialize _ _) as [[[[]|e] stream] ws];
    cbn [snd settings _streams set_streams]; [|split; [reflexivity | lia]].
  split; [reflexivity|]. rewrite map_size_insert.
  destruct (_ !! _); cbn; lia.
Qed.

Lemma registry_step_capacity (g : Globals) (call : registry_call) :
  (StreamManager.active_streams g <= MAX_CONNECTIONS (settings g))%nat ->
  settings (registry_step g call) = settings g
  /\ (StreamManager.active_streams (registry_step g call)
      <= MAX_CONNECTIONS (settings g))%nat.
Proof.
  intros Hcap. destruct call as [websocket|id]; cbn [registry_step].
  - unfold WebSocketManager.connect, validate_connection_limit.
    destruct (Nat.leb_spec (MAX_CONNECTIONS (settings g))
                (StreamManager.active_streams g)) as [Hfull|Hroom].
    + cbn. auto.
    + pose proof (create_stream_size websocket g) as Hsize. cbv zeta in Hsize.
      destruct (StreamManager.create_stream websocket g) as [[[stream|e] ws] g'];
        cbn [snd] in *.
      * unfold StreamManager.active_streams in *. cbn. split; [tauto|lia].
      * destruct (is_Exception e); cbn [snd]; split; try tauto; lia.
  - unfold WebSocketManager.disconnect, StreamManager.remove_stream.
    destruct (_active_connections g !! id); [|auto].
    destruct (_streams g !! id) as [[stream ws]|] eqn:E; [|cbn; auto].
    unfold StreamManager.active_streams in *. cbn. split; [reflexivity|].
    rewrite map_size_delete, E. cbn. lia.
Qed.

(** A call of [connect] with nothing between its two parts is
    [WebSocketManager.connect]. *)
Lemma connect_in_two_parts (websocket : WebSocket) (g : Globals) :
  registry (fold_left connect_step
              [ConnectBegins websocket; ConnectResumes 0] (quiescent g))
  = snd (WebSocketManager.connect websocket g).
Proof.
  cbn [fold_left connect_step quiescent registry suspended].
  unfold WebSocketManager.connect, WebSocketManager.connect_begin.
  destruct (validate_connection_limit g) as [ok|e].
  - unfold StreamManager.create_stream, WebSocketManager.connect_resume.
    cbn [uuid4 app registry suspended lookup list_lookup].
    destruct (Stream.initialize _ websocket) as [[[[]|e] stream] ws].
    + reflexivity.
    + destruct (is_Exception e); reflexivity.
  - destruct (is_Exception e); reflexivity.
Qed.

(** While the registry is empty every call passes the capacity check. *)
Lemma connects_begin_on_empty (settings0 : Settings) (n : nat) :
  (0 < MAX_CONNECTIONS settings0)%nat ->
  forall (u : nat) (calls : list (Stream.AudioStream * WebSocket)),
    fold_left connect_step (repeat (ConnectBegins fresh_websocket) n)
      {| registry := {| settings := settings0; _streams := ∅;
                        _active_connections := ∅; uuid := u |};
         suspended := calls |}
    = {| registry := {| settings := settings0; _streams := ∅;
                        _active_connections := ∅; uuid := (u + n)%nat |};
         suspended :=
           calls ++ map (fun i => (Stream.new settings0 i, fresh_websocket))
                        (seq u n) |}.
Proof.
  intros Hmax. induction n as [|n IH]; intros u calls.
  - cbn. rewrite app_nil_r, Nat.add_0_r. reflexivity.
  - cbn [repeat fold_left connect_step registry suspended].
    unfold WebSocketManager.connect_begin, validate_connection_limit,
      StreamManager.active_streams.
    cbn [settings _streams]. rewrite map_size_empty.
    destruct (Nat.leb_spec (MAX_CONNECTIONS settings0) 0) as [Hle|_]; [lia|].
    cbn [uuid4 settings uuid]. rewrite IH.
    cbn [seq map]. rewrite <- app_assoc. cbn [app].
    replace (S u + n)%nat with (u + S n)%nat by lia. reflexivity.
Qed.

(** Each suspended call that resumes registers its stream. *)
Lemma connects_resume (settings0 : Settings) (n : nat) :
  forall (u : nat) (g : Globals),
    (forall k : nat, is_Some (_streams g !! k) -> (k < u)%nat) ->
    StreamManager.active_streams
      (registry
         (fold_left connect_step (repeat (ConnectResumes 0) n)
            {| registry := g;
               suspended :=
                 map (fun i => (Stream.new settings0 i, fresh_websocket))
                     (seq u n) |}))
    = (StreamManager.active_streams g + n)%nat.
Proof.
  induction n as [|n IH]; intros u g Hids.
  - cbn. lia.
  - cbn [repeat fold_left connect_step seq map suspended registry
         lookup list_lookup delete list_delete].
    unfold WebSocketManager.connect_resume.
    cbn [Stream.initialize ws_accept fresh_websocket application_state
         client_gone snd Stream.session_id Stream.set_ping_task Stream.new].
    rewrite IH.
    + unfold StreamManager.active_streams.
      cbn [_streams set_streams set_active_connections].
      rewrite map_size_insert_None; [lia|].
      destruct (_streams g !! u) eqn:E; [|reflexivity].
      assert (u < u)%nat by (apply Hids; eauto). lia.
    + intros k. cbn [_streams set_streams set_active_connections].
      destruct (decide (k = u)) as [->|Hne]; [lia|].
      rewrite lookup_insert_ne by congruence.
      intros Hk. specialize (Hids k Hk). lia.
Qed.

(** [WebSocketManager.connect] keeps the registry within its capacity for
    calls that do not overlap, and only for those.  After every sequence of
    [connect] and [disconnect] calls, each run to its end before the next,
    the number of registered streams is at most [MAX_CONNECTIONS], and a
    [connect] on a registry at capacity is refused and leaves the registry
    as it was.  But [connect] is suspended in the handshake between its
    capacity check and the registration: when one call more than the
    capacity allows starts before any of them resumes, every call passes
    the check, and the registry ends with one stream more than
    [MAX_CONNECTIONS]. *)
Theorem connect_capacity_without_overlap
    (settings0 : Settings) (calls : list registry_call) :
  let g := fold_left registry_step calls (initial_globals settings0) in
  (StreamManager.active_streams g <= MAX_CONNECTIONS settings0)%nat
  /\ (forall websocket : WebSocket,
        StreamManager.active_streams g = MAX_CONNECTIONS settings0 ->
        WebSocketManager.connect websocket g
        = (Raise (WebSocketError "Failed to establish WebSocket connection"),
           websocket, g))
  /\ (forall (websocket : WebSocket) (g0 : Globals),
        registry (fold_left connect_step
                    [ConnectBegins websocket; ConnectResumes 0] (quiescent g0))
        = registry_step g0 (Connect websocket))
  /\ ((0 < MAX_CONNECTIONS settings0)%nat ->
      StreamManager.active_streams
        (registry
           (fold_left connect_step
              (overlapping_connects (S (MAX_CONNECTIONS settings0)))
              (quiescent (initial_globals settings0))))
      = S (MAX_CONNECTIONS settings0)).
Proof.
  cbv zeta.
  assert (Hinv : forall g,
             settings g = settings0 ->
             (StreamManager.active_streams g <= MAX_CONNECTIONS settings0)%nat ->
             settings (fold_left registry_step calls g) = settings0
             /\ (StreamManager.active_streams (fold_left registry_step calls g)
                 <= MAX_CONNECTIONS settings0)%nat).
  { induction calls as [|call calls IH]; intros g Hset Hcap; [auto|].
    cbn [fold_left]. rewrite <- Hset in Hcap.
    destruct (registry_step_capacity g call Hcap) as [Hset' Hcap'].
    apply IH; congruence. }
  destruct (Hinv (initial_globals settings0)) as [Hset Hcap];
    [reflexivity | unfold StreamManager.active_streams; cbn;
                   rewrite map_size_empty; lia |].
  split; [exact Hcap|]. split; [|split].
  - intros websocket Hfull. apply connect_at_capacity. rewrite Hset. lia.
  - intros websocket g0. apply connect_in_two_parts.
  - intros Hmax. unfold overlapping_connects, quiescent, initial_globals.
    rewrite fold_left_app, (connects_begin_on_empty settings0 _ Hmax).
    cbn [app]. rewrite connects_resume.
    + unfold StreamManager.active_streams. cbn [_streams].
      rewrite map_size_empty. lia.
    + intros k [v Hk]. cbn [_streams] in Hk.
      rewrite lookup_empty in Hk. discriminate.
Qed.

(** Under the sample settings, with room for two connections: three
    overlapping calls leave three streams registered. *)
Lemma connect_capacity_without_overlap_sample :
  StreamManager.active_streams
    (registry
       (fold_left connect_step (overlapping_connects 3)
          (quiescent (initial_globals sample_settings))))
  = 3%nat.
Proof.
  apply (proj2 (proj2 (proj2
           (connect_capacity_without_overlap sample_settings [])))).
  cbn. lia.
Defined.

(** ** The interleaved session: what the handler's own coroutines send *)

Lemma extends_quietly_refl (h : Handler.WSMessageHandler) : extends_quietly h h.
Proof. exists []. rewrite app_nil_r. split; [reflexivity | constructor]. Qed.

Lemma extends_quietly_same (h h' : Handler.WSMessageHandler) :
  sent (Handler.websocket h') = sent (Handler.websocket h) ->
  extends_quietly h h'.
Proof.
  intros E. exists []. rewrite app_nil_r. split; [exact E | constructor].
Qed.

Lemma extends_quietly_trans (h1 h2 h3 : Handler.WSMessageHandler) :
  extends_quietly h1 h2 -> extends_quietly h2 h3 -> extends_quietly h1 h3.
Proof.
  intros (fs & E1 & H1) (gs & E2 & H2). exists (fs ++ gs).
  rewrite E2, E1, app_assoc. split; [reflexivity|].
  apply Forall_app; split; assumption.
Qed.

Lemma quietM_ret {A} (a : A) : quietM (Handler.ret a).
Proof. intros h r h' [= _ <-]. apply extends_quietly_refl. Qed.

Lemma quietM_raise {A} (e : exn) : quietM (@Handler.raise A e).
Proof. intros h r h' [= _ <-]. apply extends_quietly_refl. Qed.

Lemma quietM_lift {A} (r : result A) : quietM (Handler.lift r).
Proof. intros h r' h' [= _ <-]. apply extends_quietly_refl. Qed.

Lemma quietM_bind {A B} (m : Handler.M A) (k : A -> Handler.M B) :
  quietM m -> (forall a, quietM (k a)) -> quietM (Handler.bind m k).
Proof.
  intros Hm Hk h r h'. unfold Handler.bind.
  destruct (m h) as [[a|e] h1] eqn:E; intros H.
  - eapply extends_quietly_trans; [eapply Hm, E | eapply Hk, H].
  - injection H as _ <-. eapply Hm, E.
Qed.

Lemma quietM_try_except {A} (m : Handler.M A) (handler : exn -> Handler.M A) :
  quietM m -> (forall e, quietM (handler e)) ->
  quietM (Handler.try_except m handler).
Proof.
  intros Hm Hh h r h'. unfold Handler.try_except.
  destruct (m h) as [[a|e] h1] eqn:E; intros H.
  - injection H as _ <-. eapply Hm, E.
  - destruct (is_Exception e).
    + eapply extends_quietly_trans; [eapply Hm, E | eapply Hh, H].
    + injection H as _ <-. eapply Hm, E.
Qed.

Lemma quietM_send_json (f : frame) :
  is_audio f = false -> quietM (Handler.send_json f).
Proof.
  intros Hf h r h'. unfold Handler.send_json, ws_send.
  destruct (application_state (Handler.websocket h));
    [|destruct (client_gone (Handler.websocket h))|];
    intros [= _ <-]; try (apply extends_quietly_same; reflexivity).
  exists [f]. split; [reflexivity|]. constructor; [exact Hf | constructor].
Qed.

Lemma quietM_send_error (message : string) : quietM (Handler._send_error message).
Proof.
  apply quietM_try_except; [apply quietM_send_json; reflexivity|].
  intros e. apply quietM_ret.
Qed.

Lemma quietM_send_success (message : string) :
  quietM (Handler._send_success message).
Proof.
  apply quietM_try_except; [apply quietM_send_json; reflexivity|].
  intros e. apply quietM_ret.
Qed.

Lemma quietM_close_stream (self : Stream.AudioStream) :
  quietM (Handler.close_stream self).
Proof.
  intros h r h' [= _ <-]. apply extends_quietly_same.
  cbn [Handler.set_conn Handler.websocket].
  apply (close_conn_inactive (Handler.conn_of self h)).
Qed.

Lemma quietM_get_stream :
  quietM (fun h : Handler.WSMessageHandler => (Ok (Handler.stream h), h)).
Proof. intros h r h' [= _ <-]. apply extends_quietly_refl. Qed.

Lemma quietM_handle_stop : quietM Handler._handle_stop.
Proof.
  apply quietM_try_except; [|intros e; apply quietM_send_error].
  apply quietM_bind; [apply quietM_get_stream|]. intros stream.
  apply quietM_bind; [|intros _; apply quietM_send_success].
  destruct stream; [apply quietM_close_stream | apply quietM_ret].
Qed.

Lemma quietM_handle_configure (message : json) :
  quietM (Handler._handle_configure message).
Proof.
  apply quietM_try_except; [apply quietM_send_success|].
  intros e. apply quietM_send_error.
Qed.

Lemma cleanup_session_quiet (h : Handler.WSMessageHandler) :
  extends_quietly h (Handler.cleanup_session h).
Proof.
  unfold Handler.cleanup_session. cbn [Handler.set_active Handler.stream].
  destruct (Handler.stream h) as [self|].
  - eapply (quietM_close_stream self (Handler.set_active false h)).
    apply surjective_pairing.
  - apply extends_quietly_same. reflexivity.
Qed.

Lemma receive_turn_quiet (fr : Handler.received) (h h' : Handler.WSMessageHandler) :
  Handler.receive_turn fr h = Some h' -> extends_quietly h h'.
Proof.
  destruct fr; cbn [Handler.receive_turn]; intros [= <-].
  - apply extends_quietly_same. reflexivity.
  - eapply quietM_send_error. apply surjective_pairing.
Qed.

Section QuietHandling.
Context {T : Type} {NP : NpScalar T}.
Variable tts_model : TTSModel T.
Variable float_of_string : string -> option Q.

Lemma quietM_synthesis_arguments (message : json) :
  quietM (Handler.synthesis_arguments float_of_string message).
Proof.
  unfold Handler.synthesis_arguments.
  apply quietM_bind; [apply quietM_get_stream|]. intros [self|];
    [|apply quietM_raise].
  apply quietM_bind; [apply quietM_lift|]. intros text.
  destruct (negb (py_truthy text)).
  - apply quietM_bind; [apply quietM_send_error | intros _; apply quietM_ret].
  - repeat (apply quietM_bind; [apply quietM_lift|]; intros ?).
    apply quietM_ret.
Qed.

(** A message that creates no synthesis task is handled without any audio
    being sent. *)
Lemma handle_message_quiet (message : json) (h : Handler.WSMessageHandler) :
  Handler.synthesis_request float_of_string message h = None ->
  extends_quietly h
    (snd (Handler._handle_message tts_model float_of_string message h)).
Proof.
  intros Hreq.
  assert (Hsplit :
    forall (m : Handler.M unit),
      (forall r h', m h = (r, h') -> extends_quietly h h') ->
      extends_quietly h
        (snd (Handler.try_except m
                (fun e => Handler._send_error (str_exn e)) h))).
  { intros m Hm. unfold Handler.try_except.
    destruct (m h) as [[a|e] h1] eqn:E; cbn [snd]; [eapply Hm; reflexivity|].
    destruct (is_Exception e); cbn [snd]; [|eapply Hm; reflexivity].
    eapply extends_quietly_trans; [eapply Hm; reflexivity|].
    eapply quietM_send_error. apply surjective_pairing. }
  unfold Handler._handle_message. apply Hsplit. clear Hsplit.
  unfold Handler.synthesis_request in Hreq.
  unfold Handler.bind at 1, Handler.lift at 1.
  destruct (dict_get message "type" JNull) as [ty|e];
    [|intros r h' [= _ <-]; apply extends_quietly_refl].
  destruct (json_eq_str ty "synthesize").
  - unfold Handler._handle_synthesis, Handler.try_except, Handler.bind.
    pose proof (quietM_synthesis_arguments message h) as Hargs.
    destruct (Handler.synthesis_arguments float_of_string message h)
      as [[[[[[self text] voice] speed]|]|e] h1] eqn:E; [discriminate| |].
    + intros r h' [= _ <-]. eapply Hargs. reflexivity.
    + intros r h'. destruct (is_Exception e).
      * intros H. eapply extends_quietly_trans; [eapply Hargs; reflexivity|].
        eapply quietM_send_error, H.
      * intros [= _ <-]. eapply Hargs. reflexivity.
  - destruct (json_eq_str ty "pong"); [apply quietM_ret|].
    destruct (json_eq_str ty "stop"); [apply quietM_handle_stop|].
    destruct (json_eq_str ty "configure"); [apply quietM_handle_configure|].
    apply quietM_send_error.
Qed.

End QuietHandling.

(** ** The interleaved session: the invariant *)


Lemma emitted_app (h h' : Handler.WSMessageHandler) (fs : list frame) :
  sent (Handler.websocket h') = sent (Handler.websocket h) ++ fs ->
  Sched.emitted h h' = fs.
Proof.
  intros E. unfold Sched.emitted. rewrite E.
  rewrite skipn_app, Nat.sub_diag, skipn_all. reflexivity.
Qed.

Lemma audio_calls_app (s : Sched.state) (tr1 tr2 : list (option nat * frame)) :
  flat_map (fun p => if is_audio (snd p)
                     then match fst p with Some i => [i] | None => [] end
                     else []) (tr1 ++ tr2)
  = flat_map (fun p => if is_audio (snd p)
                       then match fst p with Some i => [i] | None => [] end
                       else []) tr1
    ++ flat_map (fun p => if is_audio (snd p)
                          then match fst p with Some i => [i] | None => [] end
                          else []) tr2.
Proof. apply flat_map_app. Qed.

Lemma sorted_constant (l : list nat) (i : nat) :
  Forall (fun j => j = i) l -> StronglySorted le l.
Proof.
  induction 1 as [|b l -> Hl IH]; constructor; [exact IH|].
  eapply List.Forall_impl; [|exact Hl]. cbn. intros j ->. lia.
Qed.

Lemma sorted_app_le (l l2 : list nat) (i : nat) :
  StronglySorted le l ->
  Forall (fun j => (j <= i)%nat) l ->
  Forall (fun j => j = i) l2 ->
  StronglySorted le (l ++ l2).
Proof.
  intros Hs Hl Hl2. induction Hs as [|a l Hs IH Ha]; cbn.
  - eapply sorted_constant, Hl2.
  - inversion Hl as [|? ? Hai Hl']; subst. constructor; [apply IH, Hl'|].
    apply Forall_app. split; [exact Ha|].
    eapply List.Forall_impl; [|exact Hl2]. cbn. intros j ->. exact Hai.
Qed.

Lemma trace_calls_bound (s : Sched.state) (n : nat) :
  Forall (fun p => forall i, fst p = Some i -> (i < n)%nat) (Sched.trace s) ->
  Forall (fun j => (j < n)%nat) (Sched.audio_calls s).
Proof.
  unfold Sched.audio_calls. induction 1 as [|[who f] tr Hp _ IH]; cbn;
    [constructor|].
  destruct (is_audio f); [|exact IH]. destruct who as [i|]; [|exact IH].
  cbn. constructor; [apply Hp; reflexivity | exact IH].
Qed.

(** The handler sends [fs], on behalf of [who]. *)
Lemma invariant_by (who : option nat) (h' : Handler.WSMessageHandler)
    (s : Sched.state) (fs : list frame) :
  session_invariant s ->
  sent (Handler.websocket h')
    = sent (Handler.websocket (Sched.handler s)) ++ fs ->
  match who with
  | None => no_audio fs
  | Some i => S i = length (Sched.synth s)
  end ->
  session_invariant (Sched.by_ who h' s).
Proof.
  intros [Htr Haud Hcalls Hsorted Hrun] Hsent Hwho.
  unfold Sched.by_. rewrite (emitted_app _ _ _ Hsent).
  constructor; cbn [Sched.trace Sched.handler Sched.synth Sched.consumer].
  - rewrite map_app, map_map, Htr, Hsent. cbn [snd]. rewrite map_id.
    reflexivity.
  - apply Forall_app. split; [exact Haud|].
    apply List.Forall_forall. intros p Hp.
    apply in_map_iff in Hp as (f & <- & Hf). cbn [fst snd].
    destruct who as [i|]; [eauto|].
    intros Ha. unfold no_audio in Hwho. rewrite List.Forall_forall in Hwho.
    rewrite (Hwho f Hf) in Ha. discriminate.
  - apply Forall_app. split; [exact Hcalls|].
    apply List.Forall_forall. intros p Hp.
    apply in_map_iff in Hp as (f & <- & Hf). cbn [fst].
    destruct who as [i|]; [|discriminate]. intros j [= <-]. lia.
  - unfold Sched.audio_calls in *. cbn [Sched.trace].
    rewrite flat_map_app.
    destruct who as [i|].
    + apply (sorted_app_le _ _ i); [exact Hsorted | |].
      * pose proof (trace_calls_bound s _ Hcalls) as Hb.
        unfold Sched.audio_calls in Hb.
        eapply List.Forall_impl; [|exact Hb]. cbn. intros j Hj. lia.
      * clear. induction fs as [|f fs IH]; cbn; [constructor|].
        destruct (is_audio f); cbn; [constructor; [reflexivity|]|]; exact IH.
    + replace (flat_map _ (map (pair None) fs)) with (@nil nat);
        [rewrite app_nil_r; exact Hsorted|].
      clear. induction fs as [|f fs IH]; cbn; [reflexivity|].
      destruct (is_audio f); exact IH.
  - exact Hrun.
Qed.

Lemma invariant_quietly (h' : Handler.WSMessageHandler) (s : Sched.state) :
  session_invariant s ->
  extends_quietly (Sched.handler s) h' ->
  session_invariant (Sched.by_ None h' s).
Proof.
  intros Hinv (fs & Hsent & Hfs). eapply invariant_by; eassumption.
Qed.

Lemma invariant_set_lock (l : option nat) (s : Sched.state) :
  session_invariant s -> session_invariant (Sched.set_lock l s).
Proof. intros [? ? ? ? ?]. constructor; sched_simpl; assumption. Qed.

(** A task that has not ended takes a step of its own. *)
Lemma invariant_update_task (i : nat) (pc pc' : Sched.synth_pc) (s : Sched.state) :
  session_invariant s ->
  Sched.synth s !! i = Some pc -> ~ Sched.ended pc ->
  session_invariant (Sched.set_synth (<[i := pc']> (Sched.synth s)) s).
Proof.
  intros [Htr Haud Hcalls Hsorted Hrun] Hi Hpc.
  constructor; sched_simpl; try assumption.
  - rewrite length_insert. exact Hcalls.
  - intros j pcj Hj Hend. rewrite length_insert.
    destruct (decide (i = j)) as [<-|Hne].
    + exact (Hrun i pc Hi Hpc).
    + rewrite list_lookup_insert_ne in Hj by exact Hne. exact (Hrun j pcj Hj Hend).
Qed.

Lemma invariant_finish (i : nat) (pc : Sched.synth_pc) (r : result unit)
    (s : Sched.state) :
  session_invariant s ->
  Sched.synth s !! i = Some pc -> ~ Sched.ended pc ->
  session_invariant (Sched.finish i r s).
Proof.
  intros Hinv Hi Hpc. unfold Sched.finish.
  apply invariant_set_lock. eapply invariant_update_task; eassumption.
Qed.

Lemma all_ended_when_not_awaiting (s : Sched.state) :
  session_invariant s ->
  (forall i, Sched.consumer s <> Sched.Awaiting i) ->
  forall i pc, Sched.synth s !! i = Some pc -> Sched.ended pc.
Proof.
  intros Hinv Hc i pc Hi.
  destruct pc; cbn; try exact I;
    exfalso; eapply Hc, (inv_running s Hinv i _ Hi); cbn; tauto.
Qed.

Lemma all_ended_when_awaited_ended (s : Sched.state) (i : nat) (r : result unit) :
  session_invariant s ->
  Sched.consumer s = Sched.Awaiting i ->
  Sched.synth s !! i = Some (Sched.Ended r) ->
  forall j pc, Sched.synth s !! j = Some pc -> Sched.ended pc.
Proof.
  intros Hinv Hc Hi j pc Hj.
  destruct pc; cbn; try exact I; exfalso;
    (destruct (inv_running s Hinv j _ Hj) as [Hcj _]; [cbn; tauto|]);
    rewrite Hc in Hcj; injection Hcj as ->; rewrite Hi in Hj; discriminate.
Qed.

Lemma invariant_set_consumer (c : Sched.consumer_pc) (s : Sched.state) :
  session_invariant s ->
  (forall i pc, Sched.synth s !! i = Some pc -> Sched.ended pc) ->
  session_invariant (Sched.set_consumer c s).
Proof.
  intros [Htr Haud Hcalls Hsorted Hrun] Hall.
  constructor; sched_simpl; try assumption.
  intros i pc Hi Hend. exfalso. exact (Hend (Hall i pc Hi)).
Qed.

Lemma invariant_spawn (pc : Sched.synth_pc) (s : Sched.state) :
  session_invariant s ->
  (forall i pc, Sched.synth s !! i = Some pc -> Sched.ended pc) ->
  session_invariant
    (Sched.set_consumer (Sched.Awaiting (length (Sched.synth s)))
       (Sched.set_synth (Sched.synth s ++ [pc]) s)).
Proof.
  intros [Htr Haud Hcalls Hsorted Hrun] Hall.
  constructor; sched_simpl; try assumption.
  - eapply List.Forall_impl; [|exact Hcalls]. cbn. intros p Hp i Hi.
    rewrite length_app. specialize (Hp i Hi). lia.
  - intros i pci Hi Hend. rewrite length_app. cbn [length].
    destruct (lt_dec i (length (Sched.synth s))) as [Hlt|Hge].
    + rewrite lookup_app_l in Hi by exact Hlt.
      exfalso. exact (Hend (Hall i pci Hi)).
    + assert (i = length (Sched.synth s)).
      { apply lookup_lt_Some in Hi. rewrite length_app in Hi. cbn in Hi. lia. }
      subst i. split; [reflexivity | lia].
Qed.

Lemma invariant_cleanup (s : Sched.state) :
  session_invariant s -> session_invariant (Sched.cleanup_step s).
Proof.
  intros Hinv. unfold Sched.cleanup_step.
  pose proof (invariant_quietly _ s Hinv (cleanup_session_quiet (Sched.handler s)))
    as [Htr Haud Hcalls Hsorted Hrun].
  constructor; sched_simpl; try assumption.
  - rewrite length_map. exact Hcalls.
  - intros i pc Hi Hend. exfalso. apply Hend.
    rewrite list_lookup_fmap in Hi.
    destruct (Sched.synth s !! i) as [pc0|]; [|discriminate].
    injection Hi as <-. destruct pc0; exact I.
Qed.

Lemma invariant_initial (h0 : Handler.WSMessageHandler) :
  no_audio (sent (Handler.websocket h0)) ->
  session_invariant (Sched.initial h0).
Proof.
  intros Hno. unfold Sched.initial.
  constructor; cbn [Sched.trace Sched.handler Sched.synth Sched.consumer].
  - rewrite map_map. cbn [snd]. apply map_id.
  - apply List.Forall_forall. intros p Hp.
    apply in_map_iff in Hp as (f & <- & Hf). cbn [fst snd]. intros Ha.
    unfold no_audio in Hno. rewrite List.Forall_forall in Hno.
    rewrite (Hno f Hf) in Ha. discriminate.
  - apply List.Forall_forall. intros p Hp.
    apply in_map_iff in Hp as (f & <- & Hf). cbn [fst]. discriminate.
  - unfold Sched.audio_calls. cbn [Sched.trace].
    replace (flat_map _ _) with (@nil nat); [constructor|].
    induction (sent (Handler.websocket h0)) as [|f fs IH]; [reflexivity|].
    cbn. destruct (is_audio f); apply IH; inversion Hno; assumption.
  - intros i pc Hi. cbn in Hi. discriminate.
Qed.

Lemma interfere_sent (ev : env_event) (self : Stream.AudioStream) (ws : WebSocket) :
  sent (snd (Stream.interfere ev self ws)) = sent ws.
Proof.
  destruct ev; cbn [Stream.interfere snd]; try reflexivity.
  apply close_inactive.
Qed.

Lemma task_send_sent (f : frame) (self : Stream.AudioStream)
    (h : Handler.WSMessageHandler) :
  exists fs,
    sent (Handler.websocket (snd (Sched.task_send f self h)))
    = sent (Handler.websocket h) ++ fs.
Proof.
  unfold Sched.task_send, Stream.send, ws_send. cbn.
  destruct (application_state (Handler.websocket h));
    [|destruct (client_gone (Handler.websocket h))|]; cbn;
    try (exists []; rewrite app_nil_r; reflexivity).
  exists [f]. reflexivity.
Qed.

Lemma invariant_fail (i : nat) (pc : Sched.synth_pc) (e : exn)
    (self : Stream.AudioStream) (s : Sched.state) :
  session_invariant s ->
  Sched.synth s !! i = Some pc -> ~ Sched.ended pc ->
  session_invariant (Sched.fail i e self s).
Proof.
  intros Hinv Hi Hpc. unfold Sched.fail.
  destruct (is_Exception e); [|eapply invariant_finish; eassumption].
  eapply (invariant_finish i pc); [|exact Hi|exact Hpc].
  destruct (quietM_close_stream self (Sched.handler s) _ _
              (surjective_pairing _)) as (fs & Hsent & _).
  eapply invariant_by; [exact Hinv | exact Hsent|].
  apply (inv_running s Hinv i pc Hi Hpc).
Qed.

Section InvariantPreserved.
Context {T : Type} {NP : NpScalar T}.
Variable tts_model : TTSModel T.
Variable float_of_string : string -> option Q.

Lemma task_step_invariant (i : nat) (pc : Sched.synth_pc) (s s' : Sched.state) :
  session_invariant s ->
  Sched.synth s !! i = Some pc ->
  Sched.task_step tts_model i pc s = Some s' ->
  session_invariant s'.
Proof.
  intros Hinv Hi. unfold Sched.task_step.
  destruct (Handler.stream (Sched.handler s)) as [self|]; [|discriminate].
  destruct pc as [text voice speed|text voice speed|[|chunk rest]|r];
    [| | | |discriminate].
  - destruct (Sched._lock s); [discriminate|]. intros [= <-].
    apply invariant_set_lock.
    eapply invariant_update_task; [exact Hinv | exact Hi | cbn; tauto].
  - destruct (generate_speech_stream _ _ _ _ _ _) as [chunks|e]; intros [= <-].
    + eapply invariant_update_task; [exact Hinv | exact Hi | cbn; tauto].
    + eapply invariant_fail; [exact Hinv | exact Hi | cbn; tauto].
  - assert (Hlast : S i = length (Sched.synth s))
      by (apply (inv_running s Hinv i _ Hi); cbn; tauto).
    destruct (Stream._active self);
      [|intros [= <-]; eapply invariant_finish;
        [exact Hinv | exact Hi | cbn; tauto]].
    destruct (task_send_sent end_frame self (Sched.handler s)) as [fs Hsent].
    destruct (Sched.task_send end_frame self (Sched.handler s)) as [[[]|e] h].
    + intros [= <-]. eapply (invariant_finish i); [|exact Hi|cbn; tauto].
      eapply invariant_by; [exact Hinv | exact Hsent | exact Hlast].
    + destruct (Handler.stream h) as [self'|]; [|discriminate]. intros [= <-].
      eapply (invariant_fail i); [|exact Hi|cbn; tauto].
      eapply invariant_by; [exact Hinv | exact Hsent | exact Hlast].
  - assert (Hlast : S i = length (Sched.synth s))
      by (apply (inv_running s Hinv i _ Hi); cbn; tauto).
    destruct (Stream._active self); cbn [negb];
      [|intros [= <-]; eapply invariant_finish;
        [exact Hinv | exact Hi | cbn; tauto]].
    destruct (task_send_sent (Binary chunk) self (Sched.handler s))
      as [fs Hsent].
    destruct (Sched.task_send (Binary chunk) self (Sched.handler s))
      as [[[]|e] h].
    + intros [= <-].
      eapply (invariant_update_task i _ _ (Sched.by_ (Some i) h s));
        [|exact Hi|cbn; tauto].
      eapply invariant_by; [exact Hinv | exact Hsent | exact Hlast].
    + destruct (Handler.stream h) as [self'|]; [|discriminate]. intros [= <-].
      eapply (invariant_fail i); [|exact Hi|cbn; tauto].
      eapply invariant_by; [exact Hinv | exact Hsent | exact Hlast].
Qed.

Lemma consumer_step_invariant (s s' : Sched.state) :
  session_invariant s ->
  Sched.consumer_step tts_model float_of_string s = Some s' ->
  session_invariant s'.
Proof.
  intros Hinv. unfold Sched.consumer_step.
  destruct (Sched.consumer s) as [|i|] eqn:Hc; [| |discriminate].
  - assert (Hall : forall i pc, Sched.synth s !! i = Some pc -> Sched.ended pc).
    { apply all_ended_when_not_awaiting; [exact Hinv|].
      intros i. rewrite Hc. discriminate. }
    destruct (Handler._active (Sched.handler s)); cbn [negb];
      [|intros [= <-]; apply invariant_set_consumer; assumption].
    destruct (Handler._message_queue (Sched.handler s)) as [|message rest];
      [discriminate|].
    set (h1 := Handler.set_message_queue rest (Sched.handler s)).
    assert (Hh1 : extends_quietly (Sched.handler s) h1)
      by (apply extends_quietly_same; reflexivity).
    destruct (Handler.synthesis_request float_of_string message h1)
      as [[h2 [[text voice] speed]]|] eqn:Hreq.
    + destruct (handle_synthesis_request tts_model float_of_string _ _ _ _ _ _ Hreq)
        as (self & _ & -> & _).
      intros [= <-].
      apply (invariant_spawn (Sched.AtLock text voice speed)
               (Sched.by_ None
                  (Handler.set_tasks
                     (Handler._tasks h1 ++ [Handler.Synthesis text voice speed])
                     h1) s)); [|exact Hall].
      apply invariant_quietly; [exact Hinv|].
      apply extends_quietly_same. reflexivity.
    + pose proof (handle_message_quiet tts_model float_of_string _ _ Hreq) as Hq.
      destruct (Handler._handle_message tts_model float_of_string message h1)
        as [r h2] eqn:Hrun. cbn [snd] in Hq.
      assert (Hby : session_invariant (Sched.by_ None h2 s)).
      { apply invariant_quietly; [exact Hinv|].
        exact (extends_quietly_trans _ _ _ Hh1 Hq). }
      destruct r as [[]|e]; [cbv beta iota; intros [= <-]; exact Hby|].
      destruct e; cbv beta iota; intros [= <-]; try exact Hby.
      apply invariant_set_consumer; [exact Hby | exact Hall].
  - destruct (Sched.synth s !! i) as [[| | |[[]|e]]|] eqn:Hi; try discriminate.
    + intros [= <-]. apply invariant_set_consumer; [exact Hinv|].
      eapply all_ended_when_awaited_ended; eassumption.
    + pose proof (all_ended_when_awaited_ended s i _ Hinv Hc Hi) as Hall.
      destruct (is_Exception e); intros [= <-];
        [|apply invariant_set_consumer; assumption].
      apply invariant_set_consumer; [|exact Hall].
      apply invariant_quietly; [exact Hinv|].
      eapply quietM_send_error. apply surjective_pairing.
Qed.

Lemma perform_invariant (a : Sched.action) (s s' : Sched.state) :
  session_invariant s ->
  Sched.perform tts_model float_of_string a s = Some s' ->
  session_invariant s'.
Proof.
  intros Hinv. destruct a as [i| |fr| |ev|]; cbn [Sched.perform].
  - destruct (Sched.synth s !! i) as [pc|] eqn:Hi; [|discriminate].
    eapply task_step_invariant; eassumption.
  - apply consumer_step_invariant. exact Hinv.
  - intros [= <-]. unfold Sched.receive_step.
    destruct (Handler.receive_turn fr (Sched.handler s)) as [h|] eqn:E.
    + apply invariant_quietly; [exact Hinv|]. eapply receive_turn_quiet, E.
    + apply invariant_cleanup, Hinv.
  - intros [= <-]. unfold Sched.keepalive_step.
    destruct (Handler._active (Sched.handler s)); [|exact Hinv].
    pose proof (quietM_send_json ping_frame eq_refl (Sched.handler s)) as Hq.
    destruct (Handler.send_json ping_frame (Sched.handler s)) as [[[]|e] h].
    + apply invariant_quietly; [exact Hinv|]. eapply Hq. reflexivity.
    + apply invariant_cleanup, invariant_quietly; [exact Hinv|].
      eapply Hq. reflexivity.
  - intros [= <-]. unfold Sched.env_step.
    destruct (Handler.stream (Sched.handler s)) as [self|]; [|exact Hinv].
    pose proof (interfere_sent ev self (Handler.websocket (Sched.handler s)))
      as Hsent.
    destruct (Stream.interfere ev self _) as [self' ws] eqn:Hev.
    cbn [snd] in Hsent.
    apply invariant_quietly; [exact Hinv|].
    apply extends_quietly_same. exact Hsent.
  - intros [= <-]. apply invariant_cleanup, Hinv.
Qed.

Lemma reachable_invariant (h0 : Handler.WSMessageHandler) (s : Sched.state) :
  no_audio (sent (Handler.websocket h0)) ->
  Sched.reachable tts_model float_of_string h0 s ->
  session_invariant s.
Proof.
  intros Hno. induction 1 as [|a s s' _ IH Hstep].
  - apply invariant_initial, Hno.
  - eapply perform_invariant; eassumption.
Qed.

Lemma run_reachable (h0 : Handler.WSMessageHandler) (schedule : list Sched.action) :
  forall s,
    Sched.reachable tts_model float_of_string h0 s ->
    Sched.reachable tts_model float_of_string h0
      (Sched.run tts_model float_of_string schedule s).
Proof.
  induction schedule as [|a rest IH]; intros s Hs; [exact Hs|].
  cbn [Sched.run].
  destruct (Sched.perform tts_model float_of_string a s) as [s'|] eqn:E.
  - apply IH. eapply Sched.reachable_step; eassumption.
  - apply IH, Hs.
Qed.

(** C4.  In every state the session can reach, whatever the order in which
    the event loop runs its tasks: every audio frame on the transport was
    sent by a synthesis task, the audio frames are in the order of the
    calls that sent them (all frames of an earlier call before any frame of
    a later one), a call has sent audio only if every call before it has
    ended, and at most one call has not ended. *)
Theorem C4_synthesis_calls_not_interleaved
    (h0 : Handler.WSMessageHandler) (s : Sched.state) :
  no_audio (sent (Handler.websocket h0)) ->
  Sched.reachable tts_model float_of_string h0 s ->
  map snd (Sched.trace s) = sent (Handler.websocket (Sched.handler s))
  /\ Forall (fun p => is_audio (snd p) = true -> is_Some (fst p)) (Sched.trace s)
  /\ StronglySorted le (Sched.audio_calls s)
  /\ (forall i j pc,
        In j (Sched.audio_calls s) -> (i < j)%nat ->
        Sched.synth s !! i = Some pc -> Sched.ended pc)
  /\ (forall i j pci pcj,
        Sched.synth s !! i = Some pci -> Sched.synth s !! j = Some pcj ->
        ~ Sched.ended pci -> ~ Sched.ended pcj -> i = j).
Proof.
  intros Hno Hreach.
  pose proof (reachable_invariant h0 s Hno Hreach) as Hinv.
  split; [apply Hinv|]. split; [apply Hinv|]. split; [apply Hinv|]. split.
  - intros i j pc Hj Hlt Hi.
    pose proof (trace_calls_bound s _ (inv_calls s Hinv)) as Hb.
    rewrite List.Forall_forall in Hb. specialize (Hb j Hj).
    destruct pc; cbn; try exact I; exfalso;
      (destruct (inv_running s Hinv i _ Hi) as [_ Hlast]; [cbn; tauto|]); lia.
  - intros i j pci pcj Hi Hj Hpi Hpj.
    destruct (inv_running s Hinv i _ Hi Hpi) as [_ Hli].
    destruct (inv_running s Hinv j _ Hj Hpj) as [_ Hlj]. lia.
Qed.

End InvariantPreserved.

(** Two requests queued before either is handled, under a schedule that
    tries the second task while the first one streams: the chunks of the
    first call come first. *)
Lemma C4_two_requests :
  let s := Sched.run sample_model no_float_of_string sample_schedule
             (Sched.initial two_requests) in
  Sched.audio_calls s = [0; 0; 1; 1]%nat
  /\ map snd (Sched.trace s) = sent (Handler.websocket (Sched.handler s))
  /\ Forall (fun p => is_audio (snd p) = true -> is_Some (fst p)) (Sched.trace s)
  /\ StronglySorted le (Sched.audio_calls s)
  /\ (forall i j pc,
        In j (Sched.audio_calls s) -> (i < j)%nat ->
        Sched.synth s !! i = Some pc -> Sched.ended pc)
  /\ (forall i j pci pcj,
        Sched.synth s !! i = Some pci -> Sched.synth s !! j = Some pcj ->
        ~ Sched.ended pci -> ~ Sched.ended pcj -> i = j).
Proof.
  split; [reflexivity|].
  apply (C4_synthesis_calls_not_interleaved sample_model no_float_of_string
           two_requests);
    [constructor | apply run_reachable, Sched.reachable_initial].
Defined.

(** ** The handler: stop *)

Section StopProperties.
Context {T : Type} {NP : NpScalar T}.
Variable tts_model : TTSModel T.
Variable float_of_string : string -> option Q.

Lemma handle_stop_returns (h : Handler.WSMessageHandler) :
  exists h', Handler._handle_stop h = (Ok tt, h').
Proof.
  unfold Handler._handle_stop, Handler.try_except, Handler.bind.
  destruct (Handler.stream h) as [self|].
  - cbn [Handler.close_stream].
    destruct (send_success_returns "Streaming stopped"
                (Handler.set_conn (Stream.close_conn (Handler.conn_of self h)) h))
      as [h' ->]. eauto.
  - cbn [Handler.ret].
    destruct (send_success_returns "Streaming stopped" h) as [h' ->]. eauto.
Qed.

Lemma handle_stop_message (fields : list (string * json))
    (h : Handler.WSMessageHandler) :
  message_type fields = JStr "stop" ->
  Handler._handle_message tts_model float_of_string (JObj fields) h
  = Handler._handle_stop h.
Proof.
  intros Hty.
  unfold Handler._handle_message, Handler.try_except, Handler.bind,
    Handler.lift, dict_get.
  fold (message_type fields). rewrite Hty. cbn [json_eq_str].
  change (String.eqb "stop" "synthesize") with false.
  change (String.eqb "stop" "pong") with false.
  change (String.eqb "stop" "stop") with true. cbv beta iota.
  destruct (handle_stop_returns h) as [h' ->]. reflexivity.
Qed.

(** C3, amended.  On a handler that has a stream, handling [stop] closes the
    stream: its flag is cleared and the transport is disconnected; the
    handler's own flag is as it was and the consumer goes on with the rest
    of the queue.  On a handler without a stream whose transport is open it
    sends the one [success] frame and changes nothing else.  And whenever
    the consumer is ready to take a message, [stop] included, every
    synthesis task has ended: no streaming operation is in flight. *)
Theorem C3_stop_closes_stream
    (fields : list (string * json)) (h : Handler.WSMessageHandler) :
  message_type fields = JStr "stop" ->
  (forall self : Stream.AudioStream,
      Handler.stream h = Some self ->
      exists (h' : Handler.WSMessageHandler) (self' : Stream.AudioStream),
        Handler._handle_message tts_model float_of_string (JObj fields) h
          = (Ok tt, h')
        /\ Handler.stream h' = Some self'
        /\ Stream._active self' = false
        /\ application_state (Handler.websocket h') = DISCONNECTED
        /\ Handler._active h' = Handler._active h
        /\ (forall (h0 : Handler.WSMessageHandler) (queue : list json),
              h = Handler.set_message_queue queue h0 ->
              Handler._active h0 = true ->
              Handler.drain tts_model float_of_string (JObj fields :: queue) h0
              = Handler.drain tts_model float_of_string queue h'))
  /\ (Handler.stream h = None ->
      application_state (Handler.websocket h) = CONNECTED ->
      client_gone (Handler.websocket h) = false ->
      Handler._handle_message tts_model float_of_string (JObj fields) h
      = (Ok tt, reply (success_frame "Streaming stopped") h))
  /\ (forall (h0 : Handler.WSMessageHandler) (s : Sched.state),
        no_audio (sent (Handler.websocket h0)) ->
        Sched.reachable tts_model float_of_string h0 s ->
        Sched.consumer s = Sched.Waiting ->
        forall i pc, Sched.synth s !! i = Some pc -> Sched.ended pc).
Proof.
  intros Hty. split; [|split].
  - intros self Hself.
    set (h' := Handler.set_conn (Stream.close_conn (Handler.conn_of self h)) h).
    assert (Hst : application_state (Handler.websocket h') = DISCONNECTED)
      by apply close_conn_disconnected.
    assert (Hrun : Handler._handle_message tts_model float_of_string
                     (JObj fields) h = (Ok tt, h')).
    { rewrite handle_stop_message by exact Hty.
      unfold Handler._handle_stop, Handler.try_except, Handler.bind.
      rewrite Hself. cbn [Handler.close_stream]. fold h'.
      rewrite (send_success_disconnected _ _ Hst). reflexivity. }
    exists h'. eexists. split; [exact Hrun|]. split; [reflexivity|].
    split; [apply close_conn_inactive|]. split; [exact Hst|].
    split; [reflexivity|].
    intros h0 queue -> Hact. cbn [Handler.drain]. rewrite Hact. cbn [negb].
    rewrite Hrun. reflexivity.
  - intros Hnone Hst Hgone. rewrite handle_stop_message by exact Hty.
    unfold Handler._handle_stop, Handler.try_except, Handler.bind.
    rewrite Hnone. cbn [Handler.ret].
    rewrite send_success_connected by assumption. reflexivity.
  - intros h0 s Hno Hreach Hc.
    apply all_ended_when_not_awaiting.
    + eapply reachable_invariant; eassumption.
    + intros i. rewrite Hc. discriminate.
Qed.

End StopProperties.

(** The theorem at the sample handler. *)
Lemma C3_sample_stop :
  (forall self : Stream.AudioStream,
      Handler.stream sample_handler = Some self ->
      exists (h' : Handler.WSMessageHandler) (self' : Stream.AudioStream),
        Handler._handle_message sample_model no_float_of_string
          stop_message sample_handler = (Ok tt, h')
        /\ Handler.stream h' = Some self'
        /\ Stream._active self' = false
        /\ application_state (Handler.websocket h') = DISCONNECTED
        /\ Handler._active h' = Handler._active sample_handler
        /\ (forall (h0 : Handler.WSMessageHandler) (queue : list json),
              sample_handler = Handler.set_message_queue queue h0 ->
              Handler._active h0 = true ->
              Handler.drain sample_model no_float_of_string
                (stop_message :: queue) h0
              = Handler.drain sample_model no_float_of_string queue h'))
  /\ (Handler.stream sample_handler = None ->
      application_state (Handler.websocket sample_handler) = CONNECTED ->
      client_gone (Handler.websocket sample_handler) = false ->
      Handler._handle_message sample_model no_float_of_string
        stop_message sample_handler
      = (Ok tt, reply (success_frame "Streaming stopped") sample_handler))
  /\ (forall (h0 : Handler.WSMessageHandler) (s : Sched.state),
        no_audio (sent (Handler.websocket h0)) ->
        Sched.reachable sample_model no_float_of_string h0 s ->
        Sched.consumer s = Sched.Waiting ->
        forall i pc, Sched.synth s !! i = Some pc -> Sched.ended pc).
Proof.
  apply (C3_stop_closes_stream sample_model no_float_of_string
           [("type", JStr "stop")] sample_handler).
  reflexivity.
Defined.

(** C3 as stated fails: on the open sample session, with no streaming in
    flight, handling [stop] leaves the transport disconnected and the
    stream's flag cleared, and no frame has been sent to the client. *)
Lemma C3_stop_closes_session :
  application_state (Handler.websocket sample_handler) = CONNECTED
  /\ (let h' := snd (Handler._handle_message sample_model no_float_of_string
                       stop_message sample_handler) in
      application_state (Handler.websocket h') = DISCONNECTED
      /\ option_map Stream._active (Handler.stream h') = Some false
      /\ sent (Handler.websocket h') = []).
Proof. repeat split. Qed.

(** * Further properties of the code *)

(** ** The generator: failures and unusual chunk sizes *)

Section GeneratorProperties.
Context {T : Type} {NP : NpScalar T}.

Lemma generate_speech_stream_started (self : TTSModel T)
    (text voice : json) (speed : Q) (language : string)
    (chunk_size : option Z) (chunks : list bytes) :
  generate_speech_stream self text voice speed language chunk_size = Ok chunks ->
  exists wav : list T,
    generate_speech self text voice speed language = Ok wav
    /\ exists indices : list Z,
         py_range0 (len (scale_int16 wav))
           (chunk_size_or chunk_size (_stream_chunk_size self)) = Ok indices
         /\ chunks
            = map (chunk_at (scale_int16 wav)
                     (chunk_size_or chunk_size (_stream_chunk_size self)))
                  indices.
Proof.
  unfold generate_speech_stream.
  destruct (_ensure_initialized self) as [[]|e0]; [|discriminate].
  cbn [bind_result].
  destruct (generate_speech self text voice speed language) as [wav|e0].
  2:{ cbn. destruct (is_Exception e0); discriminate. }
  cbn [bind_result].
  destruct (py_range0 _ _) as [indices|e0] eqn:Hrange.
  2:{ cbn. destruct (is_Exception e0); discriminate. }
  cbn. intros [= <-]. exists wav. split; [reflexivity|].
  exists indices. split; [exact Hrange | reflexivity].
Qed.

(** With a positive chunk size the generator yields one zero-padded window
    of the converted waveform per [chunk_size] samples. *)
Lemma generate_speech_stream_windows (self : TTSModel T)
    (text voice : json) (speed : Q) (language : string)
    (chunk_size : Z) (wav : list T) :
  0 < chunk_size ->
  generate_speech self text voice speed language = Ok wav ->
  generate_speech_stream self text voice speed language (Some chunk_size)
  = Ok (map (fun j => tobytes (window (Z.to_nat chunk_size) (scale_int16 wav)
                                 (j * Z.to_nat chunk_size)))
            (seq 0 (Z.to_nat ((len wav + chunk_size - 1) / chunk_size)))).
Proof.
  intros Hcs Hwav.
  unfold generate_speech_stream, _ensure_initialized.
  replace (_initialized self) with true.
  2:{ unfold generate_speech, _ensure_initialized in Hwav.
      destruct (_initialized self); [reflexivity | discriminate]. }
  cbn [bind_result]. unfold chunk_size_or.
  destruct (Z.eqb_spec chunk_size 0) as [->|_]; [lia|].
  rewrite Hwav. cbn [bind_result]. unfold py_range0.
  destruct (Z.eqb_spec chunk_size 0) as [->|_]; [lia|].
  destruct (Z.ltb_spec 0 chunk_size) as [_|?]; [|lia].
  cbn [bind_result except_Exception].
  rewrite map_map.
  replace (len (scale_int16 wav)) with (len wav)
    by (unfold len, scale_int16; rewrite length_map; reflexivity).
  f_equal. apply map_ext. intros j. apply chunk_at_window. exact Hcs.
Qed.

(** Whatever made the generator fail, its caller sees a [ModelError]: the
    one of the initialisation test when the model was never initialised,
    and otherwise ["Speech streaming failed"], which replaces the engine's
    own exception and the [ModelError] of [generate_speech]. *)
Theorem generate_speech_stream_raises_ModelError (self : TTSModel T)
    (text voice : json) (speed : Q) (language : string)
    (chunk_size : option Z) (e : exn) :
  generate_speech_stream self text voice speed language chunk_size = Raise e ->
  is_Exception e = true ->
  (_initialized self = false /\ e = ModelError "TTS model not initialized")
  \/ (_initialized self = true /\ e = ModelError "Speech streaming failed").
Proof.
  unfold generate_speech_stream, _ensure_initialized.
  destruct (_initialized self); cbn [bind_result].
  - intros Hrun He. right. split; [reflexivity|].
    unfold except_Exception in Hrun.
    destruct (bind_result _ _) as [chunks|e0]; [discriminate|].
    destruct (is_Exception e0) eqn:E0; injection Hrun as <-; [reflexivity|].
    congruence.
  - intros [= <-] _. left. split; reflexivity.
Qed.

(** A chunk size that is not positive.  A negative one makes the generator
    end without yielding any chunk; zero stands for the model's own chunk
    size; and when that is zero as well the generator fails. *)
Theorem generate_speech_stream_nonpositive_chunk_size (self : TTSModel T)
    (text voice : json) (speed : Q) (language : string) (wav : list T) :
  generate_speech self text voice speed language = Ok wav ->
  (forall chunk_size : Z,
      chunk_size < 0 ->
      generate_speech_stream self text voice speed language (Some chunk_size)
      = Ok [])
  /\ generate_speech_stream self text voice speed language (Some 0)
     = generate_speech_stream self text voice speed language None
  /\ (_stream_chunk_size self = 0 ->
      generate_speech_stream self text voice speed language None
      = Raise (ModelError "Speech streaming failed")).
Proof.
  intros Hwav.
  assert (Hinit : _initialized self = true).
  { unfold generate_speech, _ensure_initialized in Hwav.
    destruct (_initialized self); [reflexivity | discriminate]. }
  split; [|split].
  - intros chunk_size Hneg.
    unfold generate_speech_stream, _ensure_initialized. rewrite Hinit.
    cbn [bind_result]. unfold chunk_size_or.
    destruct (Z.eqb_spec chunk_size 0) as [->|_]; [lia|].
    rewrite Hwav. cbn [bind_result]. unfold py_range0.
    destruct (Z.eqb_spec chunk_size 0) as [->|_]; [lia|].
    destruct (Z.ltb_spec 0 chunk_size) as [?|_]; [lia|].
    set (n := len (scale_int16 wav)).
    assert (Hn : 0 <= n) by (unfold n, len; lia).
    replace (Z.to_nat ((n + chunk_size + 1) / chunk_size)) with 0%nat;
      [reflexivity|].
    assert ((n + chunk_size + 1) / chunk_size <= 0); [|lia].
    Z.div_mod_to_equations. nia.
  - reflexivity.
  - intros Hzero.
    unfold generate_speech_stream, _ensure_initialized. rewrite Hinit.
    cbn [bind_result]. unfold chunk_size_or. rewrite Hzero, Hwav.
    reflexivity.
Qed.

End GeneratorProperties.

(** The chunks of one synthesis, put together and read as 16-bit samples,
    are the converted waveform followed by the padding; there is one chunk
    per [chunk_size] samples, the last one counted in full. *)
Theorem streamed_chunks_decode {T : Type} {NP : NpScalar T} (self : TTSModel T)
    (text voice : json) (speed : Q) (language : string)
    (chunk_size : Z) (chunks : list bytes) :
  0 < chunk_size ->
  generate_speech_stream self text voice speed language (Some chunk_size)
    = Ok chunks ->
  exists wav : list T,
    generate_speech self text voice speed language = Ok wav
    /\ len chunks = (len wav + chunk_size - 1) / chunk_size
    /\ frombuffer (concat chunks)
       = Ok (scale_int16 wav
             ++ repeat 0 (Z.to_nat ((- len wav) mod chunk_size))).
Proof.
  intros Hcs Hrun.
  destruct (generate_speech_stream_started _ _ _ _ _ _ _ Hrun)
    as (wav & Hwav & _).
  exists wav. split; [exact Hwav|].
  rewrite (generate_speech_stream_windows _ _ _ _ _ _ _ Hcs Hwav) in Hrun.
  injection Hrun as <-.
  destruct (ceil_div_padding (len wav) chunk_size) as (Hk0 & Hk1 & Hk2);
    [unfold len; lia | lia |].
  split.
  - unfold len at 1. rewrite length_map, length_seq. lia.
  - rewrite <- (map_map (fun j => window _ _ (j * _)) tobytes).
    rewrite <- tobytes_concat.
    assert (Hlen : length (scale_int16 wav) = length wav)
      by (unfold scale_int16; apply length_map).
    rewrite windows_concat by (rewrite Hlen; unfold len in *; nia).
    rewrite frombuffer_tobytes.
    + do 3 f_equal. rewrite Hlen, <- Hk2. unfold len in *. nia.
    + apply Forall_app. split; [apply scale_int16_range|].
      apply List.Forall_forall. intros z Hz.
      apply repeat_spec in Hz. subst z. lia.
Qed.

(** The theorem above at the sample model: the two chunks decode to the
    three samples and one sample of padding. *)
Lemma streamed_chunks_decode_sample :
  exists wav : list spec_float,
    generate_speech sample_model (JStr "hello") (JStr "default") 1 "en" = Ok wav
    /\ len sample_chunks = (len wav + 2 - 1) / 2
    /\ frombuffer (concat sample_chunks)
       = Ok (scale_int16 wav ++ repeat 0 (Z.to_nat ((- len wav) mod 2))).
Proof.
  apply (streamed_chunks_decode sample_model (JStr "hello") (JStr "default")
           1 "en" 2 sample_chunks); [lia | reflexivity].
Defined.

(** The theorem on failures at the model whose engine raises: the
    [RuntimeError] of the engine reaches the caller as the second
    [ModelError]. *)
Lemma generate_speech_stream_raises_sample :
  (_initialized failing_model = false
   /\ ModelError "Speech streaming failed"
      = ModelError "TTS model not initialized")
  \/ (_initialized failing_model = true
      /\ ModelError "Speech streaming failed"
         = ModelError "Speech streaming failed").
Proof.
  apply (generate_speech_stream_raises_ModelError failing_model
           (JStr "hello") (JStr "default") 1 "en" None); reflexivity.
Defined.

(** At the sample model, whose own chunk size is 4096, and at a model whose
    own chunk size is 0. *)
Lemma generate_speech_stream_nonpositive_sample :
  generate_speech_stream sample_model (JStr "hello") (JStr "default") 1 "en"
    (Some (-1)) = Ok []
  /\ generate_speech_stream sample_model (JStr "hello") (JStr "default") 1
       "en" (Some 0)
     = generate_speech_stream sample_model (JStr "hello") (JStr "default") 1
         "en" None
  /\ generate_speech_stream unsized_model (JStr "hello") (JStr "default") 1
       "en" None
     = Raise (ModelError "Speech streaming failed").
Proof.
  split; [|split].
  - apply (proj1 (generate_speech_stream_nonpositive_chunk_size sample_model
                    (JStr "hello") (JStr "default") 1 "en" sample_wav
                    eq_refl)).
    lia.
  - apply (proj1 (proj2 (generate_speech_stream_nonpositive_chunk_size
                           sample_model (JStr "hello") (JStr "default") 1
                           "en" sample_wav eq_refl))).
  - apply (proj2 (proj2 (generate_speech_stream_nonpositive_chunk_size
                           unsized_model (JStr "hello") (JStr "default") 1
                           "en" sample_wav eq_refl))).
    reflexivity.
Defined.


(** ** The WAV conversions: size, failures and the range of the samples *)

(** The file [wave_write] produces is a header of 44 bytes that starts with
    the RIFF tag, followed by the frames as given. *)
Lemma wave_write_frames (nch sw rate : Z) (frames file : bytes) :
  wave_write nch sw rate frames = Ok file ->
  exists header : bytes,
    file = header ++ frames /\ length header = 44%nat
    /\ firstn 4 header = ascii_bytes "RIFF".
Proof.
  unfold wave_write.
  destruct (Z.ltb nch 1); [discriminate|].
  destruct (Z.ltb sw 1 || Z.ltb 4 sw); [discriminate|].
  destruct (Z.leb rate 0); [discriminate|].
  repeat match goal with
  | |- context [bind_result (struct_pack_L ?x) _] =>
      let E := fresh "E" in
      destruct (struct_pack_L x) as [?|?] eqn:E; cbn [bind_result]; [|discriminate];
      apply pack_L_shape in E as (? & ? & ? & ? & -> & _)
  | |- context [bind_result (struct_pack_H ?x) _] =>
      let E := fresh "E" in
      destruct (struct_pack_H x) as [?|?] eqn:E; cbn [bind_result]; [|discriminate];
      apply pack_H_shape in E as (? & ? & -> & _)
  end.
  ascii_literals. cbn [app]. intros [= <-].
  match goal with
  | |- exists header, ?file = _ /\ _ => exists (firstn 44 file)
  end.
  cbv [firstn app length]. repeat split.
Qed.

Lemma raises_bind {A B} (r : result A) (k : A -> result B) :
  raises_Exception r -> (forall a, raises_Exception (k a)) ->
  raises_Exception (bind_result r k).
Proof.
  intros Hr Hk e. destruct r as [a|e0]; cbn [bind_result].
  - apply Hk.
  - intros [= <-]. apply Hr. reflexivity.
Qed.

Lemma raises_Raise {A} (e : exn) :
  is_Exception e = true -> raises_Exception (@Raise A e).
Proof. intros He e' [= <-]. exact He. Qed.

Lemma raises_Ok {A} (a : A) : raises_Exception (Ok a).
Proof. intros e He. discriminate. Qed.

(** What [except Exception] gives for a body that raises nothing else: the
    body's value or the handler's exception. *)
Lemma except_Exception_raises {A} (r : result A) (e0 e : exn) :
  raises_Exception r ->
  except_Exception r (fun _ => Raise e0) = Raise e -> e = e0.
Proof.
  intros Hr. destruct r as [a|e1]; cbn [except_Exception]; [discriminate|].
  rewrite (Hr e1 eq_refl). intros [= <-]. reflexivity.
Qed.

Create HintDb raises.

#[local] Hint Resolve raises_Ok raises_bind : raises.
#[local] Hint Extern 1 (raises_Exception (Raise _)) =>
  apply raises_Raise; reflexivity : raises.
#[local] Hint Extern 2 (raises_Exception (if ?b then _ else _)) =>
  destruct b : raises.
#[local] Hint Extern 2
  (raises_Exception (match ?r with Ok _ => _ | Raise _ => _ end)) =>
  destruct r : raises.

Lemma struct_pack_L_raises (x : Z) : raises_Exception (struct_pack_L x).
Proof. unfold struct_pack_L. auto with raises. Qed.

Lemma struct_pack_H_raises (x : Z) : raises_Exception (struct_pack_H x).
Proof. unfold struct_pack_H. auto with raises. Qed.

Lemma struct_unpack_L_raises (b : bytes) : raises_Exception (struct_unpack_L b).
Proof.
  unfold struct_unpack_L.
  destruct b as [|? [|? [|? [|? [|? ?]]]]]; auto with raises.
Qed.

Lemma struct_unpack_H_raises (b : bytes) : raises_Exception (struct_unpack_H b).
Proof.
  unfold struct_unpack_H. destruct b as [|? [|? [|? ?]]]; auto with raises.
Qed.

#[local] Hint Resolve struct_pack_L_raises struct_pack_H_raises
  struct_unpack_L_raises struct_unpack_H_raises : raises.

Lemma wave_write_raises (nch sw rate : Z) (frames : bytes) :
  raises_Exception (wave_write nch sw rate frames).
Proof.
  unfold wave_write. auto 40 with raises.
Qed.

Lemma wave_open_rb_raises (file : bytes) : raises_Exception (wave_open_rb file).
Proof.
  unfold wave_open_rb, read. cbv beta iota zeta. auto 80 with raises.
Qed.

Lemma frombuffer_raises (b : bytes) : raises_Exception (frombuffer b).
Proof.
  assert (H : forall n (b : bytes), (length b < n)%nat ->
                raises_Exception (frombuffer b)).
  { induction n as [|n IH]; intros b' Hlen; [lia|].
    destruct b' as [|lo [|hi rest]]; cbn [frombuffer];
      [auto with raises | auto with raises |].
    cbn [length] in Hlen.
    assert (Hrest : raises_Exception (frombuffer rest)) by (apply IH; lia).
    destruct (frombuffer rest) as [a0|e0]; [auto with raises|].
    intros e' [= <-]. apply Hrest. reflexivity. }
  apply (H (S (length b))). lia.
Qed.

Lemma frombuffer_range (b : bytes) (a : list Z) :
  frombuffer b = Ok a -> Forall (fun z => -32768 <= z < 32768) a.
Proof.
  assert (H : forall n (b : bytes) a, (length b < n)%nat ->
                frombuffer b = Ok a ->
                Forall (fun z => -32768 <= z < 32768) a).
  { induction n as [|n IH]; intros b' a' Hlen; [lia|].
    destruct b' as [|lo [|hi rest]]; cbn [frombuffer].
    - intros [= <-]. constructor.
    - discriminate.
    - cbn [length] in Hlen.
      destruct (frombuffer rest) as [a0|] eqn:E; [|discriminate].
      intros [= <-]. constructor.
      + unfold int16_of_bytes. apply wrap_int16_range.
      + apply (IH rest); [lia | exact E]. }
  apply (H (S (length b))). lia.
Qed.

Section ConversionProperties.
Context {T : Type} {NP : NpScalar T}.

Lemma np_amax_raises (a : list T) : raises_Exception (np_amax a).
Proof. unfold np_amax. destruct a; auto with raises. Qed.

(** What a successful conversion has written: a header of 44 bytes and the
    16-bit values of as many samples as the array has. *)
Lemma array_to_wav_bytes_written (config : AudioConfig) (a : ndarray T)
    (wav_bytes : bytes) :
  array_to_wav_bytes config a = Ok wav_bytes ->
  exists (header : bytes) (samples : list Z),
    wav_bytes = header ++ tobytes samples
    /\ length header = 44%nat
    /\ firstn 4 header = ascii_bytes "RIFF"
    /\ length samples = length (data a).
Proof.
  unfold array_to_wav_bytes, except_Exception.
  destruct (bind_result _ _) as [file|e] eqn:Hrun.
  2:{ destruct (is_Exception e); discriminate. }
  intros [= <-].
  destruct (np_amax _) as [peak|]; [|discriminate]. cbn [bind_result] in Hrun.
  set (a32 := match dtype a with
              | np_float32 => a
              | np_float64 => astype_float32 a
              end) in *.
  assert (Hlen32 : length (data a32) = length (data a)).
  { unfold a32. destruct (dtype a); [reflexivity|]. apply length_map. }
  assert (Hscaled : exists a' : ndarray T,
             length (data a') = length (data a)
             /\ wave_write (num_channels config) (bits_per_sample config / 8)
                  (sample_rate config) (tobytes (scale_int16 (data a')))
                = Ok file).
  { destruct (fgt peak (of_Z 1)).
    - cbn [bind_result] in Hrun. eexists. split; [|exact Hrun].
      cbn [data]. rewrite length_map. exact Hlen32.
    - cbn [bind_result] in Hrun. exists a32. split; assumption. }
  destruct Hscaled as (a' & Hlen & Hwrite).
  apply wave_write_frames in Hwrite as (header & -> & Hheader & Hriff).
  exists header, (scale_int16 (data a')).
  split; [reflexivity|]. split; [exact Hheader|]. split; [exact Hriff|].
  unfold scale_int16. rewrite length_map. exact Hlen.
Qed.

(** A successful conversion gives a file of 44 bytes of header and two bytes
    per sample, whatever sample width the configuration names: the samples
    are always written as 16-bit values. *)
Theorem array_to_wav_bytes_size (config : AudioConfig) (a : ndarray T)
    (wav_bytes : bytes) :
  array_to_wav_bytes config a = Ok wav_bytes ->
  len wav_bytes = 44 + 2 * len (data a)
  /\ firstn 4 wav_bytes = ascii_bytes "RIFF".
Proof.
  intros Hrun.
  apply array_to_wav_bytes_written in Hrun
    as (header & samples & -> & Hheader & Hriff & Hlen).
  split.
  - unfold len. rewrite length_app, length_tobytes, Hlen, Hheader. lia.
  - rewrite firstn_app, Hheader. cbn [Nat.sub firstn]. rewrite app_nil_r.
    exact Hriff.
Qed.

(** Every failure of the three conversions reaches the caller as an
    [AudioError] with the message of the function that failed, whatever
    raised inside: numpy, [struct] or [wave]. *)
Theorem conversions_raise_AudioError :
  (forall (config : AudioConfig) (a : ndarray T) (e : exn),
      array_to_wav_bytes config a = Raise e ->
      e = AudioError "Failed to convert array to WAV")
  /\ (forall (wav_bytes : bytes) (e : exn),
        wav_bytes_to_array (T := T) wav_bytes = Raise e ->
        e = AudioError "Failed to convert WAV to array")
  /\ (forall (audio : list T) (e : exn),
        normalize_audio audio = Raise e ->
        e = AudioError "Audio normalization failed").
Proof.
  split; [|split].
  - intros config a e. unfold array_to_wav_bytes.
    apply except_Exception_raises.
    pose proof np_amax_raises. pose proof wave_write_raises.
    auto 20 with raises.
  - intros wav_bytes e. unfold wav_bytes_to_array.
    apply except_Exception_raises.
    pose proof wave_open_rb_raises. pose proof frombuffer_raises.
    auto 20 with raises.
  - intros audio e. unfold normalize_audio.
    apply except_Exception_raises.
    pose proof np_amax_raises. auto 20 with raises.
Qed.

End ConversionProperties.


(** ** The conversions in binary32 *)

(** A finite value of magnitude at most 1, as mantissa and exponent. *)
Lemma f32_unit_capped (m : positive) (e : Z) :
  bounded 24 128 m e = true ->
  SFltb f32_one (S754_finite false m e) = false ->
  e <= 0 /\ Zpos m <= 1 * 2 ^ (- e).
Proof.
  intros Hb Hle. destruct (bounded_digits _ _ Hb) as (_ & He & Hd & _).
  destruct (Zdigits2_bounds (Zpos m) ltac:(lia)) as (_ & _ & Hhi).
  assert (Hord : e < -23 \/ (e = -23 /\ Zpos m <= 8388608)).
  { unfold f32_one in Hle. sf_compare. }
  split; [lia|]. rewrite Z.mul_1_l. destruct Hord as [Hlt|[-> Hm]].
  - assert (2 ^ Zdigits2 (Zpos m) <= 2 ^ 24) by (apply Z.pow_le_mono_r; lia).
    assert (2 ^ 24 <= 2 ^ (- e)) by (apply Z.pow_le_mono_r; lia). lia.
  - exact Hm.
Qed.

(** The cast to an integer of a value of magnitude at most [nb]. *)
Lemma f32_trunc_capped (nb : Z) (s : bool) (m : positive) (e : Z) :
  0 <= nb -> e <= 0 -> Zpos m <= nb * 2 ^ (- e) ->
  - nb <= f32_trunc (S754_finite s m e) <= nb.
Proof.
  intros Hnb He Hcap. cbn [f32_trunc].
  assert (Hmag : 0 <= (if 0 <=? e then Zpos m * 2 ^ e
                       else Z.shiftr (Zpos m) (- e)) <= nb).
  { destruct (Z.leb_spec 0 e).
    - assert (e = 0) as -> by lia.
      change (2 ^ (- 0)) with 1 in Hcap. change (2 ^ 0) with 1. lia.
    - rewrite Z.shiftr_div_pow2 by lia.
      pose proof (pow2_pos (- e) ltac:(lia)).
      split; [apply Z.div_pos; lia | apply Z.div_le_upper_bound; [lia | nia]]. }
  destruct s; lia.
Qed.

(** A finite sample of magnitude at most 1 is quantised without
    wrapping. *)
Lemma quantise_unit_f32 (y : spec_float) :
  f32_finite y -> SFltb f32_one (SFabs y) = false ->
  astype_int16 (fmul y (of_Z 32767)) = f32_trunc (SFmul 24 128 y f32_32767)
  /\ -32767 <= f32_trunc (SFmul 24 128 y f32_32767) <= 32767.
Proof.
  intros Hfin Hle.
  assert (Hb : -32767 <= f32_trunc (SFmul 24 128 y f32_32767) <= 32767).
  { destruct y as [s|s| |s m e]; cbn [f32_finite] in Hfin; try contradiction.
    - cbn. lia.
    - cbn [SFabs] in Hle.
      destruct (f32_unit_capped m e Hfin Hle) as [He Hcap].
      unfold f32_32767. cbn [SFmul].
      pose proof (binary_round_aux_capped 32767 (xorb s false)
                    (Zpos (m * 16776704)) (e + -9) loc_Exact) as Hc.
      destruct (binary_round_aux 24 128 (xorb s false)
                  (Zpos (m * 16776704)) (e + -9) loc_Exact)
        as [s'|s'| |s' m' e'].
      + cbn. lia.
      + exfalso. apply Hc; [cbn; lia | lia | lia | | reflexivity].
        replace (- (e + -9)) with (- e + 9) by lia.
        rewrite Z.pow_add_r by lia. change (2 ^ 9) with 512.
        pose proof (pow2_pos (- e) ltac:(lia)). lia.
      + exfalso. apply Hc; [cbn; lia | lia | lia | | reflexivity].
        replace (- (e + -9)) with (- e + 9) by lia.
        rewrite Z.pow_add_r by lia. change (2 ^ 9) with 512.
        pose proof (pow2_pos (- e) ltac:(lia)). lia.
      + destruct Hc as (_ & He' & Hm'); [cbn; lia | lia | lia | | reflexivity |].
        * replace (- (e + -9)) with (- e + 9) by lia.
          rewrite Z.pow_add_r by lia. change (2 ^ 9) with 512.
          pose proof (pow2_pos (- e) ltac:(lia)). lia.
        * exact (f32_trunc_capped 32767 s' m' e' ltac:(lia) He' Hm'). }
  split; [|exact Hb].
  unfold astype_int16. change (ftrunc (fmul y (of_Z 32767)))
    with (f32_trunc (SFmul 24 128 y f32_32767)).
  apply wrap_int16_small. lia.
Qed.

Lemma SFltb_one_positive (m : spec_float) :
  SFltb f32_one m = true -> SFltb (S754_zero false) m = true.
Proof. destruct m as [[]|[]| |[] mm em]; intros H; sf_compare. Qed.

(** [array_to_wav_bytes] wraps no sample of a float32 array of finite
    values around: the array is divided by its peak when that exceeds 1, so
    every value written is the truncation of a sample times 32767 and lies
    between -32767 and 32767. *)
Theorem array_to_wav_bytes_never_wraps (config : AudioConfig)
    (a : ndarray spec_float) (wav_bytes : bytes) :
  Forall finite (data a) ->
  array_to_wav_bytes config a = Ok wav_bytes ->
  exists peak : spec_float,
    np_amax (map fabs (data a)) = Ok peak
    /\ let scaled :=
         map (fun x => if fgt peak (of_Z 1) then fdiv x peak else x) (data a) in
       skipn 44 wav_bytes
       = tobytes (map (fun x => ftrunc (fmul x (of_Z 32767))) scaled)
       /\ Forall (fun x => -32767 <= ftrunc (fmul x (of_Z 32767)) <= 32767)
                 scaled.
Proof.
  intros Hfin.
  unfold array_to_wav_bytes, except_Exception.
  destruct (bind_result _ _) as [file|e] eqn:Hrun.
  2:{ destruct (is_Exception e); discriminate. }
  intros [= <-].
  assert (Hdata : data (match dtype a with
                        | np_float32 => a
                        | np_float64 => astype_float32 a
                        end) = data a).
  { destruct (dtype a); [reflexivity|]. cbn. apply map_id. }
  rewrite Hdata in Hrun.
  destruct (np_amax (map fabs (data a))) as [peak|] eqn:Hpeak; [|discriminate].
  cbn [bind_result] in Hrun.
  exists peak. split; [reflexivity|]. cbv zeta.
  assert (Hfabs : Forall finite (map fabs (data a))).
  { apply List.Forall_forall. intros y Hy.
    apply in_map_iff in Hy as (x & <- & Hx).
    rewrite List.Forall_forall in Hfin. apply finite_fabs, Hfin, Hx. }
  destruct (np_amax_upper _ _ Hfabs Hpeak) as [Hpfin Hupper].
  assert (Hunit : Forall (fun y => f32_finite y
                                   /\ SFltb f32_one (SFabs y) = false)
            (map (fun x => if fgt peak (of_Z 1) then fdiv x peak else x)
                 (data a))).
  { apply List.Forall_forall. intros y Hy.
    apply in_map_iff in Hy as (x & <- & Hx).
    rewrite List.Forall_forall in Hfin, Hupper.
    pose proof (Hfin x Hx) as Hxfin.
    pose proof (Hupper (fabs x) (in_map fabs _ _ Hx)) as Hxp.
    destruct (fgt peak (of_Z 1)) eqn:Hloud.
    - apply SFdiv_unit_bound; [exact Hxfin | exact Hpfin | | exact Hxp].
      apply SFltb_one_positive. exact Hloud.
    - split; [exact Hxfin|].
      exact (SFltb_le_trans (SFabs x) peak f32_one Hpfin Hxp Hloud). }
  assert (Hwrite : wave_write (num_channels config) (bits_per_sample config / 8)
             (sample_rate config)
             (tobytes (scale_int16
                (map (fun x => if fgt peak (of_Z 1) then fdiv x peak else x)
                     (data a))))
           = Ok file).
  { destruct (fgt peak (of_Z 1)); cbn [bind_result data] in Hrun.
    - exact Hrun.
    - rewrite map_id. rewrite Hdata in Hrun. exact Hrun. }
  apply wave_write_frames in Hwrite as (header & -> & Hheader & _).
  split.
  - rewrite skipn_app, Hheader, skipn_all2 by lia.
    replace (44 - 44)%nat with 0%nat by reflexivity. rewrite skipn_O.
    cbn [app]. f_equal. unfold scale_int16.
    apply map_ext_in. intros y Hy.
    rewrite List.Forall_forall in Hunit.
    destruct (Hunit y Hy) as [Hy1 Hy2].
    apply (quantise_unit_f32 y Hy1 Hy2).
  - eapply List.Forall_impl; [|exact Hunit].
    intros y [Hy1 Hy2]. apply (quantise_unit_f32 y Hy1 Hy2).
Qed.

Lemma In_int16_values (z0 : Z) (n : nat) (z : Z) :
  z0 <= z < z0 + Z.of_nat n -> In z (consecutive n z0).
Proof.
  revert z0. induction n as [|n IH]; intros z0 Hz; [lia|].
  cbn [consecutive]. destruct (Z.eq_dec z0 z) as [->|Hne]; [left; reflexivity|].
  right. apply IH. lia.
Qed.

(** Each of the 65536 16-bit values is read back as a finite float32 value
    between [f32_lowest] and 1: by evaluation. *)
Lemma dequantise_range (z : Z) :
  -32768 <= z < 32768 -> read_back_range (dequantise z) = true.
Proof.
  intros Hz.
  assert (H : forallb (fun z => read_back_range (dequantise z))
                (consecutive (Z.to_nat 65536) (-32768)) = true)
    by (vm_compute; reflexivity).
  rewrite forallb_forall in H. apply H.
  apply In_int16_values. lia.
Qed.

(** The samples [wav_bytes_to_array] returns are finite float32 values
    between -32768/32767 (rounded) and 1: the most negative 16-bit value is
    read back just below -1. *)
Theorem wav_bytes_to_array_range (wav_bytes : bytes) (a : ndarray spec_float)
    (sr : Z) :
  wav_bytes_to_array wav_bytes = Ok (a, sr) ->
  dtype a = np_float32
  /\ Forall (fun x => finite x /\ fgt x (of_Z 1) = false
                      /\ fgt f32_lowest x = false) (data a).
Proof.
  unfold wav_bytes_to_array, except_Exception.
  destruct (bind_result _ _) as [[a' sr']|e] eqn:Hrun.
  2:{ destruct (is_Exception e); discriminate. }
  intros [= <- <-].
  destruct (wave_open_rb wav_bytes) as [wav_file|]; [|discriminate].
  cbn [bind_result] in Hrun.
  destruct (frombuffer _) as [samples|] eqn:Hbuf; [|discriminate].
  cbn [bind_result] in Hrun. injection Hrun as <- _.
  split; [reflexivity|]. cbn [data].
  apply frombuffer_range in Hbuf.
  apply List.Forall_forall. intros x Hx.
  apply in_map_iff in Hx as (z & <- & Hz).
  rewrite List.Forall_forall in Hbuf. specialize (Hbuf z Hz).
  pose proof (dequantise_range z Hbuf) as Hr.
  unfold read_back_range in Hr.
  apply andb_prop in Hr as [Hr H3]. apply andb_prop in Hr as [H1 H2].
  apply negb_true_iff in H2, H3.
  split; [|split; assumption].
  change (f32_finite (dequantise z)).
  unfold f32_finiteb in H1. unfold f32_finite.
  destruct (dequantise z); try discriminate; [exact I | exact H1].
Qed.

(** A finite value divided by its own magnitude is 1 or -1, exactly. *)
Lemma SFdiv_self (s : bool) (m : positive) (e : Z) :
  SFdiv 24 128 (S754_finite s m e) (S754_finite false m e)
  = S754_finite s 8388608 (-23).
Proof.
  cbn [SFdiv]. unfold SFdiv_core_binary. cbv zeta.
  replace (Zdigits2 (Z.pos m) + e - (Zdigits2 (Z.pos m) + e)) with 0 by lia.
  replace (e - e) with 0 by lia.
  change (Z.min (fexp 24 128 0) 0) with (-24). change (0 - -24) with 24.
  cbv iota. rewrite Z.shiftl_mul_pow2 by lia. change (2 ^ 24) with 16777216.
  pose proof (Z_div_mod (Z.pos m * 16777216) (Zpos m) ltac:(lia)) as Hdiv.
  destruct (Z.div_eucl (Z.pos m * 16777216) (Z.pos m)) as [q r].
  destruct Hdiv as [Hqr Hr].
  assert (Hq : q = 16777216).
  { rewrite (Z.div_unique _ _ q r (or_introl Hr) Hqr).
    rewrite Z.mul_comm. apply Z.div_mul. lia. }
  subst q. assert (r = 0) as -> by lia.
  rewrite new_location_exact. destruct s; reflexivity.
Qed.

(** Rounding an exact value whose dropped bits are all zero. *)
Lemma binary_round_aux_exact (s : bool) (m e : Z) :
  0 <= m -> m mod 2 ^ shift_count m e = 0 ->
  0 < m / 2 ^ shift_count m e ->
  canonical (m / 2 ^ shift_count m e) (e + shift_count m e) ->
  e + shift_count m e <= 104 ->
  binary_round_aux 24 128 s m e loc_Exact
  = S754_finite s (Z.to_pos (m / 2 ^ shift_count m e)) (e + shift_count m e).
Proof.
  intros Hm Hmod Hpos Hcan Hmax. unfold binary_round_aux.
  pose proof (shr_fexp_spec m e loc_Exact Hm) as H1. cbv zeta in H1.
  destruct (shr_fexp 24 128 m e loc_Exact) as [mrs e1].
  destruct H1 as (He1 & Hm1 & Hs1).
  rewrite Hmod in Hs1. cbn in Hs1.
  destruct (round_nearest_even_spec (shr_m mrs) (loc_of_shr_record mrs))
    as [_ Hr].
  rewrite inexact_of_shr_record in Hr. rewrite (Hr Hs1).
  assert (Hm1' : 0 <= shr_m mrs) by lia.
  pose proof (shr_fexp_spec (shr_m mrs) e1 loc_Exact Hm1') as H2.
  cbv zeta in H2.
  destruct (shr_fexp 24 128 (shr_m mrs) e1 loc_Exact) as [mrs2 e2].
  destruct H2 as (He2 & Hm2 & _).
  assert (Hn2 : shift_count (shr_m mrs) e1 = 0).
  { unfold canonical in Hcan. rewrite <- Hm1, <- He1 in Hcan.
    unfold shift_count. rewrite Hcan. lia. }
  rewrite Hn2 in He2, Hm2. change (2 ^ 0) with 1 in Hm2.
  rewrite Z.div_1_r in Hm2. rewrite Hm2, Hm1.
  destruct (m / 2 ^ shift_count m e) as [|p|p] eqn:Ep; try lia.
  replace e2 with (e + shift_count m e) by lia.
  destruct (Z.leb_spec (e + shift_count m e) (128 - 24)); [reflexivity | lia].
Qed.

(** A finite value divided by 1 is itself. *)
Lemma SFdiv_one (y : spec_float) : f32_finite y -> SFdiv 24 128 y f32_one = y.
Proof.
  destruct y as [s|s| |s m e]; cbn [f32_finite]; try contradiction.
  - intros _. cbn. rewrite xorb_false_r. reflexivity.
  - intros Hb. destruct (bounded_digits _ _ Hb) as (Hcan & He & Hd & Hn).
    unfold canonical in Hcan.
    destruct (Zdigits2_bounds (Zpos m) ltac:(lia)) as (Hd0 & Hlo & Hhi).
    unfold f32_one. cbn [SFdiv]. unfold SFdiv_core_binary. cbv zeta.
    change (Zdigits2 (Z.pos 8388608)) with 24.
    rewrite xorb_false_r.
    destruct (Z.eq_dec e (-149)) as [->|Hne].
    + (* at the least exponent *)
      replace (Z.min (fexp 24 128 (Zdigits2 (Z.pos m) + -149 - (24 + -23)))
                 (-149 - -23)) with (-149) by (unfold fexp, emin; lia).
      change (-149 - -23 - -149) with 23. cbv iota.
      rewrite Z.shiftl_mul_pow2 by lia. change (2 ^ 23) with 8388608.
      pose proof (Z_div_mod (Z.pos m * 8388608) 8388608 ltac:(lia)) as Hdiv.
      destruct (Z.div_eucl (Z.pos m * 8388608) 8388608) as [q r].
      destruct Hdiv as [Hqr Hr].
      assert (q = Zpos m /\ r = 0) as [-> ->] by lia.
      rewrite new_location_exact.
      assert (Hn0 : shift_count (Zpos m) (-149) = 0).
      { unfold shift_count. rewrite Hcan. reflexivity. }
      rewrite binary_round_aux_exact; rewrite ?Hn0; change (2 ^ 0) with 1;
        rewrite ?Z.div_1_r, ?Z.mod_1_r; try lia; try reflexivity.
      unfold canonical. rewrite Z.add_0_r. exact Hcan.
    + (* a normal value *)
      rewrite Hn in * by lia.
      replace (Z.min (fexp 24 128 (24 + e - (24 + -23))) (e - -23))
        with (e - 1) by (unfold fexp, emin; lia).
      replace (e - -23 - (e - 1)) with 24 by lia. cbv iota.
      rewrite Z.shiftl_mul_pow2 by lia. change (2 ^ 24) with 16777216.
      pose proof (Z_div_mod (Z.pos m * 16777216) 8388608 ltac:(lia)) as Hdiv.
      destruct (Z.div_eucl (Z.pos m * 16777216) 8388608) as [q r].
      destruct Hdiv as [Hqr Hr].
      assert (q = 2 * Zpos m /\ r = 0) as [-> ->] by lia.
      rewrite new_location_exact.
      assert (Hd2 : Zdigits2 (2 * Zpos m) = 25).
      { apply Zdigits2_unique; [|lia].
        change (2 ^ (25 - 1)) with 16777216. change (2 ^ 25) with 33554432.
        change (2 ^ (24 - 1)) with 8388608 in Hlo.
        change (2 ^ 24) with 16777216 in Hhi. lia. }
      assert (Hn1 : shift_count (2 * Zpos m) (e - 1) = 1).
      { unfold shift_count. rewrite Hd2. unfold fexp, emin. lia. }
      assert (Hhalf : 2 * Zpos m / 2 ^ 1 = Zpos m).
      { change (2 ^ 1) with 2. rewrite Z.mul_comm. apply Z.div_mul. lia. }
      rewrite binary_round_aux_exact; rewrite ?Hn1, ?Hhalf.
      * f_equal. lia.
      * lia.
      * change (2 ^ 1) with 2. rewrite Z.mul_comm. apply Z.mod_mul. lia.
      * lia.
      * unfold canonical. rewrite Hn by lia.
        replace (e - 1 + 1) with e by lia. exact Hcan.
      * lia.
Qed.

Lemma f32_is_one (m : spec_float) :
  SFltb f32_one (SFabs m) = false -> SFltb (SFabs m) f32_one = false ->
  f32_finite m -> SFabs m = f32_one.
Proof.
  destruct m as [s|s| |s mm em]; cbn [SFabs f32_finite]; intros H1 H2 Hfin;
    try contradiction; [discriminate|].
  unfold f32_one in *.
  assert (em = -23 /\ mm = 8388608%positive) as [-> ->]; [|reflexivity].
  sf_compare; subst; auto.
Qed.

(** Normalising a float32 array of finite values twice is normalising it
    once: the normalised array has the peak 1 exactly (or the input was
    returned as it was), and dividing by 1 changes no value. *)
Theorem normalize_audio_idempotent (audio normalized : list spec_float) :
  Forall finite audio ->
  normalize_audio audio = Ok normalized ->
  normalize_audio normalized = Ok normalized.
Proof.
  intros Hfin. unfold normalize_audio at 1. unfold except_Exception.
  destruct (bind_result _ _) as [result|e] eqn:Hrun.
  2:{ destruct (is_Exception e); discriminate. }
  intros [= <-].
  destruct (np_amax (map fabs audio)) as [m|] eqn:Hm; [|discriminate].
  cbn [bind_result] in Hrun.
  destruct (fgt m (of_Z 0)) eqn:Hpos; injection Hrun as <-.
  - assert (Hfabs : Forall finite (map fabs audio)).
    { apply List.Forall_forall. intros y Hy.
      apply in_map_iff in Hy as (x & <- & Hx).
      rewrite List.Forall_forall in Hfin. apply finite_fabs, Hfin, Hx. }
    destruct (np_amax_upper _ _ Hfabs Hm) as [Hmfin Hupper].
    pose proof (np_amax_In _ _ Hm) as Hin.
    apply in_map_iff in Hin as (x0 & Hx0 & Hin0).
    set (normalized := map (fun x => fdiv x m) audio).
    assert (Hnorm : Forall (fun y => f32_finite y
                                     /\ SFltb f32_one (SFabs y) = false)
                      normalized).
    { apply List.Forall_forall. intros y Hy.
      apply in_map_iff in Hy as (x & <- & Hx).
      rewrite List.Forall_forall in Hfin, Hupper.
      apply SFdiv_unit_bound;
        [apply Hfin, Hx | exact Hmfin | exact Hpos |].
      exact (Hupper (fabs x) (in_map fabs _ _ Hx)). }
    assert (Hne : map fabs normalized <> []).
    { unfold normalized. destruct audio; [contradiction | discriminate]. }
    destruct (np_amax_nonempty _ Hne) as [m1 Hm1].
    assert (Hnfabs : Forall finite (map fabs normalized)).
    { apply List.Forall_forall. intros y Hy.
      apply in_map_iff in Hy as (x & <- & Hx).
      rewrite List.Forall_forall in Hnorm. apply finite_fabs, Hnorm, Hx. }
    destruct (np_amax_upper _ _ Hnfabs Hm1) as [Hm1fin Hupper1].
    assert (Hone : m1 = f32_one).
    { pose proof (np_amax_In _ _ Hm1) as Hin1.
      apply in_map_iff in Hin1 as (y1 & Hy1 & Hin1).
      rewrite List.Forall_forall in Hnorm, Hupper1.
      destruct (Hnorm y1 Hin1) as [Hy1fin Hy1le].
      change (fabs y1) with (SFabs y1) in Hy1. rewrite <- Hy1.
      apply f32_is_one; [exact Hy1le | | exact Hy1fin].
      rewrite Hy1.
      (* the sample of the largest magnitude becomes 1 or -1 *)
      assert (Hunit : fabs (fdiv x0 m) = f32_one).
      { change (fabs x0) with (SFabs x0) in Hx0.
        destruct x0 as [s0|s0| |s0 m0 e0]; cbn [SFabs] in Hx0; subst m;
          [discriminate Hpos | destruct Hmfin | destruct Hmfin |].
        change (fdiv (S754_finite s0 m0 e0) (S754_finite false m0 e0))
          with (SFdiv 24 128 (S754_finite s0 m0 e0) (S754_finite false m0 e0)).
        rewrite SFdiv_self. reflexivity. }
      specialize (Hupper1 (fabs (fdiv x0 m))).
      rewrite Hunit in Hupper1. apply Hupper1.
      rewrite <- Hunit. unfold normalized.
      apply (in_map fabs), (in_map (fun x => fdiv x m)), Hin0. }
    subst m1. change (normalize_audio normalized = Ok normalized).
    unfold normalize_audio. rewrite Hm1. cbn [bind_result].
    change (fgt f32_one (of_Z 0)) with true. cbn [except_Exception].
    f_equal. rewrite <- (map_id normalized) at 2.
    apply map_ext_in. intros y Hy.
    rewrite List.Forall_forall in Hnorm.
    apply SFdiv_one, Hnorm, Hy.
  - unfold normalize_audio. rewrite Hm. cbn [bind_result].
    rewrite Hpos. reflexivity.
Qed.

(** The size of the file written for the three-sample array: 50 bytes. *)
Lemma array_to_wav_bytes_size_sample :
  len sample_wav_bytes = 44 + 2 * len (data sample_array)
  /\ firstn 4 sample_wav_bytes = ascii_bytes "RIFF".
Proof.
  apply (array_to_wav_bytes_size sample_config sample_array sample_wav_bytes).
  reflexivity.
Defined.

(** The array with the sample 1.5 is divided by 1.5 before it is written:
    the values stored are 32767 and -10922. *)
Lemma array_to_wav_bytes_never_wraps_sample :
  exists peak : spec_float,
    np_amax (map fabs (data loud_array)) = Ok peak
    /\ let scaled :=
         map (fun x => if fgt peak (of_Z 1) then fdiv x peak else x)
             (data loud_array) in
       skipn 44 loud_wav_bytes
       = tobytes (map (fun x => ftrunc (fmul x (of_Z 32767))) scaled)
       /\ Forall (fun x => -32767 <= ftrunc (fmul x (of_Z 32767)) <= 32767)
                 scaled.
Proof.
  apply (array_to_wav_bytes_never_wraps sample_config loud_array
           loud_wav_bytes).
  - repeat constructor.
  - reflexivity.
Defined.

(** The file with the two extreme 16-bit values is read back as the
    float32 values nearest to -32768/32767 and 1. *)
Lemma wav_bytes_to_array_range_sample :
  dtype extreme_array = np_float32
  /\ Forall (fun x => finite x /\ fgt x (of_Z 1) = false
                      /\ fgt f32_lowest x = false) (data extreme_array).
Proof.
  apply (wav_bytes_to_array_range extreme_wav_file extreme_array 24000).
  reflexivity.
Defined.

(** The sample waveform, normalised, has the peak 1. *)
Lemma normalize_audio_idempotent_sample :
  normalize_audio [f32_one; SFopp f32_one; f32_half]
  = Ok [f32_one; SFopp f32_one; f32_half].
Proof.
  apply (normalize_audio_idempotent sample_wav).
  - repeat constructor.
  - reflexivity.
Defined.


(** ** The stream registry *)

Lemma initial_ids_drawn (settings0 : Settings) :
  registry_ids_drawn (initial_globals settings0).
Proof.
  split; intros k [v Hk]; cbn in Hk; rewrite lookup_empty in Hk; discriminate.
Qed.

Lemma get_stream_is_Some (id : nat) (g : Globals) :
  is_Some (StreamManager.get_stream id g) <-> is_Some (_streams g !! id).
Proof. unfold StreamManager.get_stream. apply fmap_is_Some. Qed.

(** What a successful [create_stream] has done. *)
Lemma create_stream_ok (websocket : WebSocket) (g : Globals)
    (stream : Stream.AudioStream) (ws : WebSocket) (g' : Globals) :
  StreamManager.create_stream websocket g = (Ok stream, ws, g') ->
  stream = Stream.set_ping_task (Some TaskRunning)
             (Stream.new (settings g) (uuid g))
  /\ ws_accept websocket = (Ok tt, ws)
  /\ g' = {| settings := settings g;
             _streams := <[uuid g := (stream, ws)]> (_streams g);
             _active_connections := _active_connections g;
             uuid := S (uuid g) |}.
Proof.
  unfold StreamManager.create_stream, Stream.initialize. cbn [uuid4 settings].
  destruct (ws_accept websocket) as [[[]|e] ws0].
  - intros [= <- <- <-]. repeat split.
  - destruct (is_Exception e); discriminate.
Qed.

(** What a failed [create_stream] has done: an identifier was drawn, and
    nothing was registered. *)
Lemma create_stream_raise (websocket : WebSocket) (g : Globals)
    (e : exn) (ws : WebSocket) (g' : Globals) :
  StreamManager.create_stream websocket g = (Raise e, ws, g') ->
  (exists e0, ws_accept websocket = (Raise e0, ws))
  /\ g' = {| settings := settings g; _streams := _streams g;
             _active_connections := _active_connections g;
             uuid := S (uuid g) |}.
Proof.
  unfold StreamManager.create_stream, Stream.initialize. cbn [uuid4 settings].
  destruct (ws_accept websocket) as [[[]|e0] ws0]; [discriminate|].
  destruct (is_Exception e0); intros [= <- <- <-]; eauto.
Qed.

(** A stream that [create_stream] returns is registered under an identifier
    that was free, is found again by [get_stream], and displaces no other
    stream; it is active, its keepalive task runs and its transport has been
    accepted. *)
Theorem create_stream_registers (websocket : WebSocket) (g : Globals)
    (stream : Stream.AudioStream) (ws : WebSocket) (g' : Globals) :
  ids_drawn g ->
  StreamManager.create_stream websocket g = (Ok stream, ws, g') ->
  StreamManager.get_stream (Stream.session_id stream) g = None
  /\ StreamManager.get_stream (Stream.session_id stream) g' = Some stream
  /\ (forall id : nat,
        id <> Stream.session_id stream ->
        StreamManager.get_stream id g' = StreamManager.get_stream id g)
  /\ StreamManager.active_streams g' = S (StreamManager.active_streams g)
  /\ Stream._active stream = true
  /\ Stream._ping_task stream = Some TaskRunning
  /\ application_state ws = CONNECTED
  /\ ids_drawn g'.
Proof.
  intros Hids Hrun.
  apply create_stream_ok in Hrun as (-> & Haccept & ->).
  assert (Hfree : _streams g !! uuid g = None).
  { destruct (_streams g !! uuid g) eqn:E; [|reflexivity].
    assert (uuid g < uuid g)%nat by (apply Hids; eauto). lia. }
  unfold StreamManager.get_stream, StreamManager.active_streams.
  cbn [Stream.session_id Stream.set_ping_task Stream.new _streams
       Stream._active Stream._ping_task].
  repeat split.
  - rewrite Hfree. reflexivity.
  - rewrite lookup_insert_eq. reflexivity.
  - intros id Hid. rewrite lookup_insert_ne by congruence. reflexivity.
  - apply map_size_insert_None, Hfree.
  - unfold ws_accept in Haccept.
    destruct (application_state websocket); try discriminate.
    destruct (client_gone websocket); [discriminate|].
    injection Haccept as <-. reflexivity.
  - intros k Hk. cbn [_streams uuid] in *.
    destruct (decide (k = uuid g)) as [->|Hne]; [lia|].
    rewrite lookup_insert_ne in Hk by congruence.
    specialize (Hids k Hk). lia.
Qed.

(** The theorem above for the first stream of a server. *)
Lemma create_stream_registers_sample :
  let stream :=
    Stream.set_ping_task (Some TaskRunning) (Stream.new sample_settings 0) in
  let ws := {| application_state := CONNECTED; client_gone := false;
               sent := [] |} in
  let g' := snd (StreamManager.create_stream fresh_websocket
                   (initial_globals sample_settings)) in
  StreamManager.get_stream (Stream.session_id stream)
    (initial_globals sample_settings) = None
  /\ StreamManager.get_stream (Stream.session_id stream) g' = Some stream
  /\ (forall id : nat,
        id <> Stream.session_id stream ->
        StreamManager.get_stream id g'
        = StreamManager.get_stream id (initial_globals sample_settings))
  /\ StreamManager.active_streams g'
     = S (StreamManager.active_streams (initial_globals sample_settings))
  /\ Stream._active stream = true
  /\ Stream._ping_task stream = Some TaskRunning
  /\ application_state ws = CONNECTED
  /\ ids_drawn g'.
Proof.
  apply (create_stream_registers fresh_websocket
           (initial_globals sample_settings)).
  - apply initial_ids_drawn.
  - reflexivity.
Defined.

(** [remove_stream] forgets the stream it is given and no other; removing
    an identifier that is not registered changes nothing, so that a second
    removal is harmless. *)
Theorem remove_stream_forgets (session_id : nat) (g : Globals) :
  let g' := StreamManager.remove_stream session_id g in
  StreamManager.get_stream session_id g' = None
  /\ (forall id : nat,
        id <> session_id ->
        StreamManager.get_stream id g' = StreamManager.get_stream id g)
  /\ (StreamManager.get_stream session_id g = None -> g' = g)
  /\ StreamManager.remove_stream session_id g' = g'
  /\ StreamManager.active_streams g'
     = (StreamManager.active_streams g
        - match StreamManager.get_stream session_id g with
          | Some _ => 1
          | None => 0
          end)%nat.
Proof.
  cbv zeta.
  unfold StreamManager.remove_stream, StreamManager.get_stream,
    StreamManager.active_streams.
  destruct (_streams g !! session_id) as [[stream ws]|] eqn:E;
    cbn [_streams set_streams fmap option_fmap option_map].
  - rewrite lookup_delete_eq. cbn [fmap option_fmap option_map].
    repeat split.
    + intros id Hid. rewrite lookup_delete_ne by congruence. reflexivity.
    + discriminate.
    + rewrite map_size_delete, E. lia.
  - rewrite E. cbn [fmap option_fmap option_map].
    repeat split; try reflexivity; lia.
Qed.


(** ** The connection registry *)

(** What a successful [connect] has done. *)
Lemma connect_ok (websocket : WebSocket) (g : Globals)
    (id : nat) (ws : WebSocket) (g' : Globals) :
  WebSocketManager.connect websocket g = (Ok id, ws, g') ->
  id = uuid g
  /\ exists stream : Stream.AudioStream,
       g' = {| settings := settings g;
               _streams := <[uuid g := (stream, ws)]> (_streams g);
               _active_connections := <[uuid g := ws]> (_active_connections g);
               uuid := S (uuid g) |}.
Proof.
  unfold WebSocketManager.connect.
  destruct (validate_connection_limit g) as [?|e].
  2:{ destruct (is_Exception e); discriminate. }
  destruct (StreamManager.create_stream websocket g) as [[[stream|e] ws0] g0]
    eqn:Hcreate.
  2:{ destruct (is_Exception e); discriminate. }
  apply create_stream_ok in Hcreate as (-> & _ & ->).
  cbn. intros [= <- <- <-]. split; [reflexivity|]. eexists. reflexivity.
Qed.

(** A failed [connect] registers nothing. *)
Lemma connect_raise (websocket : WebSocket) (g : Globals)
    (e : exn) (ws : WebSocket) (g' : Globals) :
  WebSocketManager.connect websocket g = (Raise e, ws, g') ->
  _streams g' = _streams g /\ _active_connections g' = _active_connections g.
Proof.
  unfold WebSocketManager.connect.
  destruct (validate_connection_limit g) as [?|e0].
  2:{ destruct (is_Exception e0); intros [= <- <- <-]; split; reflexivity. }
  destruct (StreamManager.create_stream websocket g) as [[[stream|e0] ws0] g0]
    eqn:Hcreate; [discriminate|].
  apply create_stream_raise in Hcreate as (_ & ->).
  destruct (is_Exception e0); intros [= <- <- <-]; split; reflexivity.
Qed.

(** Disconnecting a session right after it was admitted restores both
    registries. *)
Theorem connect_then_disconnect (websocket : WebSocket) (g : Globals)
    (id : nat) (ws : WebSocket) (g' : Globals) :
  registry_ids_drawn g ->
  WebSocketManager.connect websocket g = (Ok id, ws, g') ->
  StreamManager.get_stream id g = None
  /\ is_Some (StreamManager.get_stream id g')
  /\ _active_connections g' !! id = Some ws
  /\ _streams (WebSocketManager.disconnect id g') = _streams g
  /\ _active_connections (WebSocketManager.disconnect id g')
     = _active_connections g.
Proof.
  intros [Hstreams Hconns] Hrun.
  apply connect_ok in Hrun as (-> & stream & ->).
  assert (Hfree : _streams g !! uuid g = None).
  { destruct (_streams g !! uuid g) eqn:E; [|reflexivity].
    assert (uuid g < uuid g)%nat by (apply Hstreams; eauto). lia. }
  assert (Hfree' : _active_connections g !! uuid g = None).
  { destruct (_active_connections g !! uuid g) eqn:E; [|reflexivity].
    assert (uuid g < uuid g)%nat by (apply Hconns; eauto). lia. }
  unfold WebSocketManager.disconnect, StreamManager.remove_stream,
    StreamManager.get_stream.
  cbn [_active_connections _streams]. rewrite !lookup_insert_eq, Hfree.
  cbn [_active_connections _streams set_streams set_active_connections
       fmap option_fmap option_map].
  rewrite !delete_insert_id by assumption.
  repeat split. eauto.
Qed.

(** The theorem above for the first session of a server. *)
Lemma connect_then_disconnect_sample :
  let ws := {| application_state := CONNECTED; client_gone := false;
               sent := [] |} in
  let g := initial_globals sample_settings in
  let g' := snd (WebSocketManager.connect fresh_websocket g) in
  StreamManager.get_stream 0 g = None
  /\ is_Some (StreamManager.get_stream 0 g')
  /\ _active_connections g' !! 0%nat = Some ws
  /\ _streams (WebSocketManager.disconnect 0 g') = _streams g
  /\ _active_connections (WebSocketManager.disconnect 0 g')
     = _active_connections g.
Proof.
  apply (connect_then_disconnect fresh_websocket
           (initial_globals sample_settings)).
  - apply initial_ids_drawn.
  - reflexivity.
Defined.

Lemma registry_step_domains (g : Globals) (call : registry_call) :
  dom (_active_connections g) = dom (_streams g) ->
  dom (_active_connections (registry_step g call))
  = dom (_streams (registry_step g call)).
Proof.
  intros Hdom. destruct call as [websocket|id]; cbn [registry_step].
  - destruct (WebSocketManager.connect websocket g) as [[[id|e] ws] g']
      eqn:Hrun; cbn [snd].
    + apply connect_ok in Hrun as (-> & stream & ->).
      cbn [_active_connections _streams].
      rewrite !dom_insert_L, Hdom. reflexivity.
    + apply connect_raise in Hrun as [-> ->]. exact Hdom.
  - unfold WebSocketManager.disconnect, StreamManager.remove_stream.
    destruct (_active_connections g !! id) eqn:Hc; [|exact Hdom].
    destruct (_streams g !! id) as [[stream ws]|] eqn:Hs;
      cbn [_active_connections _streams set_streams set_active_connections].
    + rewrite !dom_delete_L, Hdom. reflexivity.
    + rewrite dom_delete_L, Hdom.
      apply not_elem_of_dom in Hs. apply set_eq. intros k.
      rewrite elem_of_difference, elem_of_singleton.
      split; [tauto|]. intros Hk. split; [exact Hk|].
      intros ->. contradiction.
Qed.

(** While sessions are admitted and removed through [ws_manager] only, the
    two registries hold the same identifiers: a session has a connection
    exactly when it has a stream, and [active_connections] equals
    [active_streams]. *)
Theorem ws_manager_registries_in_step
    (settings0 : Settings) (calls : list registry_call) :
  let g := fold_left registry_step calls (initial_globals settings0) in
  (forall id : nat,
      is_Some (_active_connections g !! id)
      <-> is_Some (StreamManager.get_stream id g))
  /\ WebSocketManager.active_connections g = StreamManager.active_streams g.
Proof.
  cbv zeta.
  assert (Hdom : dom (_active_connections
                        (fold_left registry_step calls
                           (initial_globals settings0)))
                 = dom (_streams (fold_left registry_step calls
                                    (initial_globals settings0)))).
  { assert (Hinv : forall g, dom (_active_connections g) = dom (_streams g) ->
               dom (_active_connections (fold_left registry_step calls g))
               = dom (_streams (fold_left registry_step calls g))).
    { induction calls as [|call calls IH]; intros g Hg; [exact Hg|].
      cbn [fold_left]. apply IH, registry_step_domains, Hg. }
    apply Hinv. cbn. rewrite !dom_empty_L. reflexivity. }
  split.
  - intros id. rewrite get_stream_is_Some, <- !elem_of_dom, Hdom. reflexivity.
  - unfold WebSocketManager.active_connections, StreamManager.active_streams.
    rewrite <- !size_dom, Hdom. reflexivity.
Qed.

(** ** Sessions of the endpoint *)

Lemma ws_close_twice (ws : WebSocket) :
  snd (ws_close (snd (ws_close ws))) = snd (ws_close ws).
Proof.
  unfold ws_close.
  destruct (application_state ws) eqn:E; destruct (client_gone ws) eqn:G;
    cbn; rewrite ?E, ?G; reflexivity.
Qed.

Lemma close_twice (self : Stream.AudioStream) (ws : WebSocket) :
  Stream.close (fst (Stream.close self ws)) (snd (Stream.close self ws))
  = Stream.close self ws.
Proof.
  unfold Stream.close. cbn [fst snd Stream.session_id Stream.config
    Stream._ping_task Stream._stream_task].
  rewrite ws_close_twice.
  destruct (Stream._ping_task self), (Stream._stream_task self); reflexivity.
Qed.

Lemma cleanup_session_twice (h : Handler.WSMessageHandler) :
  Handler.cleanup_session (Handler.cleanup_session h)
  = Handler.cleanup_session h.
Proof.
  unfold Handler.cleanup_session.
  cbn [Handler.stream Handler.set_active].
  destruct (Handler.stream h) as [self|] eqn:E; [|cbn; rewrite E; reflexivity].
  unfold Handler.close_stream, Stream.close_conn, Handler.conn_of.
  cbn [snd Stream.stream Stream.websocket Stream.pending Handler.websocket
       Handler.pending Handler.set_active].
  pose proof (close_twice self (Handler.websocket h)) as Htwice.
  destruct (Stream.close self (Handler.websocket h)) as [self1 ws1].
  cbn [fst snd] in Htwice.
  cbn [Handler.set_conn Handler.stream Handler.websocket Handler.pending
       Stream.stream Stream.websocket Stream.pending Handler.session_id
       Handler._active Handler._message_queue Handler._tasks snd].
  rewrite Htwice. reflexivity.
Qed.

Lemma cleanup_session_id (h : Handler.WSMessageHandler) :
  Handler.session_id (Handler.cleanup_session h) = Handler.session_id h.
Proof.
  unfold Handler.cleanup_session. cbn [Handler.stream Handler.set_active].
  destruct (Handler.stream h); reflexivity.
Qed.

Lemma disconnect_twice (id : nat) (g : Globals) :
  WebSocketManager.disconnect id (WebSocketManager.disconnect id g)
  = WebSocketManager.disconnect id g.
Proof.
  destruct (_active_connections g !! id) eqn:E.
  - unfold WebSocketManager.disconnect. rewrite E.
    cbn [_active_connections set_active_connections].
    rewrite lookup_delete_eq. reflexivity.
  - unfold WebSocketManager.disconnect. rewrite !E. reflexivity.
Qed.

(** Tearing a session down twice is tearing it down once: the second
    [cleanup] finds the flag cleared, the stream closed and the session
    gone from [ws_manager], and changes nothing. *)
Theorem cleanup_idempotent (g : Globals) (h : Handler.WSMessageHandler) :
  Handler.cleanup (fst (Handler.cleanup g h)) (snd (Handler.cleanup g h))
  = Handler.cleanup g h.
Proof.
  unfold Handler.cleanup. cbn [fst snd].
  rewrite cleanup_session_twice, cleanup_session_id, disconnect_twice.
  reflexivity.
Qed.


(** What a session opened by the endpoint looks like: the handler and its
    stream carry two different identifiers, drawn one after the other, and
    only the stream's is registered. *)
Lemma endpoint_open_ok (websocket : WebSocket) (schedule : list env_event)
    (g g' : Globals) (h : Handler.WSMessageHandler) :
  Handler.websocket_endpoint_open websocket schedule g = (Ok tt, g', h) ->
  Handler.session_id h = uuid g
  /\ exists (self : Stream.AudioStream) (ws : WebSocket),
       Handler.stream h = Some self
       /\ Stream.session_id self = S (uuid g)
       /\ Handler.websocket h = ws
       /\ application_state ws = CONNECTED
       /\ Handler._tasks h = [Handler.ProcessMessages; Handler.Keepalive]
       /\ g' = {| settings := settings g;
                  _streams := <[S (uuid g) := (self, ws)]> (_streams g);
                  _active_connections := _active_connections g;
                  uuid := S (S (uuid g)) |}.
Proof.
  unfold Handler.websocket_endpoint_open, Handler.new, Handler.initialize.
  cbn [uuid4 Handler.websocket].
  destruct (StreamManager.create_stream websocket _) as [[[self|e] ws] g1]
    eqn:Hcreate.
  2:{ destruct (is_Exception e); discriminate. }
  intros [= <- <-].
  apply create_stream_ok in Hcreate as (-> & Haccept & ->).
  cbn. split; [reflexivity|]. eexists. eexists.
  repeat split.
  unfold ws_accept in Haccept.
  destruct (application_state websocket); try discriminate.
  destruct (client_gone websocket); [discriminate|].
  injection Haccept as <-. reflexivity.
Qed.

(** The registries after a session was opened: one stream more, and no
    connection under the handler's identifier, so that [disconnect] of that
    identifier does nothing. *)
Lemma endpoint_open_registry
    (websocket : WebSocket) (schedule : list env_event)
    (g g' : Globals) (h : Handler.WSMessageHandler) :
  registry_ids_drawn g ->
  Handler.websocket_endpoint_open websocket schedule g = (Ok tt, g', h) ->
  StreamManager.active_streams g' = S (StreamManager.active_streams g)
  /\ registry_ids_drawn g'
  /\ WebSocketManager.disconnect (Handler.session_id h) g' = g'.
Proof.
  intros [Hstreams Hconns] Hopen.
  apply endpoint_open_ok in Hopen
    as (Hid & self & ws & Hself & Hsid & Hws & Hstate & Htasks & ->).
  assert (Hfree : _streams g !! S (uuid g) = None).
  { destruct (_streams g !! S (uuid g)) eqn:E; [|reflexivity].
    assert (S (uuid g) < uuid g)%nat by (apply Hstreams; eauto). lia. }
  split; [|split; [split|]].
  - unfold StreamManager.active_streams. cbn [_streams].
    apply map_size_insert_None, Hfree.
  - intros k Hk. cbn [_streams uuid] in *.
    destruct (decide (k = S (uuid g))) as [->|Hne]; [lia|].
    rewrite lookup_insert_ne in Hk by congruence.
    specialize (Hstreams k Hk). lia.
  - intros k Hk. cbn [_active_connections uuid] in *.
    specialize (Hconns k Hk). lia.
  - rewrite Hid. unfold WebSocketManager.disconnect.
    cbn [_active_connections].
    destruct (_active_connections g !! uuid g) eqn:E; [|reflexivity].
    assert (uuid g < uuid g)%nat by (apply Hconns; eauto). lia.
Qed.

(** The endpoint never takes its stream out of [stream_manager].  The
    [cleanup] of a session asks [ws_manager] to forget the handler's own
    identifier, which is not the one its stream was registered under: the
    stream stays registered and counted, however the session went. *)
Theorem endpoint_session_stays_registered
    (websocket : WebSocket) (schedule : list env_event)
    (g g' : Globals) (h : Handler.WSMessageHandler) :
  registry_ids_drawn g ->
  Handler.websocket_endpoint_open websocket schedule g = (Ok tt, g', h) ->
  StreamManager.active_streams g' = S (StreamManager.active_streams g)
  /\ forall h' : Handler.WSMessageHandler,
       Handler.session_id h' = Handler.session_id h ->
       let g'' := fst (Handler.cleanup g' h') in
       (forall id : nat,
           is_Some (StreamManager.get_stream id g'')
           <-> is_Some (StreamManager.get_stream id g'))
       /\ StreamManager.active_streams g''
          = S (StreamManager.active_streams g)
       /\ registry_ids_drawn g''.
Proof.
  intros Hids Hopen.
  destruct (endpoint_open_registry _ _ _ _ _ Hids Hopen)
    as (Hsize & Hids' & Hnoop).
  split; [exact Hsize|].
  intros h' Hh'. cbv zeta. unfold Handler.cleanup. cbn [fst].
  rewrite cleanup_session_id, Hh', Hnoop.
  split; [reflexivity|]. split; [exact Hsize | exact Hids'].
Qed.

(** The theorem above for the first session of a server. *)
Lemma endpoint_session_stays_registered_sample :
  let g := initial_globals sample_settings in
  let g' := snd (fst (Handler.websocket_endpoint_open fresh_websocket [] g)) in
  let h := snd (Handler.websocket_endpoint_open fresh_websocket [] g) in
  StreamManager.active_streams g' = S (StreamManager.active_streams g)
  /\ forall h' : Handler.WSMessageHandler,
       Handler.session_id h' = Handler.session_id h ->
       let g'' := fst (Handler.cleanup g' h') in
       (forall id : nat,
           is_Some (StreamManager.get_stream id g'')
           <-> is_Some (StreamManager.get_stream id g'))
       /\ StreamManager.active_streams g''
          = S (StreamManager.active_streams g)
       /\ registry_ids_drawn g''.
Proof.
  apply (endpoint_session_stays_registered fresh_websocket []
           (initial_globals sample_settings)).
  - apply initial_ids_drawn.
  - reflexivity.
Defined.

(** After [n] clients have come and gone through the endpoint,
    [stream_manager] still counts [n] streams, and [ws_manager] none. *)
Theorem ended_sessions_stay_counted (settings0 : Settings) (n : nat) :
  let g := ended_sessions n (initial_globals settings0) in
  StreamManager.active_streams g = n
  /\ WebSocketManager.active_connections g = 0%nat.
Proof.
  cbv zeta.
  assert (Hinv : registry_ids_drawn (ended_sessions n (initial_globals settings0))
                 /\ _active_connections
                      (ended_sessions n (initial_globals settings0)) = ∅
                 /\ StreamManager.active_streams
                      (ended_sessions n (initial_globals settings0)) = n).
  { induction n as [|n IH].
    - split; [apply initial_ids_drawn|]. split; reflexivity.
    - destruct IH as (Hids & Hempty & Hcount). cbn [ended_sessions].
      set (g := ended_sessions n (initial_globals settings0)) in *.
      destruct (Handler.websocket_endpoint_open fresh_websocket [] g)
        as [[r g'] h] eqn:Hopen.
      assert (r = Ok tt) as ->.
      { destruct (endpoint_open_fresh g) as (stream & ws & h0 & E).
        rewrite E in Hopen. injection Hopen as <- _ _. reflexivity. }
      destruct (endpoint_open_registry _ _ _ _ _ Hids Hopen)
        as (Hsize & Hids' & Hnoop).
      unfold Handler.cleanup. cbn [fst].
      assert (Hsame : Handler.session_id (Handler.cleanup_session h)
                      = Handler.session_id h) by apply cleanup_session_id.
      rewrite Hsame, Hnoop.
      split; [exact Hids'|]. split; [|congruence].
      apply endpoint_open_ok in Hopen as (_ & self & ws & _ & _ & _ & _ & _ & ->).
      exact Hempty. }
  destruct Hinv as (_ & Hempty & Hcount). split; [exact Hcount|].
  unfold WebSocketManager.active_connections. rewrite Hempty.
  apply map_size_empty.
Qed.

(** A connection whose handshake fails: [initialize] raises, no stream is
    registered and no task is started, and since the handler has no stream
    the endpoint's [cleanup] does not close the WebSocket either. *)
Theorem endpoint_failed_handshake
    (websocket : WebSocket) (schedule : list env_event) (g : Globals) :
  application_state websocket <> CONNECTING \/ client_gone websocket = true ->
  exists (g' : Globals) (h : Handler.WSMessageHandler),
    Handler.websocket_endpoint_open websocket schedule g
    = (Raise (WebSocketError "WebSocket initialization failed"), g', h)
    /\ _streams g' = _streams g
    /\ _active_connections g' = _active_connections g
    /\ Handler.stream h = None
    /\ Handler._tasks h = []
    /\ Handler.websocket h = snd (ws_accept websocket)
    /\ sent (Handler.websocket h) = sent websocket
    /\ Handler.websocket (snd (Handler.cleanup g' h)) = Handler.websocket h.
Proof.
  intros Hbad.
  assert (Haccept : exists e, ws_accept websocket = (Raise e, snd (ws_accept websocket))
                              /\ is_Exception e = true
                              /\ sent (snd (ws_accept websocket)) = sent websocket).
  { unfold ws_accept.
    destruct (application_state websocket) eqn:E.
    - destruct Hbad as [Hbad|Hbad]; [congruence|]. rewrite Hbad.
      eexists. repeat split.
    - eexists. repeat split.
    - eexists. repeat split. }
  destruct Haccept as (e & Haccept & He & Hsent).
  unfold Handler.websocket_endpoint_open, Handler.new, Handler.initialize,
    StreamManager.create_stream, Stream.initialize.
  cbn [uuid4 Handler.websocket settings].
  rewrite Haccept, He. cbn [is_Exception].
  eexists. eexists. split; [reflexivity|].
  cbn [_streams _active_connections Handler.stream Handler._tasks
       Handler.websocket Handler.set_websocket].
  repeat split. exact Hsent.
Qed.

(** The theorem above for a client that went away before the handshake. *)
Lemma endpoint_failed_handshake_sample :
  exists (g' : Globals) (h : Handler.WSMessageHandler),
    Handler.websocket_endpoint_open abandoned_websocket []
      (initial_globals sample_settings)
    = (Raise (WebSocketError "WebSocket initialization failed"), g', h)
    /\ _streams g' = _streams (initial_globals sample_settings)
    /\ _active_connections g'
       = _active_connections (initial_globals sample_settings)
    /\ Handler.stream h = None
    /\ Handler._tasks h = []
    /\ Handler.websocket h = snd (ws_accept abandoned_websocket)
    /\ sent (Handler.websocket h) = sent abandoned_websocket
    /\ Handler.websocket (snd (Handler.cleanup g' h)) = Handler.websocket h.
Proof.
  apply (endpoint_failed_handshake abandoned_websocket []
           (initial_globals sample_settings)).
  right. reflexivity.
Defined.


(** ** Requests the handler answers without streaming *)

Lemma py_float_raises (float_of_string : string -> option Q) (v : json) :
  raises_Exception (Handler.py_float float_of_string v).
Proof.
  unfold Handler.py_float.
  destruct v; try (destruct (float_of_string _)); auto with raises.
Qed.

Section RequestProperties.
Context {T : Type} {NP : NpScalar T}.
Variable tts_model : TTSModel T.
Variable float_of_string : string -> option Q.

(** A [synthesize] request whose [text] is missing, empty or otherwise
    false gets the one error frame ["No text provided"]; no synthesis task
    is created and the stream is not touched. *)
Theorem synthesize_without_text
    (fields : list (string * json)) (h : Handler.WSMessageHandler)
    (self : Stream.AudioStream) :
  message_type fields = JStr "synthesize" ->
  py_truthy (get_field fields "text" JNull) = false ->
  Handler.stream h = Some self ->
  application_state (Handler.websocket h) = CONNECTED ->
  client_gone (Handler.websocket h) = false ->
  Handler._handle_message tts_model float_of_string (JObj fields) h
  = (Ok tt, reply (error_frame "No text provided") h)
  /\ Handler.synthesis_request float_of_string (JObj fields) h = None
  /\ Handler.stream (reply (error_frame "No text provided") h) = Some self
  /\ Handler._tasks (reply (error_frame "No text provided") h)
     = Handler._tasks h.
Proof.
  intros Hty Htext Hself Hstate Hgone.
  unfold Handler.synthesis_request, Handler._handle_message,
    Handler._handle_synthesis, Handler.synthesis_arguments,
    Handler.try_except, Handler.bind, Handler.lift, Handler.raise,
    Handler.ret, dict_get.
  fold (message_type fields). fold (get_field fields "text" JNull).
  rewrite Hty. cbn [json_eq_str].
  change (String.eqb "synthesize" "synthesize") with true. cbv beta iota.
  rewrite Hself, Htext. cbn [negb]. cbv beta iota.
  rewrite (send_error_connected _ _ Hstate Hgone).
  repeat split. exact Hself.
Qed.

(** A [synthesize] request whose [speed] is not something [float] accepts
    gets the one error frame ["Synthesis failed"].  The engine is not
    called and no synthesis task is created; unlike after a failure of the
    engine, the stream stays as it was. *)
Theorem synthesize_bad_speed
    (fields : list (string * json)) (h : Handler.WSMessageHandler)
    (self : Stream.AudioStream) (e : exn) :
  message_type fields = JStr "synthesize" ->
  py_truthy (get_field fields "text" JNull) = true ->
  Handler.py_float float_of_string (get_field fields "speed" (JFloat 1))
    = Raise e ->
  Handler.stream h = Some self ->
  application_state (Handler.websocket h) = CONNECTED ->
  client_gone (Handler.websocket h) = false ->
  Handler._handle_message tts_model float_of_string (JObj fields) h
  = (Ok tt, reply (error_frame "Synthesis failed") h)
  /\ Handler.synthesis_request float_of_string (JObj fields) h = None
  /\ Handler.stream (reply (error_frame "Synthesis failed") h) = Some self
  /\ Handler._tasks (reply (error_frame "Synthesis failed") h)
     = Handler._tasks h.
Proof.
  intros Hty Htext Hspeed Hself Hstate Hgone.
  pose proof (py_float_raises _ _ _ Hspeed) as He.
  unfold Handler.synthesis_request, Handler._handle_message,
    Handler._handle_synthesis, Handler.synthesis_arguments,
    Handler.try_except, Handler.bind, Handler.lift, Handler.raise,
    Handler.ret, dict_get.
  fold (message_type fields). fold (get_field fields "text" JNull).
  fold (get_field fields "speed" (JFloat 1)).
  rewrite Hty. cbn [json_eq_str].
  change (String.eqb "synthesize" "synthesize") with true. cbv beta iota.
  rewrite Hself, Htext. cbn [negb]. cbv beta iota.
  rewrite Hspeed. cbv beta iota. rewrite He.
  rewrite (send_error_connected _ _ Hstate Hgone).
  repeat split. exact Hself.
Qed.

(** [pong] and [configure] leave the session as it is.  A [pong] is
    dropped without a reply; a [configure] is acknowledged with the one
    frame ["Configuration updated"] whatever it asks for, and on a closed
    transport not even that. *)
Theorem pong_and_configure_change_nothing
    (fields : list (string * json)) (h : Handler.WSMessageHandler) :
  (message_type fields = JStr "pong" ->
   Handler._handle_message tts_model float_of_string (JObj fields) h
   = (Ok tt, h))
  /\ (message_type fields = JStr "configure" ->
      application_state (Handler.websocket h) = CONNECTED ->
      client_gone (Handler.websocket h) = false ->
      Handler._handle_message tts_model float_of_string (JObj fields) h
      = (Ok tt, reply (success_frame "Configuration updated") h))
  /\ (message_type fields = JStr "configure" ->
      application_state (Handler.websocket h) = DISCONNECTED ->
      Handler._handle_message tts_model float_of_string (JObj fields) h
      = (Ok tt, h)).
Proof.
  split; [|split]; intros Hty;
    unfold Handler._handle_message, Handler._handle_configure,
      Handler.try_except, Handler.bind, Handler.lift, Handler.ret, dict_get;
    fold (message_type fields); rewrite Hty; cbn [json_eq_str].
  - change (String.eqb "pong" "synthesize") with false.
    change (String.eqb "pong" "pong") with true. reflexivity.
  - intros Hstate Hgone.
    change (String.eqb "configure" "synthesize") with false.
    change (String.eqb "configure" "pong") with false.
    change (String.eqb "configure" "stop") with false.
    change (String.eqb "configure" "configure") with true. cbv beta iota.
    rewrite (send_success_connected _ _ Hstate Hgone). reflexivity.
  - intros Hstate.
    change (String.eqb "configure" "synthesize") with false.
    change (String.eqb "configure" "pong") with false.
    change (String.eqb "configure" "stop") with false.
    change (String.eqb "configure" "configure") with true. cbv beta iota.
    rewrite (send_success_disconnected _ _ Hstate). reflexivity.
Qed.

End RequestProperties.

(** The first theorem at the request with the empty text. *)
Lemma synthesize_without_text_sample :
  Handler._handle_message sample_model no_float_of_string
    synthesize_nothing sample_handler
  = (Ok tt, reply (error_frame "No text provided") sample_handler)
  /\ Handler.synthesis_request no_float_of_string synthesize_nothing
       sample_handler = None
  /\ Handler.stream (reply (error_frame "No text provided") sample_handler)
     = Some (Stream.stream open_conn)
  /\ Handler._tasks (reply (error_frame "No text provided") sample_handler)
     = Handler._tasks sample_handler.
Proof.
  apply (synthesize_without_text sample_model no_float_of_string
           [("type", JStr "synthesize"); ("text", JStr "")]
           sample_handler (Stream.stream open_conn)); reflexivity.
Defined.

(** The second theorem at the request whose speed is the string ["fast"]. *)
Lemma synthesize_bad_speed_sample :
  Handler._handle_message sample_model no_float_of_string
    synthesize_fast sample_handler
  = (Ok tt, reply (error_frame "Synthesis failed") sample_handler)
  /\ Handler.synthesis_request no_float_of_string synthesize_fast
       sample_handler = None
  /\ Handler.stream (reply (error_frame "Synthesis failed") sample_handler)
     = Some (Stream.stream open_conn)
  /\ Handler._tasks (reply (error_frame "Synthesis failed") sample_handler)
     = Handler._tasks sample_handler.
Proof.
  apply (synthesize_bad_speed sample_model no_float_of_string
           [("type", JStr "synthesize"); ("text", JStr "hello");
            ("speed", JStr "fast")]
           sample_handler (Stream.stream open_conn)
           (ValueError "could not convert string to float")); reflexivity.
Defined.

(** The third theorem at a [pong] and at a [configure] that asks for
    another chunk size. *)
Lemma pong_and_configure_sample :
  Handler._handle_message sample_model no_float_of_string
    (JObj [("type", JStr "pong")]) sample_handler
  = (Ok tt, sample_handler)
  /\ Handler._handle_message sample_model no_float_of_string
       (JObj [("type", JStr "configure"); ("chunk_size", JInt 1024)])
       sample_handler
     = (Ok tt, reply (success_frame "Configuration updated") sample_handler).
Proof.
  split.
  - apply (proj1 (pong_and_configure_change_nothing sample_model
                    no_float_of_string [("type", JStr "pong")]
                    sample_handler)).
    reflexivity.
  - apply (proj1 (proj2 (pong_and_configure_change_nothing sample_model
                           no_float_of_string
                           [("type", JStr "configure");
                            ("chunk_size", JInt 1024)]
                           sample_handler))); reflexivity.
Defined.

(** ** The receive loop *)

(** The endpoint queues the decoded frames in the order they arrive and
    sends nothing of its own; the loop ends at the first disconnect or
    receive error, and what the client has sent after that is not read. *)
Theorem receive_loop_enqueues_in_order
    (messages : list json) (rest : list Handler.received)
    (h : Handler.WSMessageHandler) :
  Handler.receive_loop
    (map Handler.Received messages ++ Handler.ReceivedDisconnect :: rest) h
  = Handler.set_message_queue (Handler._message_queue h ++ messages) h
  /\ (forall e : exn,
        Handler.receive_loop
          (map Handler.Received messages ++ Handler.ReceivedError e :: rest) h
        = Handler.set_message_queue (Handler._message_queue h ++ messages) h)
  /\ Handler.receive_loop (map Handler.Received messages) h
     = Handler.set_message_queue (Handler._message_queue h ++ messages) h.
Proof.
  assert (Hsame : forall h0 : Handler.WSMessageHandler,
             Handler.set_message_queue (Handler._message_queue h0) h0 = h0)
    by (intros []; reflexivity).
  revert h. induction messages as [|m messages IH]; intros h.
  - cbn. rewrite app_nil_r, Hsame. repeat split.
  - destruct (IH (Handler.set_message_queue (Handler._message_queue h ++ [m]) h))
      as (IH1 & IH2 & IH3).
    cbn [map app Handler.receive_loop Handler.receive_turn
         Handler.handle_incoming_message snd].
    cbn [Handler._message_queue Handler.set_message_queue] in IH1, IH2, IH3.
    rewrite <- app_assoc in IH1, IH2, IH3. cbn [app] in IH1, IH2, IH3.
    split; [exact IH1|]. split; [exact IH2 | exact IH3].
Qed.


(** ** The session after its teardown *)

Lemma by_nothing (who : option nat) (h' : Handler.WSMessageHandler)
    (s : Sched.state) :
  sent (Handler.websocket h') = sent (Handler.websocket (Sched.handler s)) ->
  Sched.by_ who h' s
  = {| Sched.handler := h'; Sched.consumer := Sched.consumer s;
       Sched.synth := Sched.synth s; Sched._lock := Sched._lock s;
       Sched.trace := Sched.trace s |}.
Proof.
  intros E. unfold Sched.by_.
  rewrite (emitted_app _ _ []) by (rewrite app_nil_r; exact E).
  cbn [map]. rewrite app_nil_r. reflexivity.
Qed.

(** What [cleanup] leaves of the handler. *)
Lemma cleanup_session_closed (h : Handler.WSMessageHandler) :
  Handler.stream h <> None
  \/ application_state (Handler.websocket h) = DISCONNECTED ->
  Handler._active (Handler.cleanup_session h) = false
  /\ application_state (Handler.websocket (Handler.cleanup_session h))
     = DISCONNECTED
  /\ sent (Handler.websocket (Handler.cleanup_session h))
     = sent (Handler.websocket h).
Proof.
  intros Hor. unfold Handler.cleanup_session.
  cbn [Handler.stream Handler.set_active].
  destruct (Handler.stream h) as [self|].
  - unfold Handler.close_stream. cbn [snd Handler.set_conn Handler._active
      Handler.websocket Handler.set_active].
    split; [reflexivity|]. split.
    + apply close_conn_disconnected.
    + apply (close_conn_inactive
               (Handler.conn_of self (Handler.set_active false h))).
  - destruct Hor as [Hor|Hor]; [congruence|]. cbn. auto.
Qed.

Lemma cleanup_step_torn_down (s : Sched.state) :
  Handler.stream (Sched.handler s) <> None
  \/ application_state (Handler.websocket (Sched.handler s)) = DISCONNECTED ->
  torn_down (Sched.cleanup_step s)
  /\ Sched.trace (Sched.cleanup_step s) = Sched.trace s
  /\ sent (Handler.websocket (Sched.handler (Sched.cleanup_step s)))
     = sent (Handler.websocket (Sched.handler s)).
Proof.
  intros Hor.
  destruct (cleanup_session_closed _ Hor) as (Hact & Hstate & Hsent).
  unfold Sched.cleanup_step. rewrite (by_nothing _ _ _ Hsent).
  unfold torn_down. sched_simpl. repeat split; try assumption.
  apply List.Forall_forall. intros pc Hpc.
  apply in_map_iff in Hpc as (pc0 & <- & _). destruct pc0; exact I.
Qed.

Section TeardownProperties.
Context {T : Type} {NP : NpScalar T}.
Variable tts_model : TTSModel T.
Variable float_of_string : string -> option Q.

Lemma perform_torn_down (a : Sched.action) (s s' : Sched.state) :
  torn_down s ->
  Sched.perform tts_model float_of_string a s = Some s' ->
  torn_down s'
  /\ Sched.trace s' = Sched.trace s
  /\ sent (Handler.websocket (Sched.handler s'))
     = sent (Handler.websocket (Sched.handler s)).
Proof.
  intros Htorn. pose proof Htorn as (Hact & Hstate & Hcons & Hsynth).
  destruct a as [i| |fr| |ev|]; cbn [Sched.perform].
  - destruct (Sched.synth s !! i) as [pc|] eqn:Hi; [|discriminate].
    assert (Hpc : Sched.ended pc) by exact (Forall_lookup_1 _ _ _ _ Hsynth Hi).
    unfold Sched.task_step.
    destruct (Handler.stream (Sched.handler s)); [|discriminate].
    destruct pc; try contradiction. discriminate.
  - unfold Sched.consumer_step. rewrite Hcons. discriminate.
  - intros [= <-]. unfold Sched.receive_step.
    destruct fr as [message| | |e]; cbn [Handler.receive_turn].
    + rewrite by_nothing by reflexivity.
      unfold torn_down. sched_simpl. cbn. auto.
    + rewrite (send_error_disconnected _ _ Hstate). cbn [snd].
      rewrite by_nothing by reflexivity.
      unfold torn_down. sched_simpl. auto.
    + apply cleanup_step_torn_down. right. exact Hstate.
    + apply cleanup_step_torn_down. right. exact Hstate.
  - intros [= <-]. unfold Sched.keepalive_step. rewrite Hact. auto.
  - intros [= <-]. unfold Sched.env_step.
    destruct (Handler.stream (Sched.handler s)) as [self|]; [|auto].
    pose proof (interfere_sent ev self (Handler.websocket (Sched.handler s)))
      as Hsent.
    assert (Hstate' : application_state
                        (snd (Stream.interfere ev self
                                (Handler.websocket (Sched.handler s))))
                      = DISCONNECTED).
    { destruct ev; cbn [Stream.interfere snd]; try exact Hstate.
      apply ws_close_disconnected. }
    destruct (Stream.interfere ev self (Handler.websocket (Sched.handler s)))
      as [self' ws']. cbn [snd] in Hsent, Hstate'.
    rewrite by_nothing by exact Hsent.
    unfold torn_down. sched_simpl. cbn. auto.
  - intros [= <-]. apply cleanup_step_torn_down. right. exact Hstate.
Qed.

Lemma run_torn_down (schedule : list Sched.action) :
  forall s : Sched.state,
    torn_down s ->
    torn_down (Sched.run tts_model float_of_string schedule s)
    /\ Sched.trace (Sched.run tts_model float_of_string schedule s)
       = Sched.trace s
    /\ sent (Handler.websocket
               (Sched.handler (Sched.run tts_model float_of_string schedule s)))
       = sent (Handler.websocket (Sched.handler s)).
Proof.
  induction schedule as [|a rest IH]; intros s Htorn; [auto|].
  cbn [Sched.run].
  destruct (Sched.perform tts_model float_of_string a s) as [s'|] eqn:E;
    [|apply IH, Htorn].
  destruct (perform_torn_down a s s' Htorn E) as (Htorn' & Htrace & Hsent).
  destruct (IH s' Htorn') as (H1 & H2 & H3).
  split; [exact H1|]. split; congruence.
Qed.

(** Once [cleanup] has run on an initialised session, nothing is sent any
    more: whatever the tasks of the session and the peer do afterwards, in
    any order, the frames on the transport stay as they were, and the
    session stays torn down. *)
Theorem nothing_sent_after_cleanup
    (s : Sched.state) (schedule : list Sched.action) :
  Handler.stream (Sched.handler s) <> None ->
  let s' := Sched.run tts_model float_of_string schedule (Sched.cleanup_step s) in
  torn_down s'
  /\ Sched.trace s' = Sched.trace s
  /\ sent (Handler.websocket (Sched.handler s'))
     = sent (Handler.websocket (Sched.handler s)).
Proof.
  intros Hstream. cbv zeta.
  destruct (cleanup_step_torn_down s (or_introl Hstream))
    as (Htorn & Htrace & Hsent).
  destruct (run_torn_down schedule _ Htorn) as (H1 & H2 & H3).
  split; [exact H1|]. split; congruence.
Qed.

(** One turn of the handler's keepalive.  On an open transport it sends the
    one [ping] frame and changes nothing else.  When the send fails, it
    runs [cleanup]: the session is torn down, and no frame was sent. *)
Theorem keepalive_turn (s : Sched.state) :
  Handler._active (Sched.handler s) = true ->
  (application_state (Handler.websocket (Sched.handler s)) = CONNECTED ->
   client_gone (Handler.websocket (Sched.handler s)) = false ->
   Sched.keepalive_step s
   = {| Sched.handler := reply ping_frame (Sched.handler s);
        Sched.consumer := Sched.consumer s; Sched.synth := Sched.synth s;
        Sched._lock := Sched._lock s;
        Sched.trace := Sched.trace s ++ [(None, ping_frame)] |})
  /\ (Handler.stream (Sched.handler s) <> None ->
      application_state (Handler.websocket (Sched.handler s)) <> CONNECTED
      \/ client_gone (Handler.websocket (Sched.handler s)) = true ->
      torn_down (Sched.keepalive_step s)
      /\ Sched.trace (Sched.keepalive_step s) = Sched.trace s).
Proof.
  intros Hact. unfold Sched.keepalive_step. rewrite Hact. split.
  - intros Hstate Hgone.
    rewrite (send_json_connected _ _ Hstate Hgone).
    unfold Sched.by_. rewrite (emitted_app _ _ [ping_frame]) by reflexivity.
    reflexivity.
  - intros Hstream Hbad.
    assert (Hfail : exists e ws,
               Handler.send_json ping_frame (Sched.handler s)
               = (Raise e, Handler.set_websocket ws (Sched.handler s))
               /\ sent ws = sent (Handler.websocket (Sched.handler s))).
    { unfold Handler.send_json, ws_send.
      destruct (application_state (Handler.websocket (Sched.handler s))) eqn:E.
      - eexists. eexists. split; reflexivity.
      - destruct Hbad as [Hbad|Hbad]; [congruence|]. rewrite Hbad.
        eexists. eexists. split; reflexivity.
      - eexists. eexists. split; reflexivity. }
    destruct Hfail as (e & ws & -> & Hsent).
    rewrite by_nothing by exact Hsent.
    match goal with
    | |- torn_down (Sched.cleanup_step ?s1) /\ _ =>
        destruct (cleanup_step_torn_down s1) as (Htorn & Htrace & _);
          [left; exact Hstream|]
    end.
    split; [exact Htorn | exact Htrace].
Qed.

End TeardownProperties.

(** The first theorem at the sample session, torn down and then kept busy
    by its tasks and its peer. *)
Lemma nothing_sent_after_cleanup_sample :
  let s := Sched.initial sample_handler in
  let s' := Sched.run sample_model no_float_of_string late_schedule
              (Sched.cleanup_step s) in
  torn_down s'
  /\ Sched.trace s' = Sched.trace s
  /\ sent (Handler.websocket (Sched.handler s'))
     = sent (Handler.websocket (Sched.handler s)).
Proof.
  apply (nothing_sent_after_cleanup sample_model no_float_of_string
           (Sched.initial sample_handler) late_schedule).
  discriminate.
Defined.

(** The second theorem at the sample session, with its peer present and
    with its peer gone. *)
Lemma keepalive_turn_sample :
  Sched.keepalive_step (Sched.initial sample_handler)
  = {| Sched.handler := reply ping_frame sample_handler;
       Sched.consumer := Sched.Waiting; Sched.synth := [];
       Sched._lock := None;
       Sched.trace := [(None, ping_frame)] |}
  /\ torn_down (Sched.keepalive_step (Sched.initial deserted_handler))
  /\ Sched.trace (Sched.keepalive_step (Sched.initial deserted_handler)) = [].
Proof.
  split.
  - apply (proj1 (keepalive_turn (Sched.initial sample_handler) eq_refl));
      reflexivity.
  - apply (proj2 (keepalive_turn (Sched.initial deserted_handler) eq_refl)).
    + discriminate.
    + right. reflexivity.
Defined.


(** ** The HTTP route *)

(** Cutting a sequence into slices of [n] items and putting them together
    again. *)
Lemma slices_concat {A} (n : nat) :
  forall (k : nat) (b : list A),
    (length b <= k * n)%nat ->
    concat (map (fun j => firstn n (skipn (j * n) b)) (seq 0 k)) = b.
Proof.
  induction k as [|k IH]; intros b Hlen.
  - destruct b; [reflexivity | simpl in Hlen; lia].
  - rewrite <- cons_seq, <- seq_shift, map_cons, map_map. simpl concat.
    rewrite (map_ext (fun j => firstn n (skipn (S j * n) b))
                     (fun j => firstn n (skipn (j * n) (skipn n b)))).
    2:{ intros j. rewrite skipn_skipn.
        replace (j * n + n)%nat with (S j * n)%nat by lia. reflexivity. }
    rewrite IH by (rewrite length_skipn; lia).
    rewrite skipn_O. apply firstn_skipn.
Qed.

Lemma py_slice_window {A} (b : list A) (cs : Z) (j : nat) :
  0 < cs ->
  py_slice b (Z.of_nat j * cs) (Z.of_nat j * cs + cs)
  = firstn (Z.to_nat cs) (skipn (j * Z.to_nat cs) b).
Proof.
  intros Hcs. unfold py_slice.
  replace (Z.to_nat (Z.of_nat j * cs + cs) - Z.to_nat (Z.of_nat j * cs))%nat
    with (Z.to_nat cs) by nia.
  replace (Z.to_nat (Z.of_nat j * cs)) with (j * Z.to_nat cs)%nat by nia.
  reflexivity.
Qed.

Section RouteProperties.
Context {T : Type} {NP : NpScalar T}.

(** The chunks of the HTTP response are the WAV file cut into pieces of
    [chunk_size] bytes: put together they are the file, 44 bytes of header
    and two bytes per sample; every chunk but the last has [chunk_size]
    bytes, and the last one is not padded. *)
Theorem generate_audio_chunks_cuts_the_file
    (config : AudioConfig) (engine_dtype : np_dtype) (tts : TTSModel T)
    (text voice : json) (speed : Q) (chunk_size : Z) (chunks : list bytes) :
  0 < chunk_size ->
  generate_audio_chunks config engine_dtype tts text voice speed chunk_size
    = Ok chunks ->
  exists (wav : list T) (wav_bytes : bytes),
    generate_speech tts text voice speed "en" = Ok wav
    /\ array_to_wav_bytes config (np_array engine_dtype wav) = Ok wav_bytes
    /\ concat chunks = wav_bytes
    /\ len wav_bytes = 44 + 2 * len wav
    /\ len chunks = (len wav_bytes + chunk_size - 1) / chunk_size
    /\ (forall (i : nat) (chunk : bytes),
          chunks !! i = Some chunk ->
          0 < len chunk <= chunk_size
          /\ ((S i < length chunks)%nat -> len chunk = chunk_size)).
Proof.
  intros Hcs. unfold generate_audio_chunks, except_Exception.
  destruct (bind_result _ _) as [chunks0|e] eqn:Hrun.
  2:{ destruct (is_Exception e); discriminate. }
  intros [= <-].
  destruct (generate_speech tts text voice speed "en") as [wav|];
    [|discriminate].
  cbn [bind_result] in Hrun.
  destruct (array_to_wav_bytes config (np_array engine_dtype wav))
    as [wav_bytes|] eqn:Hwav; [|discriminate].
  cbn [bind_result] in Hrun. unfold py_range0 in Hrun.
  destruct (Z.eqb_spec chunk_size 0) as [->|_]; [lia|].
  destruct (Z.ltb_spec 0 chunk_size) as [_|?]; [|lia].
  cbn [bind_result] in Hrun. injection Hrun as <-.
  exists wav, wav_bytes. split; [reflexivity|]. split; [exact Hwav|].
  assert (Hsize : len wav_bytes = 44 + 2 * len wav).
  { destruct (array_to_wav_bytes_written _ _ _ Hwav)
      as (header & samples & -> & Hheader & _ & Hlen).
    cbn [np_array data] in Hlen. unfold len.
    rewrite length_app, length_tobytes, Hlen, Hheader. lia. }
  destruct (ceil_div_padding (len wav_bytes) chunk_size) as (Hk0 & Hk1 & Hk2);
    [unfold len; lia | lia |].
  set (k := Z.to_nat ((len wav_bytes + chunk_size - 1) / chunk_size)) in *.
  set (n := Z.to_nat chunk_size).
  rewrite map_map.
  rewrite (map_ext _ (fun j => firstn n (skipn (j * n) wav_bytes)))
    by (intros j; apply py_slice_window; exact Hcs).
  split; [apply slices_concat; unfold len in *; nia|].
  split; [exact Hsize|]. split.
  - unfold len at 1. rewrite length_map, length_seq. unfold k. lia.
  - intros i chunk Hi.
    rewrite list_lookup_fmap in Hi.
    destruct (seq 0 k !! i) as [j|] eqn:Hj; [|discriminate].
    apply lookup_seq in Hj as [-> Hik]. cbn in Hi. injection Hi as <-.
    rewrite length_map, length_seq.
    assert (Hlast : (Z.of_nat k - 1) * chunk_size < len wav_bytes).
    { assert (Z.of_nat k = (len wav_bytes + chunk_size - 1) / chunk_size)
        by (unfold k; lia).
      assert (chunk_size * ((len wav_bytes + chunk_size - 1) / chunk_size)
              + (len wav_bytes + chunk_size - 1) mod chunk_size
              = len wav_bytes + chunk_size - 1)
        by (symmetry; apply Z.div_mod; lia).
      pose proof (Z.mod_pos_bound (len wav_bytes + chunk_size - 1) chunk_size Hcs).
      nia. }
    assert (Hstart : (i * n < length wav_bytes)%nat)
      by (unfold len, n in *; nia).
    assert (Hfull : (S i < k -> i * n + n <= length wav_bytes)%nat)
      by (unfold len, n in *; nia).
    assert (Hn : Z.of_nat n = chunk_size) by (unfold n; lia).
    cbn [Nat.add]. unfold len.
    rewrite length_firstn, length_skipn.
    generalize dependent (i * n)%nat. intros p Hstart Hfull.
    split; [lia|]. intros Hnext. specialize (Hfull Hnext). lia.
Qed.

(** The route does not report its failures as [TTSError]: the exception it
    means to raise is built without its [message] argument, so what comes
    out is [TypeError], when the engine fails as well as when the engine
    returns an empty waveform. *)
Theorem generate_audio_chunks_raises_TypeError
    (config : AudioConfig) (engine_dtype : np_dtype) (tts : TTSModel T)
    (text voice : json) (speed : Q) (chunk_size : Z) :
  (forall e : exn,
      generate_speech tts text voice speed "en" = Raise e ->
      is_Exception e = true ->
      generate_audio_chunks config engine_dtype tts text voice speed chunk_size
      = Raise TTSError_without_message)
  /\ (generate_speech tts text voice speed "en" = Ok [] ->
      generate_audio_chunks config engine_dtype tts text voice speed chunk_size
      = Raise TTSError_without_message)
  /\ (forall e : exn,
        generate_audio_chunks config engine_dtype tts text voice speed chunk_size
        = Raise e ->
        is_Exception e = true ->
        e = TTSError_without_message).
Proof.
  unfold generate_audio_chunks. split; [|split].
  - intros e Hwav He. rewrite Hwav. cbn. rewrite He. reflexivity.
  - intros Hwav. rewrite Hwav. cbn [bind_result].
    replace (array_to_wav_bytes config (np_array engine_dtype []))
      with (@Raise bytes (AudioError "Failed to convert array to WAV")).
    + reflexivity.
    + unfold array_to_wav_bytes, np_array. cbn [dtype data].
      destruct engine_dtype; reflexivity.
  - intros e Hrun He. unfold except_Exception in Hrun.
    destruct (bind_result _ _) as [chunks|e0]; [discriminate|].
    destruct (is_Exception e0) eqn:E0; injection Hrun as <-;
      [reflexivity | congruence].
Qed.

End RouteProperties.

(** The first theorem at the sample model, with chunks of 16 bytes: the 50
    bytes of the file come as four chunks. *)
Lemma generate_audio_chunks_sample :
  exists (wav : list spec_float) (wav_bytes : bytes),
    generate_speech sample_model (JStr "hello") (JStr "default") 1 "en" = Ok wav
    /\ array_to_wav_bytes sample_config (np_array np_float32 wav) = Ok wav_bytes
    /\ concat [firstn 16 sample_wav_bytes;
               firstn 16 (skipn 16 sample_wav_bytes);
               firstn 16 (skipn 32 sample_wav_bytes);
               skipn 48 sample_wav_bytes] = wav_bytes
    /\ len wav_bytes = 44 + 2 * len wav
    /\ len [firstn 16 sample_wav_bytes;
            firstn 16 (skipn 16 sample_wav_bytes);
            firstn 16 (skipn 32 sample_wav_bytes);
            skipn 48 sample_wav_bytes]
       = (len wav_bytes + 16 - 1) / 16
    /\ (forall (i : nat) (chunk : bytes),
          [firstn 16 sample_wav_bytes;
           firstn 16 (skipn 16 sample_wav_bytes);
           firstn 16 (skipn 32 sample_wav_bytes);
           skipn 48 sample_wav_bytes] !! i = Some chunk ->
          0 < len chunk <= 16
          /\ ((S i < length [firstn 16 sample_wav_bytes;
                             firstn 16 (skipn 16 sample_wav_bytes);
                             firstn 16 (skipn 32 sample_wav_bytes);
                             skipn 48 sample_wav_bytes])%nat ->
              len chunk = 16)).
Proof.
  apply (generate_audio_chunks_cuts_the_file sample_config np_float32
           sample_model (JStr "hello") (JStr "default") 1 16).
  - lia.
  - vm_compute. reflexivity.
Defined.

(** The second theorem at the model whose engine raises and at the one whose
    engine returns no samples. *)
Lemma generate_audio_chunks_raises_sample :
  generate_audio_chunks sample_config np_float32 failing_model
    (JStr "hello") (JStr "default") 1 4096
  = Raise TTSError_without_message
  /\ generate_audio_chunks sample_config np_float32 silent_model
       (JStr "hello") (JStr "default") 1 4096
     = Raise TTSError_without_message.
Proof.
  split.
  - apply (proj1 (generate_audio_chunks_raises_TypeError sample_config
                    np_float32 failing_model (JStr "hello") (JStr "default")
                    1 4096) (ModelError "Speech generation failed"));
      reflexivity.
  - apply (proj1 (proj2 (generate_audio_chunks_raises_TypeError sample_config
                           np_float32 silent_model (JStr "hello")
                           (JStr "default") 1 4096))).
    reflexivity.
Defined.


(** ** Broadcast and shutdown *)

Lemma disconnect_lookup (a : nat) (g : Globals) (id : nat) :
  _active_connections (WebSocketManager.disconnect a g) !! id
  = (if decide (a = id) then None else _active_connections g !! id)
  /\ _streams (WebSocketManager.disconnect a g) !! id
     = (if decide (a = id)
        then match _active_connections g !! a with
             | Some _ => None
             | None => _streams g !! id
             end
        else _streams g !! id).
Proof.
  unfold WebSocketManager.disconnect, StreamManager.remove_stream.
  destruct (_active_connections g !! a) as [ws|] eqn:Ha.
  - destruct (_streams g !! a) as [[stream ws']|] eqn:Hs;
      cbn [_active_connections _streams set_streams set_active_connections];
      rewrite ?lookup_delete; destruct (decide (a = id)) as [<-|Hne];
      auto.
  - destruct (decide (a = id)) as [<-|Hne]; auto.
Qed.

(** What disconnecting the sessions of a list leaves in the registries. *)
Lemma disconnect_all_lookup (ids : list nat) :
  forall (g : Globals) (id : nat),
    _active_connections (disconnect_all ids g) !! id
    = (if decide (id ∈ ids) then None else _active_connections g !! id)
    /\ _streams (disconnect_all ids g) !! id
       = (if decide (id ∈ ids)
          then match _active_connections g !! id with
               | Some _ => None
               | None => _streams g !! id
               end
          else _streams g !! id).
Proof.
  unfold disconnect_all.
  induction ids as [|a ids IH]; intros g id; cbn [fold_left].
  - destruct (decide (id ∈ [])) as [Hin|_]; [|auto].
    apply elem_of_nil in Hin. contradiction.
  - destruct (IH (WebSocketManager.disconnect a g) id) as [IHc IHs].
    destruct (disconnect_lookup a g id) as [Hc Hs].
    rewrite IHc, IHs, Hc, Hs. clear IHc IHs Hc Hs IH.
    destruct (decide (id ∈ ids)) as [Hin|Hnin];
      destruct (decide (id ∈ a :: ids)) as [Hin'|Hnin'];
      destruct (decide (a = id)) as [<-|Hne];
      try rewrite elem_of_cons in Hin'; try rewrite elem_of_cons in Hnin';
      try (destruct (_active_connections g !! a); split; reflexivity);
      try (split; reflexivity); try tauto.
    destruct Hin' as [?|?]; [congruence | contradiction].
Qed.

Lemma store_websocket_lookup (a : nat) (ws : WebSocket) (g : Globals) (id : nat) :
  _active_connections (store_websocket a ws g) !! id
  = (if decide (a = id) then Some ws else _active_connections g !! id)
  /\ (is_Some (_streams (store_websocket a ws g) !! id)
      <-> is_Some (_streams g !! id)).
Proof.
  unfold store_websocket.
  cbn [_active_connections _streams set_streams set_active_connections].
  split; [apply lookup_insert|].
  destruct (_streams g !! a) as [[stream ws']|] eqn:Ha; [|reflexivity].
  rewrite lookup_insert. destruct (decide (a = id)) as [<-|]; [|reflexivity].
  rewrite Ha. split; eauto.
Qed.

(** The first loop of [broadcast]: every item has been sent to, and the
    sessions whose send failed are listed. *)
Lemma broadcast_sends_lookup (message : string)
    (items : list (nat * WebSocket)) :
  NoDup (items.*1) ->
  forall (disconnected : list nat) (g : Globals),
  exists (failed : list nat) (g' : Globals),
    broadcast_sends message items disconnected g
    = (Ok (disconnected ++ failed), g')
    /\ (forall id : nat,
          id ∈ failed
          <-> exists ws, (id, ws) ∈ items /\ delivered message ws = None)
    /\ (forall id : nat,
          (forall ws, (id, ws) ∈ items ->
             _active_connections g' !! id
             = Some (snd (ws_send (Text message) ws)))
          /\ (id ∉ items.*1 ->
              _active_connections g' !! id = _active_connections g !! id)
          /\ (is_Some (_streams g' !! id) <-> is_Some (_streams g !! id))).
Proof.
  induction items as [|[a ws] items IH]; intros Hnd disconnected g.
  - exists [], g. cbn. rewrite app_nil_r. split; [reflexivity|]. split.
    + intros id. rewrite elem_of_nil. split; [tauto|].
      intros (? & Hin & _). apply elem_of_nil in Hin. exact Hin.
    + intros id. split; [|split; reflexivity].
      intros ? Hin. apply elem_of_nil in Hin. contradiction.
  - rewrite fmap_cons in Hnd. cbn [fst] in Hnd.
    apply NoDup_cons in Hnd as [Ha Hnd].
    cbn [broadcast_sends].
    destruct (ws_send (Text message) ws) as [r ws1] eqn:Hsend.
    set (g1 := store_websocket a ws1 g).
    assert (Hlookup : forall (g' : Globals),
               (forall id : nat,
                   (forall ws, (id, ws) ∈ items ->
                      _active_connections g' !! id
                      = Some (snd (ws_send (Text message) ws)))
                   /\ (id ∉ items.*1 ->
                       _active_connections g' !! id
                       = _active_connections g1 !! id)
                   /\ (is_Some (_streams g' !! id)
                       <-> is_Some (_streams g1 !! id))) ->
               forall id : nat,
                 (forall ws0, (id, ws0) ∈ (a, ws) :: items ->
                    _active_connections g' !! id
                    = Some (snd (ws_send (Text message) ws0)))
                 /\ (id ∉ ((a, ws) :: items).*1 ->
                     _active_connections g' !! id = _active_connections g !! id)
                 /\ (is_Some (_streams g' !! id) <-> is_Some (_streams g !! id))).
    { intros g' Hg' id. destruct (Hg' id) as (H1 & H2 & H3).
      destruct (store_websocket_lookup a ws1 g id) as [Hc Hs].
      fold g1 in Hc, Hs. split; [|split].
      - intros ws0 Hin. apply elem_of_cons in Hin as [[= -> ->]|Hin];
          [|apply H1, Hin].
        rewrite H2 by exact Ha. rewrite Hc.
        destruct (decide (a = a)); [|congruence]. rewrite Hsend. reflexivity.
      - intros Hnin. rewrite fmap_cons in Hnin. cbn [fst] in Hnin.
        apply not_elem_of_cons in Hnin as [Hne Hnin].
        rewrite H2 by exact Hnin. rewrite Hc.
        destruct (decide (a = id)); [congruence | reflexivity].
      - rewrite H3. exact Hs. }
    destruct r as [[]|e].
    + destruct (IH Hnd disconnected g1) as (failed & g' & Hrun & Hfailed & Hg').
      exists failed, g'. split; [exact Hrun|]. split; [|apply Hlookup, Hg'].
      intros id. rewrite Hfailed. split.
      * intros (ws0 & Hin & Hd). exists ws0.
        split; [apply list_elem_of_further, Hin | exact Hd].
      * intros (ws0 & Hin & Hd).
        apply elem_of_cons in Hin as [[= -> ->]|Hin].
        -- unfold delivered in Hd. rewrite Hsend in Hd. discriminate.
        -- exists ws0. split; assumption.
    + rewrite (ws_send_raises_Exception _ _ _ _ Hsend).
      destruct (IH Hnd (disconnected ++ [a]) g1)
        as (failed & g' & Hrun & Hfailed & Hg').
      exists (a :: failed), g'. split.
      { rewrite Hrun, <- app_assoc. reflexivity. }
      split; [|apply Hlookup, Hg'].
      intros id. rewrite elem_of_cons, Hfailed. split.
      * intros [->|(ws0 & Hin & Hd)].
        -- exists ws. split; [apply list_elem_of_here|].
           unfold delivered. rewrite Hsend. reflexivity.
        -- exists ws0. split; [apply list_elem_of_further, Hin | exact Hd].
      * intros (ws0 & Hin & Hd).
        apply elem_of_cons in Hin as [[= -> ->]|Hin]; [left; reflexivity|].
        right. exists ws0. split; assumption.
Qed.

Lemma not_in_items (g : Globals) (id : nat) :
  _active_connections g !! id = None ->
  id ∉ (map_to_list (_active_connections g)).*1.
Proof.
  intros Hid Hk. apply list_elem_of_fmap in Hk as ([k ws] & -> & Hk).
  apply elem_of_map_to_list in Hk. cbn in Hid. congruence.
Qed.

(** [broadcast] always returns.  Afterwards [ws_manager] holds exactly the
    connections on which the message could be sent, each with the message
    as its last frame; a session whose send failed is gone from both
    registries; and the streams that have no connection in [ws_manager]
    are still registered. *)
Theorem broadcast_keeps_what_it_reached (message : string) (g : Globals) :
  exists g' : Globals,
    broadcast message g = (Ok tt, g')
    /\ forall id : nat,
         _active_connections g' !! id
         = _active_connections g !! id ≫= delivered message
         /\ (forall ws : WebSocket,
               _active_connections g !! id = Some ws ->
               delivered message ws = None ->
               _streams g' !! id = None)
         /\ (forall ws : WebSocket,
               _active_connections g !! id = Some ws ->
               application_state ws = CONNECTED ->
               client_gone ws = false ->
               _active_connections g' !! id
               = Some (push_frame (Text message) ws))
         /\ (_active_connections g !! id = None ->
             (is_Some (_streams g' !! id) <-> is_Some (_streams g !! id))).
Proof.
  unfold broadcast.
  destruct (broadcast_sends_lookup message (map_to_list (_active_connections g))
              (NoDup_fst_map_to_list _) [] g)
    as (failed & g1 & Hrun & Hfailed & Hg1).
  rewrite Hrun. cbn [app]. eexists. split; [reflexivity|].
  intros id.
  destruct (disconnect_all_lookup failed g1 id) as [Hc Hs].
  destruct (Hg1 id) as (Hin & Hnin & Hkeys).
  assert (Hmain : _active_connections (disconnect_all failed g1) !! id
                  = _active_connections g !! id ≫= delivered message).
  { rewrite Hc.
    destruct (_active_connections g !! id) as [ws|] eqn:Hid; cbn.
    - pose proof (proj2 (elem_of_map_to_list _ _ _) Hid) as Hws.
      destruct (decide (id ∈ failed)) as [Hf|Hnf].
      + apply Hfailed in Hf as (ws0 & Hws0 & Hd).
        apply elem_of_map_to_list in Hws0. congruence.
      + rewrite (Hin ws Hws). unfold delivered in *.
        destruct (ws_send (Text message) ws) as [[[]|e] ws1] eqn:Hsend;
          [reflexivity|].
        exfalso. apply Hnf, Hfailed. exists ws. split; [exact Hws|].
        rewrite Hsend. reflexivity.
    - destruct (decide (id ∈ failed)); [reflexivity|].
      rewrite Hnin by (apply not_in_items, Hid). reflexivity. }
  split; [exact Hmain|]. split; [|split].
  - intros ws Hid Hd. rewrite Hs.
    pose proof (proj2 (elem_of_map_to_list _ _ _) Hid) as Hws.
    assert (Hf : id ∈ failed).
    { apply Hfailed. exists ws. split; [exact Hws | exact Hd]. }
    destruct (decide (id ∈ failed)); [|contradiction].
    rewrite (Hin ws Hws). reflexivity.
  - intros ws Hid Hstate Hgone. rewrite Hmain, Hid. cbn.
    unfold delivered, ws_send. rewrite Hstate, Hgone. reflexivity.
  - intros Hid. rewrite Hs.
    destruct (decide (id ∈ failed)) as [Hf|Hnf]; [|exact Hkeys].
    apply Hfailed in Hf as (ws0 & Hws0 & _).
    apply elem_of_map_to_list in Hws0. congruence.
Qed.

(** The shutdown disconnects every session of [ws_manager] and removes its
    stream.  It does nothing about the streams that were registered
    without a connection, which are those of the endpoint. *)
Theorem lifespan_shutdown_disconnects (g : Globals) :
  _active_connections (lifespan_shutdown g) = ∅
  /\ forall id : nat,
       (is_Some (_active_connections g !! id) ->
        _streams (lifespan_shutdown g) !! id = None)
       /\ (_active_connections g !! id = None ->
           _streams (lifespan_shutdown g) !! id = _streams g !! id).
Proof.
  unfold lifespan_shutdown. cbv zeta.
  set (ids := map fst (map_to_list (_active_connections g))).
  assert (Hids : forall id, id ∈ ids <-> is_Some (_active_connections g !! id)).
  { intros id. unfold ids. split.
    - intros Hk. apply list_elem_of_fmap in Hk as ([k ws] & -> & Hk).
      apply elem_of_map_to_list in Hk. cbn. eauto.
    - intros [ws Hws].
      apply (list_elem_of_fmap_2' fst _ (id, ws)); [|reflexivity].
      apply elem_of_map_to_list, Hws. }
  split.
  - apply map_eq. intros id. rewrite lookup_empty.
    destruct (disconnect_all_lookup ids g id) as [-> _].
    destruct (decide (id ∈ ids)) as [Hin|Hnin]; [reflexivity|].
    destruct (_active_connections g !! id) eqn:E; [|reflexivity].
    exfalso. apply Hnin, Hids. eauto.
  - intros id. destruct (disconnect_all_lookup ids g id) as [_ ->].
    split.
    + intros Hsome. destruct (decide (id ∈ ids)) as [_|Hnin].
      * destruct Hsome as [ws ->]. reflexivity.
      * exfalso. apply Hnin, Hids, Hsome.
    + intros Hnone. rewrite Hnone.
      destruct (decide (id ∈ ids)); reflexivity.
Qed.

(** A broadcast to three sessions, the second of which has lost its peer:
    that session is removed, the other two have the message. *)
Example broadcast_three_connections :
  let g' := snd (broadcast "hello" three_connections) in
  WebSocketManager.active_connections g' = 2%nat
  /\ StreamManager.active_streams g' = 2%nat
  /\ _active_connections g' !! 1%nat = None
  /\ sent <$> _active_connections g' !! 0%nat = Some [Text "hello"]
  /\ sent <$> _active_connections g' !! 2%nat = Some [Text "hello"].
Proof. vm_compute. repeat split. Qed.

(** The shutdown of a server with two sessions of [ws_manager] and one of
    the endpoint: the endpoint's stream is the one that stays. *)
Example lifespan_shutdown_mixed_sessions :
  StreamManager.active_streams mixed_sessions = 3%nat
  /\ StreamManager.active_streams (lifespan_shutdown mixed_sessions) = 1%nat
  /\ WebSocketManager.active_connections (lifespan_shutdown mixed_sessions)
     = 0%nat
  /\ is_Some (StreamManager.get_stream 2 (lifespan_shutdown mixed_sessions)).
Proof. vm_compute. repeat split. eauto. Qed.


(** ** The stream's own message loop *)

Section StreamMessagesProperties.
Context {T : Type} {NP : NpScalar T}.
Variable tts_model : TTSModel T.
Variable float_of_string : string -> option Q.

(** In [AudioStream.handle_messages] a [stop] closes the stream and ends
    the loop, so that what was sent after it is not read; and a message of
    a type other than [synthesize] and [stop] is dropped without a reply
    (the handler of the endpoint answers it with an error frame). *)
Theorem handle_messages_stop_and_other_types
    (fields : list (string * json)) (rest : list json) (c : Stream.Conn) :
  Stream._active (Stream.stream c) = true ->
  (message_type fields = JStr "stop" ->
   StreamMessages.handle_messages tts_model float_of_string
     (JObj fields :: rest) c
   = (StreamMessages.Returned, Stream.close_conn c))
  /\ (json_eq_str (message_type fields) "synthesize" = false ->
      json_eq_str (message_type fields) "stop" = false ->
      StreamMessages.handle_messages tts_model float_of_string
        (JObj fields :: rest) c
      = StreamMessages.handle_messages tts_model float_of_string rest c).
Proof.
  intros Hact. split.
  - intros Hty. cbn [StreamMessages.handle_messages]. rewrite Hact. cbn [negb].
    unfold StreamMessages.handle_received, StreamMessages.message_body, dict_get.
    fold (message_type fields). rewrite Hty. reflexivity.
  - intros H1 H2. cbn [StreamMessages.handle_messages]. rewrite Hact. cbn [negb].
    unfold StreamMessages.handle_received, StreamMessages.message_body, dict_get.
    fold (message_type fields). rewrite H1, H2. reflexivity.
Qed.

(** A [synthesize] message without a text is answered with the one error
    frame ["Text is required"], and the loop goes on.  The speed is
    converted before the text is looked at, so this needs a speed that
    [float] accepts. *)
Theorem handle_messages_text_required
    (fields : list (string * json)) (rest : list json) (c : Stream.Conn)
    (speed : Q) :
  Stream._active (Stream.stream c) = true ->
  application_state (Stream.websocket c) = CONNECTED ->
  client_gone (Stream.websocket c) = false ->
  message_type fields = JStr "synthesize" ->
  py_truthy (get_field fields "text" (JStr "")) = false ->
  Handler.py_float float_of_string (get_field fields "speed" (JFloat 1))
    = Ok speed ->
  StreamMessages.handle_messages tts_model float_of_string
    (JObj fields :: rest) c
  = StreamMessages.handle_messages tts_model float_of_string rest
      (conn_reply (error_frame "Text is required") c).
Proof.
  intros Hact Hstate Hgone Hty Htext Hspeed.
  cbn [StreamMessages.handle_messages]. rewrite Hact. cbn [negb].
  unfold StreamMessages.handle_received, StreamMessages.message_body, dict_get.
  fold (message_type fields). fold (get_field fields "text" (JStr "")).
  fold (get_field fields "speed" (JFloat 1)).
  rewrite Hty. cbn [json_eq_str].
  change (String.eqb "synthesize" "synthesize") with true. cbv beta iota.
  cbn [bind_result]. rewrite Hspeed. cbn [bind_result]. rewrite Htext.
  cbn [negb]. rewrite (send_connected _ _ Hstate Hgone). reflexivity.
Qed.

(** When the synthesis of a request fails, [handle_messages] ends: the
    stream is closed, the transport is disconnected, the messages that
    follow are not read, and the client has been sent nothing, since the
    error frame is sent after the transport was closed. *)
Theorem handle_messages_synthesis_failure
    (fields : list (string * json)) (rest : list json) (c : Stream.Conn)
    (speed : Q) (e : exn) :
  Stream._active (Stream.stream c) = true ->
  message_type fields = JStr "synthesize" ->
  py_truthy (get_field fields "text" (JStr "")) = true ->
  Handler.py_float float_of_string (get_field fields "speed" (JFloat 1))
    = Ok speed ->
  generate_speech_stream tts_model (get_field fields "text" (JStr ""))
    (get_field fields "voice" (JStr "default")) speed "en"
    (Some (Stream.chunk_size (Stream.config (Stream.stream c)))) = Raise e ->
  is_Exception e = true ->
  exists c' : Stream.Conn,
    StreamMessages.handle_messages tts_model float_of_string
      (JObj fields :: rest) c
    = (StreamMessages.Returned, c')
    /\ Stream._active (Stream.stream c') = false
    /\ application_state (Stream.websocket c') = DISCONNECTED
    /\ sent (Stream.websocket c') = sent (Stream.websocket c).
Proof.
  intros Hact Hty Htext Hspeed Hgen He.
  cbn [StreamMessages.handle_messages]. rewrite Hact. cbn [negb].
  unfold StreamMessages.handle_received, StreamMessages.message_body, dict_get.
  fold (message_type fields). fold (get_field fields "text" (JStr "")).
  fold (get_field fields "voice" (JStr "default")).
  fold (get_field fields "speed" (JFloat 1)).
  rewrite Hty. cbn [json_eq_str].
  change (String.eqb "synthesize" "synthesize") with true. cbv beta iota.
  cbn [bind_result]. rewrite Hspeed. cbn [bind_result]. rewrite Htext.
  cbn [negb].
  unfold Stream.stream_audio, Stream.stream_audio_body.
  rewrite Hgen, He.
  set (c1 := Stream.close_conn (Stream.suspend c)).
  assert (Hstate : application_state (Stream.websocket c1) = DISCONNECTED)
    by apply close_conn_disconnected.
  assert (Hsend : Stream.send (error_frame (str_exn (WebSocketError "Audio streaming failed"))) c1
                  = (Raise (RuntimeError "Cannot call send once a close message has been sent."), c1)).
  { unfold Stream.send, ws_send. rewrite Hstate. destruct c1; reflexivity. }
  cbn [is_Exception]. rewrite Hsend. cbn [is_Exception].
  eexists. split; [reflexivity|]. split; [apply close_conn_inactive|].
  split; [apply close_conn_disconnected|].
  rewrite (proj2 (close_conn_inactive c1)). unfold c1.
  rewrite (proj2 (close_conn_inactive (Stream.suspend c))).
  apply suspend_sent.
Qed.

End StreamMessagesProperties.

(** The first theorem at the open sample connection: a [stop] before a
    request, and a message of an unknown type before a [stop]. *)
Lemma handle_messages_stop_sample :
  StreamMessages.handle_messages sample_model no_float_of_string
    [stop_message; synthesize_hello] open_conn
  = (StreamMessages.Returned, Stream.close_conn open_conn)
  /\ StreamMessages.handle_messages sample_model no_float_of_string
       [hello_message; stop_message] open_conn
     = StreamMessages.handle_messages sample_model no_float_of_string
         [stop_message] open_conn.
Proof.
  split.
  - apply (proj1 (handle_messages_stop_and_other_types sample_model
                    no_float_of_string [("type", JStr "stop")]
                    [synthesize_hello] open_conn eq_refl)).
    reflexivity.
  - apply (proj2 (handle_messages_stop_and_other_types sample_model
                    no_float_of_string [("type", JStr "hello")]
                    [stop_message] open_conn eq_refl)); reflexivity.
Defined.

(** The second theorem at the request with the empty text. *)
Lemma handle_messages_text_required_sample :
  StreamMessages.handle_messages sample_model no_float_of_string
    [synthesize_nothing; stop_message] open_conn
  = StreamMessages.handle_messages sample_model no_float_of_string
      [stop_message] (conn_reply (error_frame "Text is required") open_conn).
Proof.
  apply (handle_messages_text_required sample_model no_float_of_string
           [("type", JStr "synthesize"); ("text", JStr "")] [stop_message]
           open_conn 1); reflexivity.
Defined.

(** The third theorem at the model whose engine raises. *)
Lemma handle_messages_synthesis_failure_sample :
  exists c' : Stream.Conn,
    StreamMessages.handle_messages failing_model no_float_of_string
      [synthesize_hello; stop_message] open_conn
    = (StreamMessages.Returned, c')
    /\ Stream._active (Stream.stream c') = false
    /\ application_state (Stream.websocket c') = DISCONNECTED
    /\ sent (Stream.websocket c') = sent (Stream.websocket open_conn).
Proof.
  apply (handle_messages_synthesis_failure failing_model no_float_of_string
           [("type", JStr "synthesize"); ("text", JStr "hello");
            ("voice", JStr "default"); ("speed", JFloat 1)]
           [stop_message] open_conn 1 (ModelError "Speech streaming failed"));
    reflexivity.
Defined.
